(** * Verification of the sampling engine of [Base/mcmc.py]

    A shallow embedding of the Metropolis-Hastings driver, the
    delayed-acceptance driver, the multi-chain seeding and the
    Moreau-Yosida prior, followed by the properties proved about them.

    Numbers.  Tensor entries and Python floats are values of [fval]: a
    real number, one of the two infinities, or NaN.  The special values
    follow the IEEE-754 rules that torch and Python apply (an undefined
    form gives NaN, every comparison with NaN is false); arithmetic on
    finite values is exact, so rounding, overflow, underflow and the sign
    of zero are outside the model.  The one formula whose claimed value
    depends on rounding, the second-stage probability, is embedded a second
    time in [Rounded], over the IEEE binary formats.

    Effects.  The drivers run in a small state-and-exception monad over a
    [world]: the state of the process-wide random generator and the trace
    of calls made so far.  Python exceptions are the [Raise] outcome. *)

From Stdlib Require Import String.
From Stdlib Require Import Reals Lra Lia List Bool Arith ZArith.
From Stdlib Require SpecFloat.
Import ListNotations.

Set Implicit Arguments.

Local Open Scope R_scope.

(* ================================================================== *)
(** ** Extended floating values *)

Module IEEE.

Inductive fval : Type :=
| Fin (r : R)
| PInf
| NInf
| NaN.

Definition fneg (x : fval) : fval :=
  match x with
  | Fin r => Fin (- r)
  | PInf => NInf
  | NInf => PInf
  | NaN => NaN
  end.

Definition fadd (x y : fval) : fval :=
  match x, y with
  | NaN, _ | _, NaN => NaN
  | Fin a, Fin b => Fin (a + b)
  | PInf, NInf | NInf, PInf => NaN
  | PInf, _ | _, PInf => PInf
  | NInf, _ | _, NInf => NInf
  end.

Definition fsub (x y : fval) : fval := fadd x (fneg y).

(** Sign of a real, as the three-way test the special cases need. *)
Inductive sign : Type := Neg | Zero | Pos.

Definition sgn (r : R) : sign :=
  if Rlt_dec 0 r then Pos else if Rlt_dec r 0 then Neg else Zero.

(** An infinity of the given polarity ([true] is [+inf]). *)
Definition inf (positive : bool) : fval := if positive then PInf else NInf.

(** [inf positive * Fin r]. *)
Definition inf_times (positive : bool) (r : R) : fval :=
  match sgn r with
  | Pos => inf positive
  | Neg => inf (negb positive)
  | Zero => NaN
  end.

Definition fmul (x y : fval) : fval :=
  match x, y with
  | NaN, _ | _, NaN => NaN
  | Fin a, Fin b => Fin (a * b)
  | PInf, Fin b => inf_times true b
  | NInf, Fin b => inf_times false b
  | Fin a, PInf => inf_times true a
  | Fin a, NInf => inf_times false a
  | PInf, PInf | NInf, NInf => PInf
  | PInf, NInf | NInf, PInf => NInf
  end.

(** Division of tensors and of a number by a tensor: a zero divisor gives
    an infinity or NaN, it does not raise. *)
Definition fdiv (x y : fval) : fval :=
  match x, y with
  | NaN, _ | _, NaN => NaN
  | Fin a, Fin b =>
      match sgn b with
      | Zero => match sgn a with Pos => PInf | Neg => NInf | Zero => NaN end
      | _ => Fin (a / b)
      end
  | Fin _, PInf | Fin _, NInf => Fin 0
  | PInf, Fin b => match sgn b with Neg => NInf | _ => PInf end
  | NInf, Fin b => match sgn b with Neg => PInf | _ => NInf end
  | PInf, PInf | PInf, NInf | NInf, PInf | NInf, NInf => NaN
  end.

Definition fabs (x : fval) : fval :=
  match x with
  | Fin r => Fin (Rabs r)
  | PInf | NInf => PInf
  | NaN => NaN
  end.

Definition fexp (x : fval) : fval :=
  match x with
  | Fin r => Fin (exp r)
  | PInf => PInf
  | NInf => Fin 0
  | NaN => NaN
  end.

Definition flog (x : fval) : fval :=
  match x with
  | Fin r => match sgn r with Pos => Fin (ln r) | Zero => NInf | Neg => NaN end
  | PInf => PInf
  | NInf | NaN => NaN
  end.

Definition fsqrt (x : fval) : fval :=
  match x with
  | Fin r => match sgn r with Neg => NaN | _ => Fin (sqrt r) end
  | PInf => PInf
  | NInf | NaN => NaN
  end.

(** [torch.clamp(x, max=m)]: NaN is propagated. *)
Definition clamp_max (m : R) (x : fval) : fval :=
  match x with
  | Fin r => Fin (Rmin r m)
  | PInf => Fin m
  | NInf => NInf
  | NaN => NaN
  end.

(** [torch.clamp(x, min=m)]. *)
Definition clamp_min (m : R) (x : fval) : fval :=
  match x with
  | Fin r => Fin (Rmax r m)
  | PInf => PInf
  | NInf => Fin m
  | NaN => NaN
  end.

(** The comparison [x < y]: false as soon as one side is NaN. *)
Definition fltb (x y : fval) : bool :=
  match x, y with
  | NaN, _ | _, NaN => false
  | Fin a, Fin b => if Rlt_dec a b then true else false
  | _, NInf => false
  | NInf, _ => true
  | PInf, _ => false
  | Fin _, PInf => true
  end.

(** [x >= y], used by the argument check of [torch.normal]. *)
Definition fgeb (x y : fval) : bool :=
  match x, y with
  | NaN, _ | _, NaN => false
  | _, _ => negb (fltb x y)
  end.

Definition fsum (l : list fval) : fval := fold_left fadd l (Fin 0).

Definition finite (x : fval) : Prop := exists r, x = Fin r.

End IEEE.
Export IEEE.

(* ================================================================== *)
(** ** Step-size controller

    The statement [dt += dt * (a.item() - 0.234) / (i + 1)] of both
    drivers. *)

Definition adapt (dt a : fval) (i : nat) : fval :=
  fadd dt (fdiv (fmul dt (fsub a (Fin 0.234))) (Fin (INR (i + 1)))).

(* ================================================================== *)
(** ** One-dimensional tensors *)

Definition vec : Type := list fval.

Fixpoint vadd (x y : vec) : vec :=
  match x, y with
  | a :: x', b :: y' => fadd a b :: vadd x' y'
  | _, _ => []
  end.

Definition vscale (c : fval) (x : vec) : vec := map (fmul c) x.

Definition of_reals (l : list R) : vec := map Fin l.

(** [m[i, :] = row]; an index past the end leaves [m] as it is (the
    drivers only write inside the buffer they allocated). *)
Fixpoint set_row {A : Type} (i : nat) (row : A) (m : list A) : list A :=
  match m, i with
  | [], _ => []
  | _ :: m', O => row :: m'
  | r :: m', S i' => r :: set_row i' row m'
  end.

(* ================================================================== *)
(** ** The random generator

    The process-wide torch generator is an abstract state [G]; each draw
    returns a value and the next state. *)

Class RandomSource (G : Type) : Type := {
  (** [torch.rand(1)] *)
  rand : G -> R * G;
  (** [n] standard normal draws ([torch.normal], [torch.randn_like],
      [Normal.sample]) *)
  randn : nat -> G -> list R * G;
  (** [torch.empty(n).uniform_(-1, 1)] *)
  uniform_ : nat -> G -> list R * G;
  (** [torch.randint(0, high, (1,)).item()] *)
  randint : nat -> G -> nat * G;
  (** [torch.multinomial(weights, n, replacement=True)] on valid weights *)
  multinomial : list R -> nat -> G -> list nat * G;
  (** [torch.manual_seed(seed)] *)
  manual_seed : nat -> G
}.

(** What the drivers rely on from the generator. *)
Class RandomSourceLaws (G : Type) {RS : RandomSource G} : Prop := {
  rand_range : forall g, 0 <= fst (rand g) < 1;
  randn_length : forall n g, length (fst (randn n g)) = n;
  uniform_length : forall n g, length (fst (uniform_ n g)) = n;
  uniform_range : forall n g, Forall (fun x => -1 <= x < 1) (fst (uniform_ n g));
  randint_range : forall high g, (0 < high)%nat -> (fst (randint high g) < high)%nat;
  multinomial_length : forall w n g, length (fst (multinomial w n g)) = n;
  multinomial_range : forall w n g,
      w <> [] -> Forall (fun i => (i < length w)%nat) (fst (multinomial w n g))
}.

(* ================================================================== *)
(** ** Execution monad *)

Inductive exn : Type :=
| AttributeError (attr : string)
| ZeroDivisionError
| RuntimeError (msg : string)
| ValueError (msg : string)
| IndexError.

(** Calls worth observing: proposals with the step size they were given,
    likelihood evaluations, and the reciprocal [1/a] of the second
    delayed-acceptance stage. *)
Inductive event : Type :=
| EvProposal (theta : vec) (dt : fval)
| EvLikelihood (theta : vec)
| EvOuter (theta : vec)
| EvInner (theta : vec)
| EvRecip (a : fval).

Section Exec.
Context {G : Type}.

Record world : Type := World { gen : G; trace : list event }.

(** [OutOfFuel]: a [while] loop has not finished within the iterations
    it was allowed. *)
Inductive outcome (A : Type) : Type :=
| Ok (a : A) (w : world)
| Raise (e : exn) (w : world)
| OutOfFuel (w : world).

Arguments Ok {A} a w.
Arguments Raise {A} e w.
Arguments OutOfFuel {A} w.

Definition M (A : Type) : Type := world -> outcome A.

Definition ret {A : Type} (a : A) : M A := fun w => Ok a w.

Definition bind {A B : Type} (m : M A) (k : A -> M B) : M B :=
  fun w =>
    match m w with
    | Ok a w' => k a w'
    | Raise e w' => Raise e w'
    | OutOfFuel w' => OutOfFuel w'
    end.

Definition raise {A : Type} (e : exn) : M A := fun w => Raise e w.

Definition emit (ev : event) : M unit :=
  fun w => Ok tt {| gen := gen w; trace := trace w ++ [ev] |}.

Definition draw {A : Type} (f : G -> A * G) : M A :=
  fun w => let (a, g') := f (gen w) in Ok a {| gen := g'; trace := trace w |}.

Definition final_world {A : Type} (o : outcome A) : world :=
  match o with
  | Ok _ w | Raise _ w | OutOfFuel w => w
  end.

(** [for i in range(n)], the loop-carried variables in [s]. *)
Fixpoint for_from {S : Type} (i n : nat) (body : nat -> S -> M S) (s : S) : M S :=
  match n with
  | O => ret s
  | Datatypes.S n' => bind (body i s) (for_from (Datatypes.S i) n' body)
  end.

Definition for_range {S : Type} (n : nat) (body : nat -> S -> M S) : S -> M S :=
  for_from 0 n body.

(** [while cond: body], cut off after [fuel] iterations. *)
Fixpoint while {S : Type} (fuel : nat) (cond : S -> bool) (body : S -> M S)
         (s : S) : M S :=
  if cond s then
    match fuel with
    | O => fun w => OutOfFuel w
    | Datatypes.S fuel' => bind (body s) (while fuel' cond body)
    end
  else ret s.

(** [a % b] on Python integers. *)
Definition py_mod (a b : nat) : M nat :=
  if Nat.eqb b 0 then raise ZeroDivisionError else ret (a mod b)%nat.

(** [a / b] on Python integers: true division. *)
Definition py_truediv (a b : nat) : M fval :=
  if Nat.eqb b 0 then raise ZeroDivisionError else ret (Fin (INR a / INR b)).

(** The guard [verbose and (i % period == 0) and (i != 0)] of the progress
    report; what it prints changes nothing the drivers return. *)
Definition progress_report (verbose : bool) (i period : nat) : M unit :=
  if verbose then bind (py_mod i period) (fun _ => ret tt) else ret tt.

End Exec.

Arguments world : clear implicits.
Arguments outcome : clear implicits.
Arguments M : clear implicits.
Arguments Ok {G A} a w.
Arguments Raise {G A} e w.
Arguments OutOfFuel {G A} w.

Declare Scope exec_scope.
Notation "x <- c1 ;; c2" := (bind c1 (fun x => c2))
  (at level 61, c1 at next level, right associativity) : exec_scope.
Notation "' pat <- c1 ;; c2" := (bind c1 (fun x => match x with pat => c2 end))
  (at level 61, pat pattern, c1 at next level, right associativity) : exec_scope.
Local Open Scope exec_scope.

(** [torch.normal(mean, std)] with a scalar [std]: the argument check, then
    [mean + std * z]. *)
Definition torch_normal {G} `{RandomSource G} (mean : vec) (std : fval) : M G vec :=
  if fgeb std (Fin 0) then
    z <- draw (randn (length mean)) ;;
    ret (vadd mean (vscale std (of_reals z)))
  else raise (RuntimeError "normal expects std >= 0.0"%string).

Inductive proposal_kind : Type := random_walk | langevin.

Definition zeros (n : nat) : vec := repeat (Fin 0) n.

Definition zeros_like (x : vec) : vec := zeros (length x).

(* ================================================================== *)
(** ** [class MetropolisHastings] *)

Module MetropolisHastings.

(** An instance of a subclass: the settings stored by [__init__], the two
    methods a subclass has to override, and what [torch.autograd.grad]
    makes of its [log_likelihood]: the gradient, or nothing when the value
    returned is detached from [theta]. *)
Record t : Type := {
  nparameters : nat;
  nsamples : nat;
  burnin : nat;
  proposal_type : proposal_kind;
  self_dt : fval;
  log_prior : vec -> fval;
  log_likelihood : vec -> fval;
  grad_log_likelihood : vec -> option vec
}.

(** The variables [run_chain] carries from one iteration to the next. *)
Record locals : Type := {
  theta : vec;
  samples : list vec;
  accepted_proposals : nat;
  dt : fval
}.

(** The exclusive upper bound of the seeds drawn by [run_chains]. *)
Definition seed_bound : nat := Z.to_nat 100000.

Arguments seed_bound : simpl never.

(** One child process of [run_chains]: the seed it was started with and
    what its [_run_chain] did. *)
Record process (G : Type) : Type := {
  seed : nat;
  result : outcome G (list vec * fval)
}.

(** [self.log_prior(theta) + self.log_likelihood(theta)], as a value. *)
Definition posterior (self : t) (th : vec) : fval :=
  fadd (log_prior self th) (log_likelihood self th).

Section Driver.
Context {G : Type} `{RandomSource G}.
Variable self : t.

Definition call_log_likelihood (th : vec) : M G fval :=
  _ <- emit (EvLikelihood th) ;;
  ret (log_likelihood self th).

Definition proposal (th : vec) (step : fval) : M G vec :=
  _ <- emit (EvProposal th step) ;;
  match proposal_type self with
  | random_walk =>
      noise <- torch_normal (zeros_like th) step ;;
      ret (vadd th noise)
  | langevin =>
      _ <- call_log_likelihood th ;;
      match grad_log_likelihood self th with
      | None => raise (RuntimeError "element 0 of tensors does not require grad")
      | Some gradient =>
          z <- draw (randn (length th)) ;;
          ret (vadd (vadd th (vscale (fmul (Fin 0.5) step) gradient))
                    (vscale step (of_reals z)))
      end
  end.

Definition log_posterior (th : vec) : M G fval :=
  _ <- call_log_likelihood th ;;
  ret (posterior self th).

(** The body of [for i in pbar]. *)
Definition step (verbose : bool) (i : nat) (s : locals) : M G locals :=
  theta_proposal <- proposal (theta s) (dt s) ;;
  log_post <- log_posterior (theta s) ;;
  log_post_proposal <- log_posterior theta_proposal ;;
  let a := clamp_max 1 (fexp (fsub log_post_proposal log_post)) in
  u <- draw rand ;;
  let accept := fltb (Fin u) a in
  let theta' := if accept then theta_proposal else theta s in
  let s' := {| theta := theta';
               samples := set_row i theta' (samples s);
               accepted_proposals :=
                 if accept then S (accepted_proposals s) else accepted_proposals s;
               dt := adapt (dt s) a i |} in
  _ <- progress_report verbose i (nsamples self / 10) ;;
  ret s'.

Definition initial (theta0 : list R) : locals :=
  {| theta := of_reals theta0;
     samples := repeat (zeros (nparameters self)) (nsamples self + burnin self);
     accepted_proposals := 0;
     dt := self_dt self |}.

Definition run_chain (verbose : bool) : M G (list vec * fval) :=
  theta0 <- draw (uniform_ (nparameters self)) ;;
  s <- for_range (nsamples self + burnin self) (step verbose) (initial theta0) ;;
  rate <- py_truediv (accepted_proposals s) (nsamples self) ;;
  ret (skipn (burnin self) (samples s), rate).

(** [_run_chain], in the child process: its generator is seeded afresh. *)
Definition _run_chain (sd : nat) : outcome G (list vec * fval) :=
  run_chain false {| gen := manual_seed sd; trace := [] |}.

(** [seeds = [torch.randint(0, 100000, (1,)).item() for _ in range(nchains)]] *)
Fixpoint draw_seeds (nchains : nat) : M G (list nat) :=
  match nchains with
  | O => ret []
  | S n =>
      s <- draw (randint seed_bound) ;;
      rest <- draw_seeds n ;;
      ret (s :: rest)
  end.

(** [run_chains]: process [i] is started on [seeds[i]].  The order in
    which the queue hands the results back is not modelled; the
    processes are listed in launch order. *)
Definition run_chains (nchains : nat) : M G (list (process G)) :=
  seeds <- draw_seeds nchains ;;
  ret (map (fun i => let sd := nth i seeds O in
                     {| seed := sd; result := _run_chain sd |})
           (seq 0 nchains)).

End Driver.

End MetropolisHastings.

(* ================================================================== *)
(** ** [class MCMCDA] *)

Module MCMCDA.

(** An instance of a subclass.  The class defines [log_prior],
    [log_likelihood_outer] and [log_likelihood_inner] for its subclasses to
    override; it defines no [log_likelihood], so that attribute exists only
    when a subclass adds it ([attr_log_likelihood], with the gradient
    autograd would compute for it). *)
Record t : Type := {
  nparameters : nat;
  iter_mcmc : nat;
  iter_da : nat;
  proposal_type : proposal_kind;
  self_dt : fval;
  log_prior : vec -> fval;
  log_likelihood_outer : vec -> fval;
  log_likelihood_inner : vec -> fval;
  attr_log_likelihood : option ((vec -> fval) * (vec -> vec))
}.

(** The local variables of [run_chain]. *)
Record locals : Type := {
  theta : vec;
  dt : fval;
  acceptance_list : vec;
  samples_outer : list vec;
  samples_inner : list vec;
  outer_mh : nat;
  inner_accepted : nat;
  inner_mh : nat
}.

(** What [run_chain] returns: the two trajectories when [samples] is set,
    the outcome bits otherwise. *)
Inductive returned : Type :=
| Trajectories (inner : vec) (outer : list vec)
| AcceptanceList (bits : vec).

(** [l[i] += 1] *)
Definition incr_at (i : nat) (l : vec) : vec :=
  set_row i (fadd (nth i l (Fin 0)) (Fin 1)) l.

(** First-stage probability, from the two coarse log-posteriors. *)
Definition stage1_prob (log_post log_post_proposal : fval) : fval :=
  clamp_max 1 (fexp (fsub log_post_proposal log_post)).

(** Second-stage probability, from the two fine log-posteriors and the
    first-stage probability [a]. *)
Definition stage2_prob (log_post log_post_proposal a : fval) : fval :=
  clamp_max 1 (fmul (fexp (fsub log_post_proposal log_post)) (fdiv (Fin 1) a)).

(** [self.log_prior(theta) + self.log_likelihood_outer(theta)] and its fine
    counterpart, as values. *)
Definition outer_posterior (self : t) (th : vec) : fval :=
  fadd (log_prior self th) (log_likelihood_outer self th).

Definition inner_posterior (self : t) (th : vec) : fval :=
  fadd (log_prior self th) (log_likelihood_inner self th).

Section Driver.
Context {G : Type} `{RandomSource G}.
Variable self : t.

Definition proposal (th : vec) (step : fval) : M G vec :=
  _ <- emit (EvProposal th step) ;;
  match proposal_type self with
  | random_walk =>
      noise <- torch_normal (zeros_like th) step ;;
      ret (vadd th noise)
  | langevin =>
      match attr_log_likelihood self with
      | None => raise (AttributeError "log_likelihood")
      | Some (log_lik, grad) =>
          _ <- emit (EvLikelihood th) ;;
          let gradient := grad th in
          z <- draw (randn (length th)) ;;
          ret (vadd (vadd th (vscale (fmul (Fin 0.5) step) gradient))
                    (vscale step (of_reals z)))
      end
  end.

Definition log_posterior_outer (th : vec) : M G fval :=
  _ <- emit (EvOuter th) ;;
  ret (outer_posterior self th).

Definition log_posterior_inner (th : vec) : M G fval :=
  _ <- emit (EvInner th) ;;
  ret (inner_posterior self th).

(** Phase A: the body of [for i in pbar]. *)
Definition outer_step (samples verbose : bool) (i : nat) (s : locals) : M G locals :=
  theta_proposal <- proposal (theta s) (dt s) ;;
  lp <- log_posterior_outer (theta s) ;;
  lpp <- log_posterior_outer theta_proposal ;;
  let a := stage1_prob lp lpp in
  u <- draw rand ;;
  let accept := fltb (Fin u) a in
  let theta' := if accept then theta_proposal else theta s in
  let s' := {| theta := theta';
               dt := adapt (dt s) a i;
               acceptance_list := acceptance_list s;
               samples_outer :=
                 if samples then set_row i theta' (samples_outer s)
                 else samples_outer s;
               samples_inner := samples_inner s;
               outer_mh := if accept then S (outer_mh s) else outer_mh s;
               inner_accepted := inner_accepted s;
               inner_mh := inner_mh s |} in
  _ <- progress_report verbose i (iter_mcmc self / 10) ;;
  ret s'.

(** Phase B, inside [if torch.rand(1) < a]: the trial is counted, the
    fine model is evaluated, and the second test decides. *)
Definition second_stage (theta_proposal : vec) (a : fval) (s : locals) : M G locals :=
  let trials := S (inner_mh s) in
  lp <- log_posterior_inner (theta s) ;;
  lpp <- log_posterior_inner theta_proposal ;;
  _ <- emit (EvRecip a) ;;
  let a2 := stage2_prob lp lpp a in
  u <- draw rand ;;
  let accept := fltb (Fin u) a2 in
  ret {| theta := if accept then theta_proposal else theta s;
         dt := dt s;
         acceptance_list :=
           if accept then incr_at (trials - 1) (acceptance_list s)
           else acceptance_list s;
         samples_outer := samples_outer s;
         samples_inner := samples_inner s;
         outer_mh := outer_mh s;
         inner_accepted :=
           if accept then S (inner_accepted s) else inner_accepted s;
         inner_mh := trials |}.

Definition append_inner (s : locals) : locals :=
  {| theta := theta s;
     dt := dt s;
     acceptance_list := acceptance_list s;
     samples_outer := samples_outer s;
     samples_inner := samples_inner s ++ [theta s];
     outer_mh := outer_mh s;
     inner_accepted := inner_accepted s;
     inner_mh := inner_mh s |}.

(** Phase B: the body of [while inner_mh < self.iter_da]. *)
Definition inner_step (samples verbose : bool) (s : locals) : M G locals :=
  theta_proposal <- proposal (theta s) (dt s) ;;
  lp <- log_posterior_outer (theta s) ;;
  lpp <- log_posterior_outer theta_proposal ;;
  let a := stage1_prob lp lpp in
  u <- draw rand ;;
  s1 <- (if fltb (Fin u) a then second_stage theta_proposal a s else ret s) ;;
  let s2 := if samples then append_inner s1 else s1 in
  _ <- progress_report verbose (inner_mh s2) (iter_da self / 10) ;;
  ret s2.

Definition phase_a (samples verbose : bool) : locals -> M G locals :=
  for_range (iter_mcmc self) (outer_step samples verbose).

Definition phase_b (fuel : nat) (samples verbose : bool) : locals -> M G locals :=
  while fuel (fun s => inner_mh s <? iter_da self)%nat (inner_step samples verbose).

Definition initial (theta0 : list R) : locals :=
  {| theta := of_reals theta0;
     dt := self_dt self;
     acceptance_list := zeros (iter_da self);
     samples_outer := repeat (zeros (nparameters self)) (iter_mcmc self);
     samples_inner := [];
     outer_mh := 0;
     inner_accepted := 0;
     inner_mh := 0 |}.

(** [torch.tensor(samples_inner)] accepts a list of tensors only when
    each holds a single element. *)
Definition tensor_of_rows (rows : list vec) : M G vec :=
  if forallb (fun r => Nat.eqb (length r) 1) rows then ret (concat rows)
  else raise (ValueError "only one element tensors can be converted to Python scalars").

(** From the start of [run_chain] to the end of Phase A. *)
Definition coarse_burn_in (samples verbose : bool) : M G locals :=
  theta0 <- draw (uniform_ (nparameters self)) ;;
  phase_a samples verbose (initial theta0).

(** Phase B on the locals Phase A left, then the closing report and the
    [return]. *)
Definition refinement (fuel : nat) (samples verbose : bool) (sa : locals)
  : M G returned :=
  sb <- phase_b fuel samples verbose sa ;;
  _ <- (if verbose then py_truediv (inner_accepted sb) (inner_mh sb)
        else ret (Fin 0)) ;;
  if samples then
    inner <- tensor_of_rows (samples_inner sb) ;;
    ret (Trajectories inner (samples_outer sb))
  else ret (AcceptanceList (acceptance_list sb)).

Definition run_chain (fuel : nat) (samples verbose : bool) : M G returned :=
  sa <- coarse_burn_in samples verbose ;;
  refinement fuel samples verbose sa.

End Driver.

End MCMCDA.

(* ================================================================== *)
(** ** The subclasses of [nv_mcmc.py]

    Both take the box prior and leave the likelihoods to the surrogate
    chosen at construction, here a parameter. *)

Module NavierStokes.

Definition fleb (x y : fval) : bool := fgeb y x.

(** [log_prior]: [0] when every coordinate lies in [-1, 1], [-inf]
    otherwise. *)
Definition log_prior (th : vec) : fval :=
  if forallb (fun x => fgeb x (Fin (-1)) && fleb x (Fin 1)) th
  then Fin 0 else NInf.

(** [NVMCMC]: both likelihoods it can select ([nn_log_likelihood],
    [dgala_log_likelihood]) detach the output of the surrogate, so the
    value they return has no gradient with respect to [theta]. *)
Definition NVMCMC (nparameters nsamples burnin : nat) (proposal_type : proposal_kind)
           (step_size : fval) (log_likelihood_func : vec -> fval)
  : MetropolisHastings.t :=
  {| MetropolisHastings.nparameters := nparameters;
     MetropolisHastings.nsamples := nsamples;
     MetropolisHastings.burnin := burnin;
     MetropolisHastings.proposal_type := proposal_type;
     MetropolisHastings.self_dt := step_size;
     MetropolisHastings.log_prior := log_prior;
     MetropolisHastings.log_likelihood := log_likelihood_func;
     MetropolisHastings.grad_log_likelihood := fun _ => None |}.

(** [NVMCMCDA] overrides [log_prior], [log_likelihood_outer] and
    [log_likelihood_inner], and adds no [log_likelihood]. *)
Definition NVMCMCDA (nparameters iter_mcmc iter_da : nat) (proposal_type : proposal_kind)
           (step_size : fval) (log_likelihood_outer_func psm_log_likelihood : vec -> fval)
  : MCMCDA.t :=
  {| MCMCDA.nparameters := nparameters;
     MCMCDA.iter_mcmc := iter_mcmc;
     MCMCDA.iter_da := iter_da;
     MCMCDA.proposal_type := proposal_type;
     MCMCDA.self_dt := step_size;
     MCMCDA.log_prior := log_prior;
     MCMCDA.log_likelihood_outer := log_likelihood_outer_func;
     MCMCDA.log_likelihood_inner := psm_log_likelihood;
     MCMCDA.attr_log_likelihood := None |}.

End NavierStokes.

(* ================================================================== *)
(** ** [class MoreauYosidaPrior] *)

Module MoreauYosidaPrior.

(** A tensor of any rank: its shape and its entries in row-major order. *)
Record tensor : Type := Tensor { shape : list nat; data : vec }.

Definition tmap (f : fval -> fval) (x : tensor) : tensor :=
  {| shape := shape x; data := map f (data x) |}.

Definition tsub (x y : tensor) : tensor :=
  {| shape := shape x; data := vadd (data x) (map fneg (data y)) |}.

Definition numel (sh : list nat) : nat := fold_right Nat.mul 1%nat sh.

Record t : Type := { lam : fval; batch_shape : list nat }.

Definition expand (self : t) (new_batch_shape : list nat) : t :=
  {| lam := lam self; batch_shape := new_batch_shape |}.

(** [-(torch.clamp(torch.abs(x) - 1, min=0) ** 2) / (2 * self.lam)] on one
    entry. *)
Definition regularization_term (self : t) (x : fval) : fval :=
  let c := clamp_min 0 (fsub (fabs x) (Fin 1)) in
  fdiv (fneg (fmul c c)) (fmul (Fin 2) (lam self)).

(** [torch.log(2 + torch.sqrt(2 * torch.pi * self.lam))] *)
Definition log_normalizer (self : t) : fval :=
  flog (fadd (Fin 2) (fsqrt (fmul (Fin (2 * PI)) (lam self)))).

Definition log_prob (self : t) (x : tensor) : tensor :=
  tmap (fun r => fsub r (log_normalizer self)) (tmap (regularization_term self) x).

(** [Normal(loc, scale).log_prob(x)] of torch.distributions, on one entry. *)
Definition normal_log_prob (loc scale : R) (x : fval) : fval :=
  let var := scale * scale in
  fsub (fsub (fdiv (fneg (fmul (fsub x (Fin loc)) (fsub x (Fin loc)))) (Fin (2 * var)))
             (Fin (ln scale)))
       (Fin (ln (sqrt (2 * PI)))).

(** Weights [torch.multinomial] accepts: finite, non-negative, of positive
    sum. *)
Fixpoint nonneg_reals (w : vec) : option (list R) :=
  match w with
  | [] => Some []
  | Fin r :: w' =>
      if Rle_dec 0 r then option_map (cons r) (nonneg_reals w') else None
  | _ :: _ => None
  end.

Definition valid_probs (w : vec) : option (list R) :=
  if fltb (Fin 0) (fsum w) then nonneg_reals w else None.

(** [m] consecutive rows of [k] entries. *)
Fixpoint chunks {A : Type} (k m : nat) (l : list A) : list (list A) :=
  match m with
  | O => []
  | S m' => firstn k l :: chunks k m' (skipn k l)
  end.

Section Sampler.
Context {G : Type} `{RandomSource G}.
Variable self : t.

(** [torch.multinomial] draws [n] indices for every row of weights. *)
Fixpoint multinomial_rows (rows : list vec) (n : nat) : M G (list (list nat)) :=
  match rows with
  | [] => ret []
  | r :: rs =>
      match valid_probs r with
      | None => raise (RuntimeError "invalid multinomial distribution")
      | Some p =>
          idx <- draw (multinomial p n) ;;
          rest <- multinomial_rows rs n ;;
          ret (idx :: rest)
      end
  end.

(** [proposals[idx]]: indexing along the first dimension. *)
Fixpoint index_rows (rows : list vec) (idx : list nat) : M G (list vec) :=
  match idx with
  | [] => ret []
  | i :: idx' =>
      match nth_error rows i with
      | None => raise IndexError
      | Some r =>
          rest <- index_rows rows idx' ;;
          ret (r :: rest)
      end
  end.

(** The resampling that follows the normalisation of the weights. *)
Definition resample (total_shape : list nat) (weights proposals : vec) : M G tensor :=
  match total_shape with
  | [] => raise IndexError
  | [n] =>
      idx <- multinomial_rows [weights] n ;;
      picked <- index_rows (chunks 1 n proposals) (concat idx) ;;
      ret {| shape := [n]; data := concat picked |}
  | [m; k] =>
      idx <- multinomial_rows (chunks k m weights) m ;;
      picked <- index_rows (chunks k m proposals) (concat idx) ;;
      ret {| shape := [m; m; k]; data := concat picked |}
  | _ => raise (RuntimeError "prob_dist must be 1 or 2 dim")
  end.

(** The importance weights of the proposals, after the clamp. *)
Definition importance_weights (proposals : tensor) : tensor :=
  let log_prob_samples := log_prob self proposals in
  let log_prob_proposal := tmap (normal_log_prob 0 2) proposals in
  tmap (clamp_min 0) (tmap fexp (tsub log_prob_samples log_prob_proposal)).

(** [proposal_dist.sample(total_shape)] for [Normal(0, 2)]. *)
Definition draw_proposals (total_shape : list nat) : M G tensor :=
  z <- draw (randn (numel total_shape)) ;;
  ret {| shape := total_shape; data := map (fun zi => Fin (0 + 2 * zi)) z |}.

Definition sample (sample_shape : list nat) : M G tensor :=
  let total_shape := batch_shape self ++ sample_shape in
  proposals <- draw_proposals total_shape ;;
  let weights := importance_weights proposals in
  let weights_sum := fsum (data weights) in
  if fltb (Fin 0) weights_sum then
    let weights := tmap (fun w => fdiv w weights_sum) weights in
    resample total_shape (data weights) (data proposals)
  else ret proposals.

End Sampler.

(** The value the specification describes for [log_prob]: the sum over the
    coordinates of the penalty less the normalising constant. *)
Definition penalty (lambda x : R) : R :=
  - (Rmax (Rabs x - 1) 0) ^ 2 / (2 * lambda).

Definition log_constant (lambda : R) : R := ln (2 + sqrt (2 * PI * lambda)).

Definition log_prob_spec (lambda : R) (x : list R) : R :=
  fold_right Rplus 0 (map (fun xi => penalty lambda xi - log_constant lambda) x).

End MoreauYosidaPrior.

(* ================================================================== *)
(** ** The two stage probabilities in floating point

    Lines 220 and 229 of [MCMCDA.run_chain] once more, on the numbers of an
    IEEE binary format and with the rounding of every operation.  The
    exponential is a library function: the formulas take the value [e] it
    returned for the difference of the two log-posteriors.  When the two
    models are the same function, both stages compute that difference from
    the same numbers, so both get the same [e]. *)

Module Rounded.
Import SpecFloat.

(** A binary format: the bits of the mantissa and the exponent of the
    infinities. *)
Record format : Type := { prec : Z; emax : Z }.

(** [torch.float32], the default of torch, and [torch.float64]. *)
Definition binary32 : format := {| prec := 24; emax := 128 |}.
Definition binary64 : format := {| prec := 53; emax := 1024 |}.

Section Format.
Variable fmt : format.

Definition one : spec_float := SFone (prec fmt) (emax fmt).

Definition zero : spec_float := S754_zero false.

(** [torch.clamp(x, max=1.0)]: NaN is propagated. *)
Definition clamp_max_one (x : spec_float) : spec_float :=
  match x with
  | S754_nan => S754_nan
  | _ => if SFltb one x then one else x
  end.

(** [a = torch.clamp(torch.exp(...), max=1.0)] *)
Definition stage1_prob (e : spec_float) : spec_float := clamp_max_one e.

(** [a = torch.clamp(torch.exp(...) * (1 / a), max=1.0)] *)
Definition stage2_prob (e a : spec_float) : spec_float :=
  clamp_max_one
    (SFmul (prec fmt) (emax fmt) e (SFdiv (prec fmt) (emax fmt) one a)).

End Format.

(** The three numbers of [binary32] nearest to [exp (-1.75)], and the
    three of [binary64] nearest to [exp (-4.5)]: what [torch.exp] can
    return for a log-posterior that drops by [1.75], or by [4.5]. *)
Definition near_exp_32 : list spec_float :=
  [S754_finite false 11661771 (-26);
   S754_finite false 11661772 (-26);
   S754_finite false 11661773 (-26)].

Definition near_exp_64 : list spec_float :=
  [S754_finite false 6403900501771286 (-59);
   S754_finite false 6403900501771287 (-59);
   S754_finite false 6403900501771288 (-59)].

(** The number just below one. *)
Definition below_one_32 : spec_float := S754_finite false 16777215 (-24).
Definition below_one_64 : spec_float := S754_finite false 9007199254740991 (-53).

End Rounded.

(* ================================================================== *)
(** ** A deterministic generator for closed examples *)

Module Scripted.

(** The state is a draw counter: [torch.rand] alternates between [0] and
    [1/2], every normal or uniform draw is [0], every integer draw is [7]
    (reduced below the bound) and every resampled index is [0]. *)
#[export] Instance source : RandomSource nat := {
  rand n := (if Nat.even n then 0 else / 2, S n);
  randn k n := (repeat 0 k, n);
  uniform_ k n := (repeat 0 k, n);
  randint high n := (Nat.modulo 7 high, S n);
  multinomial w k n := (repeat O k, n);
  manual_seed sd := sd
}.

End Scripted.
Import Scripted.

(* ================================================================== *)
(** ** Observations on traces *)

Definition is_outer (ev : event) : bool :=
  match ev with EvOuter _ => true | _ => false end.

Definition is_inner (ev : event) : bool :=
  match ev with EvInner _ => true | _ => false end.

Definition is_recip (ev : event) : bool :=
  match ev with EvRecip _ => true | _ => false end.

Definition count (p : event -> bool) (t : list event) : nat := length (filter p t).

(** Evaluations of the coarse and of the fine likelihood, and trials that
    entered the second stage. *)
Definition coarse_evaluations : list event -> nat := count is_outer.
Definition fine_evaluations : list event -> nat := count is_inner.
Definition second_stages : list event -> nat := count is_recip.

(** An event is sound for step size [d] and reciprocal condition [ok] when
    a proposal was given [d] and a reciprocal was taken of a value
    satisfying [ok]. *)
Definition sound (d : fval) (ok : fval -> Prop) (ev : event) : Prop :=
  match ev with
  | EvProposal _ d' => d' = d
  | EvRecip a => ok a
  | _ => True
  end.

(** A first-stage probability the reciprocal of which is finite. *)
Definition positive_prob (a : fval) : Prop := exists r, a = Fin r /\ 0 < r <= 1.

(* ================================================================== *)
(** ** Statements about executions *)

Section Statements.
Context {G : Type}.

(** How a computation ended, without the world. *)
Inductive exit (A : Type) : Type :=
| Returned (a : A)
| Raised (e : exn)
| Exhausted.

Arguments Raised {A} e.
Arguments Exhausted {A}.

Definition exit_of {A : Type} (o : outcome G A) : exit A :=
  match o with
  | Ok a _ => Returned a
  | Raise e _ => Raised e
  | OutOfFuel _ => Exhausted
  end.

(** [triple m Q]: from any world, [m] appends some events [tb] to the
    trace and ends in a way [x] with [Q tb x]. *)
Definition triple {A : Type} (m : M G A) (Q : list event -> exit A -> Prop) : Prop :=
  forall w, exists tb,
    trace (final_world (m w)) = trace w ++ tb /\ Q tb (exit_of (m w)).

(** The events appended by a run that started in [w] and ended in [o]. *)
Definition appended {A : Type} (w : world G) (o : outcome G A) (tb : list event) : Prop :=
  trace (final_world o) = trace w ++ tb.

End Statements.

Arguments Raised {A} e.
Arguments Exhausted {A}.

(** A stretch of trace with [no] coarse evaluations, [ni] fine ones and [nr]
    second stages, all its events sound. *)
Definition stretch (d : fval) (ok : fval -> Prop) (no ni nr : nat)
           (tb : list event) : Prop :=
  coarse_evaluations tb = no /\ fine_evaluations tb = ni /\
  second_stages tb = nr /\ Forall (sound d ok) tb.

(** The progress report does not divide by zero. *)
Definition report_ok (verbose : bool) (period : nat) : Prop :=
  verbose = false \/ period <> O.

(** [MCMCDA.proposal] has what it needs: a step size [torch.normal]
    accepts, or a [log_likelihood] to differentiate. *)
Definition da_proposal_ok (self : MCMCDA.t) (d : fval) : Prop :=
  match MCMCDA.proposal_type self with
  | random_walk => fgeb d (Fin 0) = true
  | langevin => MCMCDA.attr_log_likelihood self <> None
  end.

(** The first-stage test lets a trial through only on a probability that
    satisfies [ok]. *)
Definition gate {G} `{RandomSource G} (ok : fval -> Prop) : Prop :=
  forall g lp lpp,
    fltb (Fin (fst (rand g))) (MCMCDA.stage1_prob lp lpp) = true ->
    ok (MCMCDA.stage1_prob lp lpp).

(** The coarse posterior never turns a proposal down. *)
Definition always_passes {G} `{RandomSource G} (self : MCMCDA.t) : Prop :=
  forall g th th',
    fltb (Fin (fst (rand g)))
         (MCMCDA.stage1_prob (MCMCDA.outer_posterior self th)
                             (MCMCDA.outer_posterior self th')) = true.

(** The single-stage acceptance probability is [1] everywhere. *)
Definition flat_posterior (self : MetropolisHastings.t) : Prop :=
  forall th th',
    clamp_max 1 (fexp (fsub (MetropolisHastings.posterior self th')
                            (MetropolisHastings.posterior self th))) = Fin 1.

(* ================================================================== *)
(** ** Concrete configurations *)

Module Examples.

Definition constant_zero (_ : vec) : fval := Fin 0.

(** A delayed-acceptance sampler with an improper flat prior and the same
    constant likelihood at both levels. *)
Definition flat_da (n_mcmc n_da : nat) : MCMCDA.t :=
  {| MCMCDA.nparameters := 1;
     MCMCDA.iter_mcmc := n_mcmc;
     MCMCDA.iter_da := n_da;
     MCMCDA.proposal_type := random_walk;
     MCMCDA.self_dt := Fin (/ 10);
     MCMCDA.log_prior := constant_zero;
     MCMCDA.log_likelihood_outer := constant_zero;
     MCMCDA.log_likelihood_inner := constant_zero;
     MCMCDA.attr_log_likelihood := None |}.

(** A delayed-acceptance sampler whose two levels share one likelihood
    that is not constant: minus the sum of the coordinates. *)
Definition slope (th : vec) : fval := fneg (fsum th).

Definition sloped_da (n_mcmc n_da : nat) : MCMCDA.t :=
  {| MCMCDA.nparameters := 1;
     MCMCDA.iter_mcmc := n_mcmc;
     MCMCDA.iter_da := n_da;
     MCMCDA.proposal_type := random_walk;
     MCMCDA.self_dt := Fin (/ 10);
     MCMCDA.log_prior := constant_zero;
     MCMCDA.log_likelihood_outer := slope;
     MCMCDA.log_likelihood_inner := slope;
     MCMCDA.attr_log_likelihood := None |}.

(** A single-stage sampler on the same flat posterior. *)
Definition flat_mh (n_samples n_burnin : nat) : MetropolisHastings.t :=
  {| MetropolisHastings.nparameters := 1;
     MetropolisHastings.nsamples := n_samples;
     MetropolisHastings.burnin := n_burnin;
     MetropolisHastings.proposal_type := random_walk;
     MetropolisHastings.self_dt := Fin (/ 10);
     MetropolisHastings.log_prior := constant_zero;
     MetropolisHastings.log_likelihood := constant_zero;
     MetropolisHastings.grad_log_likelihood := fun th => Some (zeros_like th) |}.

(** The scripted generator before any draw, with an empty trace. *)
Definition w0 : world nat := {| gen := O; trace := [] |}.

(** A prior whose smoothing scale is infinite: every importance weight is
    zero. *)
Definition degenerate_prior : MoreauYosidaPrior.t :=
  {| MoreauYosidaPrior.lam := PInf; MoreauYosidaPrior.batch_shape := [] |}.

End Examples.

(* ================================================================== *)
(** ** [utilities.py]: batch statistics *)

Module Utilities.

(** [np.mean] of a one-dimensional array: the sum over the length, NaN on
    the empty array. *)
Definition np_mean (l : vec) : fval := fdiv (fsum l) (Fin (INR (length l))).

(** [np.std]: the root of the mean squared distance to the mean. *)
Definition np_std (l : vec) : fval :=
  let m := np_mean l in
  fsqrt (np_mean (map (fun v => let d := fabs (fsub v m) in fmul d d) l)).

Section StatAr.
Context {G : Type}.

(** [a // b] on Python integers. *)
Definition py_floordiv (a b : nat) : M G nat :=
  if Nat.eqb b 0 then raise ZeroDivisionError else ret (a / b)%nat.

(** [stat_ar(x, every)] on a one-dimensional array: the means of the
    consecutive batches of [every] entries, their mean and their standard
    deviation. *)
Definition stat_ar (x : vec) (every : nat) : M G (fval * fval * vec) :=
  split <- py_floordiv (length x) every ;;
  let means_every :=
    map np_mean (MoreauYosidaPrior.chunks every split (firstn (split * every) x)) in
  ret (np_mean means_every, np_std means_every, means_every).

End StatAr.

End Utilities.

(* ================================================================== *)
(** ** Further statements about the drivers *)

(** The generator of the parent process after [k] of the seed draws of
    [run_chains]. *)
Fixpoint generator_after {G} `{RandomSource G} (k : nat) (g : G) : G :=
  match k with
  | O => g
  | S k' => generator_after k' (snd (randint MetropolisHastings.seed_bound g))
  end.

(** The seed [run_chains] draws at position [i]: what [torch.randint]
    returns on the generator left by the [i] draws before it. *)
Definition drawn_seed {G} `{RandomSource G} (g : G) (i : nat) : nat :=
  fst (randint MetropolisHastings.seed_bound (generator_after i g)).

(** Every coordinate is a real number of [-1, 1]. *)
Definition in_box (th : vec) : Prop :=
  Forall (fun x => exists r, x = Fin r /\ -1 <= r <= 1) th.

(** An outcome bit. *)
Definition is_bit (x : fval) : Prop := x = Fin 0 \/ x = Fin 1.

(** The acceptance probability of the single-stage driver for a move from
    [th] to [th']. *)
Definition mh_acceptance (self : MetropolisHastings.t) (th th' : vec) : fval :=
  clamp_max 1 (fexp (fsub (MetropolisHastings.posterior self th')
                          (MetropolisHastings.posterior self th))).

(** What an iteration of the single-stage loop that returned has done: for
    some proposal and some state of the generator, the move was decided by
    one draw, the slot [i] of the buffer was written and the step size
    adapted. *)
Definition mh_moved {G} `{RandomSource G} (self : MetropolisHastings.t) (i : nat)
           (s s' : MetropolisHastings.locals) : Prop :=
  exists th' g,
    let a := mh_acceptance self (MetropolisHastings.theta s) th' in
    let accept := fltb (Fin (fst (rand g))) a in
    MetropolisHastings.theta s' = (if accept then th' else MetropolisHastings.theta s) /\
    MetropolisHastings.samples s'
    = set_row i (MetropolisHastings.theta s') (MetropolisHastings.samples s) /\
    MetropolisHastings.accepted_proposals s'
    = (if accept then S (MetropolisHastings.accepted_proposals s)
       else MetropolisHastings.accepted_proposals s) /\
    MetropolisHastings.dt s' = adapt (MetropolisHastings.dt s) a i.

(** [MetropolisHastings.proposal] cannot be made: the random walk was given
    a step size [torch.normal] rejects, or the langevin step a likelihood
    without gradient. *)
Definition mh_proposal_fails (self : MetropolisHastings.t) (d : fval) : Prop :=
  (MetropolisHastings.proposal_type self = random_walk /\ fgeb d (Fin 0) = false) \/
  (MetropolisHastings.proposal_type self = langevin /\
   exists th, MetropolisHastings.grad_log_likelihood self th = None).

(** Some draw of [torch.rand] lets the move from [th] to [th'] through the
    coarse stage. *)
Definition da_passes {G} `{RandomSource G} (self : MCMCDA.t) (th th' : vec) : Prop :=
  exists g,
    fltb (Fin (fst (rand g)))
         (MCMCDA.stage1_prob (MCMCDA.outer_posterior self th)
                             (MCMCDA.outer_posterior self th')) = true.

(** The fine model was evaluated in [tb] only at [th] or at a point the
    coarse stage let through from [th]. *)
Definition fine_only_near {G} `{RandomSource G} (self : MCMCDA.t) (th : vec)
           (tb : list event) : Prop :=
  forall t, In (EvInner t) tb -> t = th \/ da_passes self th t.

(** What a Phase B iteration that returned has done to the locals: a coarse
    rejection, a fine rejection, or an acceptance recorded at the position
    of the trial. *)
Definition da_trial {G} `{RandomSource G} (self : MCMCDA.t) (samples : bool)
           (s s' : MCMCDA.locals) : Prop :=
  MCMCDA.dt s' = MCMCDA.dt s /\
  MCMCDA.samples_outer s' = MCMCDA.samples_outer s /\
  MCMCDA.outer_mh s' = MCMCDA.outer_mh s /\
  MCMCDA.samples_inner s'
  = MCMCDA.samples_inner s ++ (if samples then [MCMCDA.theta s'] else []) /\
  ((MCMCDA.theta s' = MCMCDA.theta s /\
    MCMCDA.inner_mh s' = MCMCDA.inner_mh s /\
    MCMCDA.inner_accepted s' = MCMCDA.inner_accepted s /\
    MCMCDA.acceptance_list s' = MCMCDA.acceptance_list s) \/
   (MCMCDA.theta s' = MCMCDA.theta s /\
    MCMCDA.inner_mh s' = S (MCMCDA.inner_mh s) /\
    MCMCDA.inner_accepted s' = MCMCDA.inner_accepted s /\
    MCMCDA.acceptance_list s' = MCMCDA.acceptance_list s) \/
   (da_passes self (MCMCDA.theta s) (MCMCDA.theta s') /\
    MCMCDA.inner_mh s' = S (MCMCDA.inner_mh s) /\
    MCMCDA.inner_accepted s' = S (MCMCDA.inner_accepted s) /\
    MCMCDA.acceptance_list s'
    = MCMCDA.incr_at (MCMCDA.inner_mh s) (MCMCDA.acceptance_list s))).

(** What a Phase A iteration that returned has done: nothing to the
    variables of Phase B, and a move only to a point the coarse stage let
    through. *)
Definition da_burn {G} `{RandomSource G} (self : MCMCDA.t)
           (s s' : MCMCDA.locals) : Prop :=
  MCMCDA.inner_mh s' = MCMCDA.inner_mh s /\
  MCMCDA.inner_accepted s' = MCMCDA.inner_accepted s /\
  MCMCDA.acceptance_list s' = MCMCDA.acceptance_list s /\
  MCMCDA.samples_inner s' = MCMCDA.samples_inner s /\
  (MCMCDA.theta s' = MCMCDA.theta s \/
   da_passes self (MCMCDA.theta s) (MCMCDA.theta s')).

(** The locals as [run_chain] sets them before Phase B, whatever Phase A
    did to the point and the step size. *)
Definition fresh_for_phase_b (self : MCMCDA.t) (s : MCMCDA.locals) : Prop :=
  MCMCDA.inner_mh s = O /\ MCMCDA.inner_accepted s = O /\
  MCMCDA.acceptance_list s = zeros (MCMCDA.iter_da self) /\
  MCMCDA.samples_inner s = [].

(** A strictly positive real number: a smoothing scale the prior is meant
    for, or an importance weight that can be drawn. *)
Definition positive_real (x : fval) : Prop := exists q, x = Fin q /\ 0 < q.

(** An importance weight that cannot be drawn. *)
Definition dead_weight (x : fval) : Prop := x = NaN \/ x = Fin 0.

(** The importance weight [sample] gives one proposal. *)
Definition weight_of (self : MoreauYosidaPrior.t) (x : R) : fval :=
  clamp_min 0
    (fexp (fadd (fsub (MoreauYosidaPrior.regularization_term self (Fin x))
                      (MoreauYosidaPrior.log_normalizer self))
                (fneg (MoreauYosidaPrior.normal_log_prob 0 2 (Fin x))))).

Module MoreExamples.

(** The single-stage sampler of [nv_mcmc.py] on a constant surrogate. *)
Definition box_mh (n_samples n_burnin : nat) : MetropolisHastings.t :=
  NavierStokes.NVMCMC 1 n_samples n_burnin random_walk (Fin (/ 10))
                      Examples.constant_zero.

(** The delayed-acceptance sampler of [nv_mcmc.py] on constant models. *)
Definition box_da (n_mcmc n_da : nat) : MCMCDA.t :=
  NavierStokes.NVMCMCDA 1 n_mcmc n_da random_walk (Fin (/ 10))
                        Examples.constant_zero Examples.constant_zero.

End MoreExamples.

(* ================================================================== *)
(** ** A program logic for the execution monad *)

Section Logic.
Context {G : Type}.

Lemma triple_ret {A} (a : A) (Q : list event -> exit A -> Prop) :
  Q [] (Returned a) -> triple (G:=G) (ret a) Q.
Proof.
  intros HQ w. exists []. simpl. rewrite app_nil_r. auto.
Qed.

Lemma triple_raise {A} (e : exn) (Q : list event -> exit A -> Prop) :
  Q [] (Raised e) -> triple (G:=G) (raise e) Q.
Proof.
  intros HQ w. exists []. simpl. rewrite app_nil_r. auto.
Qed.

Lemma triple_emit (ev : event) (Q : list event -> exit unit -> Prop) :
  Q [ev] (Returned tt) -> triple (G:=G) (emit ev) Q.
Proof.
  intros HQ w. exists [ev]. simpl. auto.
Qed.

Lemma triple_draw {A} (f : G -> A * G) (Q : list event -> exit A -> Prop) :
  (forall g, Q [] (Returned (fst (f g)))) -> triple (draw f) Q.
Proof.
  intros HQ w. exists []. unfold draw. specialize (HQ (gen w)).
  destruct (f (gen w)) as [a g']. simpl in *. rewrite app_nil_r. auto.
Qed.

Lemma triple_weaken {A} (m : M G A) (Q Q' : list event -> exit A -> Prop) :
  triple m Q -> (forall tb x, Q tb x -> Q' tb x) -> triple m Q'.
Proof.
  intros Hm Himp w. destruct (Hm w) as (tb & Ht & HQ). exists tb. auto.
Qed.

Lemma triple_bind {A B} (m : M G A) (k : A -> M G B)
      (Q1 : list event -> exit A -> Prop) (Q : list event -> exit B -> Prop) :
  triple m Q1 ->
  (forall tb1 a, Q1 tb1 (Returned a) ->
                 triple (k a) (fun tb2 x => Q (tb1 ++ tb2) x)) ->
  (forall tb1 e, Q1 tb1 (Raised e) -> Q tb1 (Raised e)) ->
  (forall tb1, Q1 tb1 Exhausted -> Q tb1 Exhausted) ->
  triple (bind m k) Q.
Proof.
  intros Hm Hk He Hx w. unfold bind.
  destruct (Hm w) as (tb1 & Ht1 & HQ1).
  destruct (m w) as [a w1 | e w1 | w1]; simpl in *.
  - destruct (Hk tb1 a HQ1 w1) as (tb2 & Ht2 & HQ2).
    exists (tb1 ++ tb2). rewrite Ht2, Ht1, app_assoc. auto.
  - exists tb1. auto.
  - exists tb1. auto.
Qed.

(** [for] loops: [J k tb s] relates the number of completed iterations,
    the events they appended and the loop-carried state. *)
Lemma triple_for_from {S} (body : nat -> S -> M G S)
      (J : nat -> list event -> S -> Prop) (E : list event -> exit S -> Prop) :
  (forall k tb s, J k tb s ->
     triple (body k s)
            (fun tb2 x => match x with
                          | Returned s' => J (Datatypes.S k) (tb ++ tb2) s'
                          | _ => E (tb ++ tb2) x
                          end)) ->
  forall n i tb s, J i tb s ->
    triple (for_from i n body s)
           (fun tb2 x => match x with
                         | Returned s' => J (i + n)%nat (tb ++ tb2) s'
                         | _ => E (tb ++ tb2) x
                         end).
Proof.
  intros Hbody n. induction n as [|n IH]; intros i tb s HJ; simpl.
  - apply triple_ret. rewrite app_nil_r, Nat.add_0_r. exact HJ.
  - eapply triple_bind.
    + apply (Hbody i tb s HJ).
    + intros tb1 s1 HJ1. simpl in HJ1.
      eapply triple_weaken; [apply (IH (Datatypes.S i) (tb ++ tb1) s1 HJ1)|].
      intros tb2 x. cbv beta. rewrite <- app_assoc, Nat.add_succ_r. simpl. auto.
    + intros tb1 e HE. exact HE.
    + intros tb1 HE. exact HE.
Qed.

(** [while] loops: on exhaustion every one of the [fuel] iterations has
    run and the condition still holds. *)
Lemma triple_while {S} (cond : S -> bool) (body : S -> M G S)
      (J : nat -> list event -> S -> Prop) (E : list event -> exn -> Prop) :
  (forall k tb s, J k tb s -> cond s = true ->
     triple (body s)
            (fun tb2 x => match x with
                          | Returned s' => J (Datatypes.S k) (tb ++ tb2) s'
                          | Raised e => E (tb ++ tb2) e
                          | Exhausted => False
                          end)) ->
  forall fuel k tb s, J k tb s ->
    triple (while fuel cond body s)
           (fun tb2 x => match x with
                         | Returned s' =>
                             exists k', (k <= k' <= k + fuel)%nat /\
                                        J k' (tb ++ tb2) s' /\ cond s' = false
                         | Raised e => E (tb ++ tb2) e
                         | Exhausted =>
                             exists s', J (k + fuel)%nat (tb ++ tb2) s' /\
                                        cond s' = true
                         end).
Proof.
  intros Hbody fuel. induction fuel as [|fuel IH]; intros k tb s HJ.
  - simpl. destruct (cond s) eqn:Hc.
    + intros w. exists []. simpl. rewrite !app_nil_r, Nat.add_0_r. eauto.
    + apply triple_ret. exists k. rewrite app_nil_r. repeat split; auto; lia.
  - simpl. destruct (cond s) eqn:Hc.
    + eapply triple_bind.
      * apply (Hbody k tb s HJ Hc).
      * intros tb1 s1 HJ1. simpl in HJ1.
        eapply triple_weaken; [apply (IH (Datatypes.S k) (tb ++ tb1) s1 HJ1)|].
        intros tb2 x. cbv beta. rewrite <- app_assoc.
        destruct x as [s' | e |]; simpl.
        -- intros (k' & Hk & HJ' & Hc'). exists k'. repeat split; auto; lia.
        -- auto.
        -- rewrite Nat.add_succ_r. auto.
      * intros tb1 e HE. exact HE.
      * intros tb1 [].
    + apply triple_ret. exists k. rewrite app_nil_r. repeat split; auto; lia.
Qed.

End Logic.


(* ================================================================== *)
(** ** Facts about extended values *)

Lemma sgn_pos (r : R) : 0 < r -> sgn r = Pos.
Proof.
  intros Hr. unfold sgn. destruct (Rlt_dec 0 r); [reflexivity | contradiction].
Qed.

Lemma sgn_neg (r : R) : r < 0 -> sgn r = Neg.
Proof.
  intros Hr. unfold sgn.
  destruct (Rlt_dec 0 r); [lra|]. destruct (Rlt_dec r 0); [reflexivity | contradiction].
Qed.

Lemma sgn_zero : sgn 0 = Zero.
Proof.
  unfold sgn. destruct (Rlt_dec 0 0); [lra | reflexivity].
Qed.

Lemma fltb_Fin_true (a b : R) : a < b -> fltb (Fin a) (Fin b) = true.
Proof.
  intros Hab. simpl. destruct (Rlt_dec a b); [reflexivity | contradiction].
Qed.

Lemma fltb_Fin_false (a b : R) : b <= a -> fltb (Fin a) (Fin b) = false.
Proof.
  intros Hab. simpl. destruct (Rlt_dec a b); [lra | reflexivity].
Qed.

Lemma fltb_Fin_inv (a b : R) : fltb (Fin a) (Fin b) = true -> a < b.
Proof.
  simpl. destruct (Rlt_dec a b); [auto | discriminate].
Qed.

Lemma fgeb_Fin_true (a b : R) : b <= a -> fgeb (Fin a) (Fin b) = true.
Proof.
  intros Hab. unfold fgeb. rewrite fltb_Fin_false by assumption. reflexivity.
Qed.

Lemma fdiv_Fin (a b : R) : 0 < b -> fdiv (Fin a) (Fin b) = Fin (a / b).
Proof.
  intros Hb. simpl. rewrite (sgn_pos Hb). reflexivity.
Qed.

Lemma exp_diff_self (x : R) : exp (x + - x) = 1.
Proof.
  replace (x + - x) with 0 by lra. apply exp_0.
Qed.

(** A first-stage probability is NaN or a real in [0, 1]. *)
Lemma stage1_prob_range (lp lpp : fval) :
  MCMCDA.stage1_prob lp lpp = NaN \/
  exists r, MCMCDA.stage1_prob lp lpp = Fin r /\ 0 <= r <= 1.
Proof.
  unfold MCMCDA.stage1_prob.
  destruct (fsub lpp lp) as [d | | |]; simpl.
  - right. exists (Rmin (exp d) 1). split; [reflexivity|].
    pose proof (exp_pos d). unfold Rmin. destruct (Rle_dec (exp d) 1); lra.
  - right. exists 1. split; [reflexivity | lra].
  - right. exists (Rmin 0 1). split; [reflexivity|].
    unfold Rmin. destruct (Rle_dec 0 1); lra.
  - left. reflexivity.
Qed.

(** A draw of [torch.rand] that is below the first-stage probability shows
    that probability to be positive. *)
Lemma gate_positive {G} `{RandomSourceLaws G} : gate positive_prob.
Proof.
  intros g lp lpp Hlt.
  destruct (stage1_prob_range lp lpp) as [Hnan | (r & Hr & Hrange)].
  - rewrite Hnan in Hlt. discriminate.
  - rewrite Hr in *. apply fltb_Fin_inv in Hlt.
    pose proof (rand_range g). exists r. split; [reflexivity | lra].
Qed.

Lemma gate_trivial {G} `{RandomSource G} : gate (fun _ => True).
Proof.
  intros g lp lpp _. exact I.
Qed.

(** The controller on real arguments. *)
Lemma adapt_Fin (step a : R) (i : nat) :
  adapt (Fin step) (Fin a) i = Fin (step + step * (a - 0.234) / (INR i + 1)).
Proof.
  unfold adapt, fsub. simpl fneg. simpl fadd at 2. simpl fmul.
  assert (Hpos : 0 < INR (i + 1)) by (apply lt_0_INR; lia).
  rewrite (fdiv_Fin _ Hpos). simpl. f_equal.
  rewrite plus_INR. simpl. unfold Rminus. reflexivity.
Qed.

Lemma adapt_step_positive (step a : R) (i : nat) :
  0 < step -> 0 <= a <= 1 -> 0 < step + step * (a - 0.234) / (INR i + 1).
Proof.
  intros Hstep Ha.
  assert (Hn : 1 <= INR i + 1) by (pose proof (pos_INR i); lra).
  assert (Hq : - 0.234 <= (a - 0.234) / (INR i + 1)).
  { apply Rle_trans with ((- 0.234) / (INR i + 1)).
    - unfold Rdiv. rewrite <- (Rmult_1_r (- 0.234)) at 1.
      apply Rmult_le_compat_neg_l; [lra|].
      rewrite <- Rinv_1. apply Rinv_le_contravar; lra.
    - unfold Rdiv. apply Rmult_le_compat_r; [|lra].
      left. apply Rinv_0_lt_compat. lra. }
  unfold Rdiv in *. rewrite Rmult_assoc.
  replace (step + step * ((a - 0.234) * / (INR i + 1)))
    with (step * (1 + (a - 0.234) * / (INR i + 1))) by ring.
  apply Rmult_lt_0_compat; lra.
Qed.

(* ================================================================== *)
(** ** Derived rules *)

Section DerivedRules.
Context {G : Type} `{RandomSource G}.

Lemma triple_emit_bind {B} (ev : event) (k : unit -> M G B)
      (Q : list event -> exit B -> Prop) :
  triple (k tt) (fun tb2 x => Q (ev :: tb2) x) ->
  triple (bind (emit ev) k) Q.
Proof.
  intros Hk.
  apply triple_bind with (Q1 := fun tb x => tb = [ev] /\ x = Returned tt).
  - apply triple_emit. auto.
  - intros tb1 [] [-> _]. exact Hk.
  - intros tb1 e [_ Hx]. discriminate.
  - intros tb1 [_ Hx]. discriminate.
Qed.

Lemma triple_draw_bind {A B} (f : G -> A * G) (k : A -> M G B)
      (Q : list event -> exit B -> Prop) :
  (forall g, triple (k (fst (f g))) Q) ->
  triple (bind (draw f) k) Q.
Proof.
  intros Hk.
  apply triple_bind
    with (Q1 := fun tb x => tb = [] /\ exists g, x = Returned (fst (f g))).
  - apply triple_draw. eauto.
  - intros tb1 a [-> (g & Hx)]. injection Hx as ->. apply Hk.
  - intros tb1 e [_ (g & Hx)]. discriminate.
  - intros tb1 [_ (g & Hx)]. discriminate.
Qed.

Lemma triple_ret_bind {A B} (a : A) (k : A -> M G B)
      (Q : list event -> exit B -> Prop) :
  triple (k a) Q -> triple (bind (ret a) k) Q.
Proof.
  intros Hk w. unfold bind, ret. apply Hk.
Qed.

Lemma triple_bind_assoc {A B C} (m : M G A) (k : A -> M G B) (k' : B -> M G C)
      (Q : list event -> exit C -> Prop) :
  triple (bind m (fun a => bind (k a) k')) Q ->
  triple (bind (bind m k) k') Q.
Proof.
  intros Hm w. specialize (Hm w). unfold bind in *.
  destruct (m w); auto.
Qed.

(** [torch.normal] emits nothing and raises only on a step size it
    rejects. *)
Lemma torch_normal_spec (mean : vec) (std : fval) :
  triple (torch_normal mean std)
         (fun tb x => tb = [] /\
                      match x with
                      | Returned _ => True
                      | Raised _ => fgeb std (Fin 0) = false
                      | Exhausted => False
                      end).
Proof.
  unfold torch_normal. destruct (fgeb std (Fin 0)) eqn:Hstd.
  - apply triple_draw_bind. intros g. apply triple_ret. auto.
  - apply triple_raise. auto.
Qed.

Lemma progress_report_spec (verbose : bool) (i period : nat) :
  triple (G:=G) (progress_report verbose i period)
         (fun tb x => tb = [] /\
                      match x with
                      | Returned _ => report_ok verbose period
                      | Raised e => e = ZeroDivisionError /\ ~ report_ok verbose period
                      | Exhausted => False
                      end).
Proof.
  unfold progress_report, py_mod, report_ok. destruct verbose.
  - destruct (Nat.eqb period 0) eqn:Hp.
    + apply Nat.eqb_eq in Hp. intros w. exists []. simpl.
      rewrite app_nil_r. repeat split. intros [Hv | Hne]; [discriminate | auto].
    + apply Nat.eqb_neq in Hp. apply triple_ret_bind. apply triple_ret. auto.
  - apply triple_ret. auto.
Qed.

End DerivedRules.

(* ================================================================== *)
(** ** Counting events *)

Lemma count_app (p : event -> bool) (t1 t2 : list event) :
  count p (t1 ++ t2) = (count p t1 + count p t2)%nat.
Proof.
  unfold count. rewrite filter_app, length_app. reflexivity.
Qed.

Lemma stretch_nil (d : fval) (ok : fval -> Prop) : stretch d ok 0 0 0 [].
Proof.
  repeat split. constructor.
Qed.

Lemma stretch_app (d : fval) (ok : fval -> Prop) (no ni nr no' ni' nr' : nat)
      (t1 t2 : list event) :
  stretch d ok no ni nr t1 -> stretch d ok no' ni' nr' t2 ->
  stretch d ok (no + no') (ni + ni') (nr + nr') (t1 ++ t2).
Proof.
  unfold stretch, coarse_evaluations, fine_evaluations, second_stages.
  intros (Ho & Hi & Hr & Hs) (Ho' & Hi' & Hr' & Hs').
  rewrite !count_app, Ho, Hi, Hr, Ho', Hi', Hr'.
  repeat split. apply Forall_app. auto.
Qed.

Lemma stretch_sound (d : fval) (ok : fval -> Prop) (no ni nr : nat) (tb : list event) :
  stretch d ok no ni nr tb -> Forall (sound d ok) tb.
Proof.
  intros (_ & _ & _ & Hs). exact Hs.
Qed.

Lemma sound_weaken (d : fval) (ok ok' : fval -> Prop) (tb : list event) :
  (forall a, ok a -> ok' a) -> Forall (sound d ok) tb -> Forall (sound d ok') tb.
Proof.
  intros Himp Hs. eapply Forall_impl; [|exact Hs].
  intros [th d' | th | th | th | a]; simpl; auto.
Qed.

Lemma stretch_eq (d : fval) (ok : fval -> Prop) (no ni nr no' ni' nr' : nat)
      (tb : list event) :
  stretch d ok no ni nr tb -> no = no' -> ni = ni' -> nr = nr' ->
  stretch d ok no' ni' nr' tb.
Proof.
  intros Hs -> -> ->. exact Hs.
Qed.

Ltac stretch_list :=
  unfold stretch, coarse_evaluations, fine_evaluations, second_stages, count;
  simpl; repeat split; repeat (constructor; simpl; auto).

(* ================================================================== *)
(** ** The delayed-acceptance driver, step by step *)

Section DelayedAcceptanceFacts.
Context {G : Type} `{RandomSource G}.
Variable self : MCMCDA.t.
Variable ok : fval -> Prop.
Hypothesis Hgate : gate ok.

Lemma da_proposal_spec (th : vec) (d : fval) :
  triple (MCMCDA.proposal self th d)
         (fun tb x => stretch d ok 0 0 0 tb /\
                      match x with
                      | Returned _ => True
                      | Raised _ => ~ da_proposal_ok self d
                      | Exhausted => False
                      end).
Proof.
  unfold MCMCDA.proposal, da_proposal_ok. apply triple_emit_bind.
  destruct (MCMCDA.proposal_type self).
  - eapply triple_bind; [apply torch_normal_spec | | |].
    + intros tb1 noise [-> _]. apply triple_ret. split; [stretch_list | exact I].
    + intros tb1 e [-> Hstd]. split; [stretch_list | rewrite Hstd; discriminate].
    + intros tb1 [_ []].
  - destruct (MCMCDA.attr_log_likelihood self) as [[log_lik grad]|].
    + apply triple_emit_bind. apply triple_draw_bind. intros g.
      apply triple_ret. split; [stretch_list | exact I].
    + apply triple_raise. split; [stretch_list | intros Hne; apply Hne; reflexivity].
Qed.

Lemma log_posterior_outer_bind {B} (th : vec) (k : fval -> M G B)
      (Q : list event -> exit B -> Prop) :
  triple (k (MCMCDA.outer_posterior self th)) (fun tb2 x => Q (EvOuter th :: tb2) x) ->
  triple (bind (MCMCDA.log_posterior_outer self th) k) Q.
Proof.
  intros Hk. unfold MCMCDA.log_posterior_outer.
  apply triple_bind_assoc, triple_emit_bind, triple_ret_bind. exact Hk.
Qed.

Lemma log_posterior_inner_bind {B} (th : vec) (k : fval -> M G B)
      (Q : list event -> exit B -> Prop) :
  triple (k (MCMCDA.inner_posterior self th)) (fun tb2 x => Q (EvInner th :: tb2) x) ->
  triple (bind (MCMCDA.log_posterior_inner self th) k) Q.
Proof.
  intros Hk. unfold MCMCDA.log_posterior_inner.
  apply triple_bind_assoc, triple_emit_bind, triple_ret_bind. exact Hk.
Qed.

(** The second stage always returns: it counts the trial, evaluates the
    fine model twice and takes one reciprocal. *)
Lemma second_stage_spec (theta_proposal : vec) (a : fval) (s : MCMCDA.locals) (d : fval) :
  ok a ->
  triple (MCMCDA.second_stage self theta_proposal a s)
         (fun tb x => exists s', x = Returned s' /\
                                 MCMCDA.dt s' = MCMCDA.dt s /\
                                 MCMCDA.inner_mh s' = S (MCMCDA.inner_mh s) /\
                                 stretch d ok 0 2 1 tb).
Proof.
  intros Ha. unfold MCMCDA.second_stage.
  do 2 apply log_posterior_inner_bind. apply triple_emit_bind.
  apply triple_draw_bind. intros g. apply triple_ret.
  eexists. split; [reflexivity|]. simpl. repeat split; stretch_list.
Qed.

Lemma stretch_two_outer (d : fval) (th th' : vec) (ni nr : nat) (tb : list event) :
  stretch d ok 0 ni nr tb -> stretch d ok 2 ni nr (EvOuter th :: EvOuter th' :: tb).
Proof.
  intros Hs. change (EvOuter th :: EvOuter th' :: tb)
    with ([EvOuter th; EvOuter th'] ++ tb).
  apply (stretch_app (no:=2) (ni:=0) (nr:=0)); [stretch_list | exact Hs].
Qed.

(** One iteration of the Phase B loop. *)
Lemma inner_step_spec (samples verbose : bool) (s : MCMCDA.locals) :
  triple (MCMCDA.inner_step self samples verbose s)
         (fun tb x =>
            match x with
            | Returned s' =>
                MCMCDA.dt s' = MCMCDA.dt s /\
                ((MCMCDA.inner_mh s' = MCMCDA.inner_mh s /\
                  stretch (MCMCDA.dt s) ok 2 0 0 tb /\ ~ always_passes self) \/
                 (MCMCDA.inner_mh s' = S (MCMCDA.inner_mh s) /\
                  stretch (MCMCDA.dt s) ok 2 2 1 tb))
            | Raised _ =>
                Forall (sound (MCMCDA.dt s) ok) tb /\
                ~ (da_proposal_ok self (MCMCDA.dt s) /\
                   report_ok verbose (MCMCDA.iter_da self / 10))
            | Exhausted => False
            end).
Proof.
  unfold MCMCDA.inner_step.
  eapply triple_bind; [apply da_proposal_spec | | |].
  - intros tb1 theta_proposal [Hs1 _].
    do 2 apply log_posterior_outer_bind. apply triple_draw_bind. intros g.
    destruct (fltb (Fin (fst (rand g))) _) eqn:Hpass.
    + eapply triple_bind;
        [apply second_stage_spec with (d := MCMCDA.dt s); exact (Hgate _ _ _ Hpass) | | |].
      * intros tb2 s1 (s1' & Heq & Hdt & Hmh & Hs2). injection Heq as <-.
        eapply triple_bind; [apply progress_report_spec | | |].
        -- intros tb3 [] [-> _]. apply triple_ret. rewrite !app_nil_r.
           split; [destruct samples; exact Hdt|]. right.
           split; [destruct samples; exact Hmh|].
           apply (stretch_app (no:=0) (ni:=0) (nr:=0) Hs1).
           apply stretch_two_outer. exact Hs2.
        -- intros tb3 e [-> Hrep]. rewrite app_nil_r. split; [|tauto].
           apply Forall_app. split; [eapply stretch_sound; eauto|].
           eapply stretch_sound. apply stretch_two_outer. exact Hs2.
        -- intros tb3 [_ []].
      * intros tb2 e (s1' & Heq & _). discriminate.
      * intros tb2 (s1' & Heq & _). discriminate.
    + apply triple_ret_bind.
      assert (Hno : ~ always_passes self).
      { intros Hall. unfold always_passes in Hall.
        rewrite Hall in Hpass. discriminate. }
      eapply triple_bind; [apply progress_report_spec | | |].
      * intros tb3 [] [-> _]. apply triple_ret. cbv beta. simpl app.
        split; [destruct samples; reflexivity|]. left.
        split; [destruct samples; reflexivity|]. split; [|exact Hno].
        apply (stretch_app (no:=0) (ni:=0) (nr:=0) Hs1).
        apply stretch_two_outer. apply stretch_nil.
      * intros tb3 e [-> Hrep]. cbv beta. simpl app. split; [|tauto].
        apply Forall_app. split; [eapply stretch_sound; eauto|].
        eapply stretch_sound. apply stretch_two_outer. apply stretch_nil.
      * intros tb3 [_ []].
  - intros tb1 e [Hs1 Hno]. split; [eapply stretch_sound; eauto | tauto].
  - intros tb1 [_ []].
Qed.

(** With [verbose] set and a trial target below ten, the progress report
    of the first Phase B iteration takes a remainder modulo zero. *)
Lemma inner_step_report_raises (samples : bool) (s : MCMCDA.locals) :
  da_proposal_ok self (MCMCDA.dt s) ->
  ~ report_ok true (MCMCDA.iter_da self / 10) ->
  triple (MCMCDA.inner_step self samples true s)
         (fun _ x => x = Raised ZeroDivisionError).
Proof.
  intros Hprop Hrep. unfold MCMCDA.inner_step.
  eapply triple_bind; [apply da_proposal_spec | | |].
  - intros tb1 theta_proposal _.
    do 2 apply log_posterior_outer_bind. apply triple_draw_bind. intros g.
    assert (Hreport : forall s1 : MCMCDA.locals,
               triple (bind (progress_report (G:=G) true
                               (MCMCDA.inner_mh (if samples then MCMCDA.append_inner s1 else s1))
                               (MCMCDA.iter_da self / 10))
                            (fun _ => ret (if samples then MCMCDA.append_inner s1 else s1)))
                      (fun _ x => x = Raised ZeroDivisionError)).
    { intros s1. eapply triple_bind; [apply progress_report_spec | | |].
      - intros tb3 [] [_ Hok]. contradiction.
      - intros tb3 e [_ [-> _]]. reflexivity.
      - intros tb3 [_ []]. }
    destruct (fltb (Fin (fst (rand g))) _) eqn:Hpass.
    + eapply triple_bind;
        [apply second_stage_spec with (d := MCMCDA.dt s); exact (Hgate _ _ _ Hpass) | | |].
      * intros tb2 s1 _. apply Hreport.
      * intros tb2 e (s1' & Heq & _). discriminate.
      * intros tb2 (s1' & Heq & _). discriminate.
    + apply triple_ret_bind. apply Hreport.
  - intros tb1 e [_ Hno]. contradiction.
  - intros tb1 [_ []].
Qed.


End DelayedAcceptanceFacts.

Section PhaseB.
Context {G : Type} `{RandomSource G}.
Variable self : MCMCDA.t.
Variable ok : fval -> Prop.
Hypothesis Hgate : gate ok.

(** The whole loop.  [k] counts iterations and [j] those that reached the
    second stage. *)
Lemma phase_b_spec (fuel : nat) (samples verbose : bool) (s0 : MCMCDA.locals) :
  triple (MCMCDA.phase_b self fuel samples verbose s0)
    (fun tb x =>
       match x with
       | Returned s' =>
           MCMCDA.dt s' = MCMCDA.dt s0 /\
           exists k j,
             MCMCDA.inner_mh s' = (MCMCDA.inner_mh s0 + j)%nat /\
             (j <= k <= fuel)%nat /\
             stretch (MCMCDA.dt s0) ok (2 * k) (2 * j) j tb /\
             (MCMCDA.iter_da self <= MCMCDA.inner_mh s')%nat /\
             ((MCMCDA.inner_mh s0 <= MCMCDA.iter_da self)%nat ->
              MCMCDA.inner_mh s' = MCMCDA.iter_da self) /\
             (always_passes self -> j = k)
       | Raised _ =>
           Forall (sound (MCMCDA.dt s0) ok) tb /\
           ~ (da_proposal_ok self (MCMCDA.dt s0) /\
              report_ok verbose (MCMCDA.iter_da self / 10))
       | Exhausted =>
           exists j,
             (j <= fuel)%nat /\
             stretch (MCMCDA.dt s0) ok (2 * fuel) (2 * j) j tb /\
             (MCMCDA.inner_mh s0 + j < MCMCDA.iter_da self)%nat /\
             (always_passes self -> j = fuel)
       end).
Proof.
  set (d := MCMCDA.dt s0).
  set (J := fun (k : nat) (tb : list event) (s : MCMCDA.locals) =>
              MCMCDA.dt s = d /\
              exists j,
                MCMCDA.inner_mh s = (MCMCDA.inner_mh s0 + j)%nat /\
                (j <= k)%nat /\
                stretch d ok (2 * k) (2 * j) j tb /\
                ((MCMCDA.inner_mh s0 <= MCMCDA.iter_da self)%nat ->
                 (MCMCDA.inner_mh s <= MCMCDA.iter_da self)%nat) /\
                (always_passes self -> j = k)).
  set (E := fun (tb : list event) (_ : exn) =>
              Forall (sound d ok) tb /\
              ~ (da_proposal_ok self d /\
                 report_ok verbose (MCMCDA.iter_da self / 10))).
  assert (Hbody : forall k tb s, J k tb s ->
            (MCMCDA.inner_mh s <? MCMCDA.iter_da self)%nat = true ->
            triple (MCMCDA.inner_step self samples verbose s)
                   (fun tb2 x => match x with
                                 | Returned s' => J (S k) (tb ++ tb2) s'
                                 | Raised e => E (tb ++ tb2) e
                                 | Exhausted => False
                                 end)).
  { intros k tb s (Hdt & j & Hmh & Hjk & Hst & Hle & Hall) Hcond.
    apply Nat.ltb_lt in Hcond.
    eapply triple_weaken; [apply (inner_step_spec self Hgate samples verbose s)|].
    intros tb2 [s' | e |]; rewrite ?Hdt.
    - intros (Hdt' & [(Hmh' & Hst' & Hno) | (Hmh' & Hst')]).
      + split; [congruence|]. exists j.
        split; [congruence|]. split; [lia|].
        split; [eapply stretch_eq; [apply (stretch_app Hst Hst') | lia | lia | lia]|].
        split; [intros Hs0; rewrite Hmh'; auto | intros Hp; contradiction].
      + split; [congruence|]. exists (S j).
        split; [lia|]. split; [lia|].
        split; [eapply stretch_eq; [apply (stretch_app Hst Hst') | lia | lia | lia]|].
        split; [intros Hs0; lia | intros Hp; rewrite (Hall Hp); reflexivity].
    - intros (Hs & Hno). split; [|exact Hno].
      apply Forall_app. split; [eapply stretch_sound; eauto | exact Hs].
    - auto. }
  assert (HJ0 : J O [] s0).
  { split; [reflexivity|]. exists O.
    split; [lia|]. split; [lia|]. split; [apply stretch_nil|]. auto. }
  unfold MCMCDA.phase_b.
  eapply triple_weaken;
    [apply (triple_while _ _ J E Hbody fuel O [] s0 HJ0)|].
  intros tb [s' | e |]; simpl.
  - intros (k & Hk & (Hdt & j & Hmh & Hjk & Hst & Hle & Hall) & Hcond).
    apply Nat.ltb_ge in Hcond.
    split; [exact Hdt|]. exists k, j.
    split; [exact Hmh|]. split; [lia|]. split; [exact Hst|]. split; [lia|].
    split; [|exact Hall]. intros Hs0. specialize (Hle Hs0). lia.
  - auto.
  - intros (s' & (Hdt & j & Hmh & Hjk & Hst & Hle & Hall) & Hcond).
    apply Nat.ltb_lt in Hcond. exists j.
    split; [lia|]. split; [exact Hst|]. split; [lia | exact Hall].
Qed.

(** What follows the loop in [run_chain] appends nothing to the trace. *)
Lemma refinement_sound (fuel : nat) (samples verbose : bool) (sa : MCMCDA.locals) :
  triple (MCMCDA.refinement self fuel samples verbose sa)
         (fun tb _ => Forall (sound (MCMCDA.dt sa) ok) tb).
Proof.
  unfold MCMCDA.refinement.
  eapply triple_bind; [apply (phase_b_spec fuel samples verbose sa) | | |].
  - intros tb1 sb (_ & k & j & _ & _ & Hst & _).
    apply stretch_sound in Hst.
    intros w. exists []. rewrite !app_nil_r. split; [|exact Hst].
    unfold bind, py_truediv, MCMCDA.tensor_of_rows, ret, raise.
    destruct verbose, samples; simpl;
      repeat match goal with
             | |- context [if ?b then _ else _] => destruct b; simpl
             end; rewrite ?app_nil_r; reflexivity.
  - intros tb1 e (Hs & _). exact Hs.
  - intros tb1 (j & _ & Hst & _). eapply stretch_sound; eauto.
Qed.

End PhaseB.

(* ================================================================== *)
(** ** Executions that are sure to return *)

Lemma exit_of_returned {G A} (o : outcome G A) (a : A) :
  exit_of o = Returned a -> exists w', o = Ok a w'.
Proof.
  destruct o as [a' w' | e w' | w']; simpl; intros Heq; try discriminate.
  injection Heq as ->. eauto.
Qed.

Section SureToPass.
Context {G : Type} `{RandomSource G}.
Variable self : MCMCDA.t.

(** When the coarse posterior turns nothing down, [iter_da] iterations
    are enough and each of them is a trial. *)
Lemma phase_b_returns_when_passing
      (fuel : nat) (samples verbose : bool) (s : MCMCDA.locals) (w : world G) :
  always_passes self ->
  da_proposal_ok self (MCMCDA.dt s) ->
  report_ok verbose (MCMCDA.iter_da self / 10) ->
  MCMCDA.inner_mh s = O ->
  (MCMCDA.iter_da self <= fuel)%nat ->
  exists s' w' tb,
    MCMCDA.phase_b self fuel samples verbose s w = Ok s' w' /\
    trace w' = trace w ++ tb /\
    MCMCDA.inner_mh s' = MCMCDA.iter_da self /\
    second_stages tb = MCMCDA.iter_da self /\
    fine_evaluations tb = (2 * MCMCDA.iter_da self)%nat /\
    coarse_evaluations tb = (2 * MCMCDA.iter_da self)%nat.
Proof.
  intros Hpass Hprop Hrep Hmh Hfuel.
  destruct (phase_b_spec self (@gate_trivial G _) fuel samples verbose s w)
    as (tb & Htrace & Hpost).
  destruct (MCMCDA.phase_b self fuel samples verbose s w) as [s' w' | e w' | w'];
    simpl in *.
  - destruct Hpost as (_ & k & j & Hj & Hjk & (Ho & Hi & Hr & _) & _ & Hend & Hall).
    specialize (Hall Hpass). subst k.
    assert (Hj' : j = MCMCDA.iter_da self) by (rewrite Hend in Hj; lia).
    exists s', w', tb. repeat split; auto; lia.
  - destruct Hpost as (_ & Hno). exfalso. apply Hno. auto.
  - destruct Hpost as (j & _ & _ & Hlt & Hall).
    specialize (Hall Hpass). lia.
Qed.

End SureToPass.

(** So Phase B cannot run with [verbose] set and a trial target between one
    and nine: its first iteration raises. *)
Lemma phase_b_report_divides_by_zero {G} `{RandomSource G} (self : MCMCDA.t)
      (fuel : nat) (samples : bool) (s : MCMCDA.locals) (w : world G) :
  da_proposal_ok self (MCMCDA.dt s) ->
  (MCMCDA.inner_mh s < MCMCDA.iter_da self < 10)%nat ->
  exit_of (MCMCDA.phase_b self (S fuel) samples true s w) = Raised ZeroDivisionError.
Proof.
  intros Hprop [Hlt Hsmall].
  assert (Hrep : ~ report_ok true (MCMCDA.iter_da self / 10)).
  { intros [Hv | Hne]; [discriminate|].
    apply Hne. apply Nat.div_small. exact Hsmall. }
  destruct (inner_step_report_raises self (@gate_trivial G _) samples s Hprop Hrep w)
    as (tb & _ & Hx).
  unfold MCMCDA.phase_b. cbn [while].
  apply Nat.ltb_lt in Hlt. rewrite Hlt. unfold bind.
  destruct (MCMCDA.inner_step self samples true s w) as [s' w' | e w' | w'];
    simpl in Hx; try discriminate. exact Hx.
Qed.

Lemma scripted_laws : @RandomSourceLaws nat Scripted.source.
Proof.
  constructor; simpl; intros.
  - destruct (Nat.even g); lra.
  - apply repeat_length.
  - apply repeat_length.
  - apply Forall_forall. intros x Hx. apply repeat_spec in Hx. subst x. lra.
  - apply Nat.mod_upper_bound. lia.
  - apply repeat_length.
  - apply Forall_forall. intros x Hx. apply repeat_spec in Hx. subst x.
    destruct w; [contradiction | simpl; lia].
Qed.

Lemma flat_da_stage1 (n_mcmc n_da : nat) (th th' : vec) :
  MCMCDA.stage1_prob (MCMCDA.outer_posterior (Examples.flat_da n_mcmc n_da) th)
                     (MCMCDA.outer_posterior (Examples.flat_da n_mcmc n_da) th') = Fin 1.
Proof.
  unfold MCMCDA.stage1_prob, MCMCDA.outer_posterior. simpl.
  rewrite exp_diff_self. f_equal. unfold Rmin. destruct (Rle_dec 1 1); lra.
Qed.

Lemma flat_da_always_passes {G} `{RandomSourceLaws G} (n_mcmc n_da : nat) :
  always_passes (Examples.flat_da n_mcmc n_da).
Proof.
  intros g th th'. rewrite flat_da_stage1.
  apply fltb_Fin_true. pose proof (rand_range g). lra.
Qed.

Lemma tenth_accepted_by_normal : fgeb (Fin (/ 10)) (Fin 0) = true.
Proof.
  apply fgeb_Fin_true. lra.
Qed.

Ltac exec_step :=
  lazymatch goal with
  | |- triple (bind (emit _) _) _ => apply triple_emit_bind
  | |- triple (bind (draw _) _) _ => apply triple_draw_bind; intro
  | |- triple (bind (ret _) _) _ => apply triple_ret_bind
  | |- triple (bind (bind _ _) _) _ => apply triple_bind_assoc
  end; cbv beta.

Ltac exec := repeat exec_step.

(* ================================================================== *)
(** ** Chains on a flat posterior *)

Section SingleStageFacts.
Context {G : Type} `{RandomSourceLaws G}.
Variable self : MetropolisHastings.t.
Hypothesis Hflat : flat_posterior self.
Hypothesis Hrw : MetropolisHastings.proposal_type self = random_walk.

(** On a flat posterior every iteration accepts and leaves a positive
    step size. *)
Lemma mh_step_flat (verbose : bool) (i : nat) (s : MetropolisHastings.locals) (d : R) :
  report_ok verbose (MetropolisHastings.nsamples self / 10) ->
  MetropolisHastings.dt s = Fin d -> 0 < d ->
  triple (MetropolisHastings.step self verbose i s)
         (fun tb x =>
            exists s', x = Returned s' /\
              MetropolisHastings.accepted_proposals s' =
                S (MetropolisHastings.accepted_proposals s) /\
              exists d', MetropolisHastings.dt s' = Fin d' /\ 0 < d').
Proof.
  intros Hrep Hd Hpos.
  unfold MetropolisHastings.step, MetropolisHastings.proposal,
    MetropolisHastings.log_posterior, MetropolisHastings.call_log_likelihood,
    torch_normal.
  rewrite Hrw, Hd, (fgeb_Fin_true (a:=d) (b:=0)) by lra.
  exec. rewrite Hflat.
  rewrite fltb_Fin_true by (pose proof (rand_range g0); lra).
  eapply triple_bind; [apply progress_report_spec | | |].
  - intros tb1 [] [-> _]. apply triple_ret.
    eexists. split; [reflexivity|].
    cbn [MetropolisHastings.accepted_proposals MetropolisHastings.dt].
    split; [reflexivity|]. rewrite adapt_Fin. eexists. split; [reflexivity|].
    apply adapt_step_positive; lra.
  - intros tb1 e [_ [_ Hno]]. contradiction.
  - intros tb1 [_ []].
Qed.

(** The loop of [run_chain] accepts once per iteration. *)
Lemma mh_loop_flat (verbose : bool) (n : nat) (s0 : MetropolisHastings.locals) (d : R) :
  report_ok verbose (MetropolisHastings.nsamples self / 10) ->
  MetropolisHastings.dt s0 = Fin d -> 0 < d ->
  MetropolisHastings.accepted_proposals s0 = O ->
  triple (for_range n (MetropolisHastings.step self verbose) s0)
         (fun tb x => exists s', x = Returned s' /\
                                 MetropolisHastings.accepted_proposals s' = n).
Proof.
  intros Hrep Hd Hpos Hacc.
  set (J := fun (k : nat) (_ : list event) (s : MetropolisHastings.locals) =>
              MetropolisHastings.accepted_proposals s = k /\
              exists d', MetropolisHastings.dt s = Fin d' /\ 0 < d').
  eapply triple_weaken;
    [apply (triple_for_from (MetropolisHastings.step self verbose) J
                            (fun _ _ => False)) with (tb := [])|].
  - intros k tb s [Hk (d' & Hd' & Hpos')].
    eapply triple_weaken; [eapply mh_step_flat; eassumption|].
    intros tb2 x (s' & -> & Hacc' & Hdt'). split; [congruence | exact Hdt'].
  - split; [exact Hacc | eauto].
  - intros tb [s' | e |]; simpl; try contradiction.
    intros [Hk _]. eauto.
Qed.

(** [run_chain] on a flat posterior: every one of the
    [nsamples + burnin] iterations is counted as accepted, and the count
    is divided by [nsamples]. *)
Lemma mh_flat_rate (verbose : bool) (d : R) (w : world G) :
  report_ok verbose (MetropolisHastings.nsamples self / 10) ->
  MetropolisHastings.self_dt self = Fin d -> 0 < d ->
  MetropolisHastings.nsamples self <> O ->
  exists kept w',
    MetropolisHastings.run_chain self verbose w =
      Ok (kept,
          Fin (INR (MetropolisHastings.nsamples self + MetropolisHastings.burnin self)
               / INR (MetropolisHastings.nsamples self))) w'.
Proof.
  intros Hrep Hd Hpos Hn.
  assert (Ht : triple (MetropolisHastings.run_chain self verbose)
                 (fun _ x => exists kept,
                    x = Returned
                          (kept,
                           Fin (INR (MetropolisHastings.nsamples self
                                     + MetropolisHastings.burnin self)
                                / INR (MetropolisHastings.nsamples self))))).
  { unfold MetropolisHastings.run_chain. exec.
    eapply triple_bind;
      [eapply mh_loop_flat; [exact Hrep | exact Hd | exact Hpos | reflexivity] | | |].
    - intros tb1 s (s' & Heq & Hacc). injection Heq as <-.
      unfold py_truediv. apply Nat.eqb_neq in Hn. rewrite Hn, Hacc.
      exec. apply triple_ret. eauto.
    - intros tb1 e (s' & Heq & _). discriminate.
    - intros tb1 (s' & Heq & _). discriminate. }
  destruct (Ht w) as (tb & _ & kept & Hx).
  apply exit_of_returned in Hx. destruct Hx as (w' & Hx). eauto.
Qed.

End SingleStageFacts.

(* ================================================================== *)
(** ** The acceptance counter of the single-stage driver *)

Section SingleStageCount.
Context {G : Type} `{RandomSource G}.
Variable self : MetropolisHastings.t.

Lemma mh_proposal_runs (th : vec) (d : fval) :
  triple (MetropolisHastings.proposal self th d) (fun _ _ => True).
Proof.
  unfold MetropolisHastings.proposal, MetropolisHastings.call_log_likelihood.
  apply triple_emit_bind.
  destruct (MetropolisHastings.proposal_type self).
  - eapply triple_bind; [apply torch_normal_spec | | |]; auto.
    intros tb1 noise _. apply triple_ret. exact I.
  - exec. destruct (MetropolisHastings.grad_log_likelihood self th).
    + exec. apply triple_ret. exact I.
    + apply triple_raise. exact I.
Qed.

(** An iteration adds at most one to the counter. *)
Lemma mh_step_count (verbose : bool) (i : nat) (s : MetropolisHastings.locals) :
  triple (MetropolisHastings.step self verbose i s)
         (fun _ x =>
            match x with
            | Returned s' =>
                (MetropolisHastings.accepted_proposals s
                 <= MetropolisHastings.accepted_proposals s'
                 <= S (MetropolisHastings.accepted_proposals s))%nat
            | _ => True
            end).
Proof.
  unfold MetropolisHastings.step, MetropolisHastings.log_posterior,
    MetropolisHastings.call_log_likelihood.
  eapply triple_bind; [apply mh_proposal_runs | | |]; auto.
  intros tb1 theta_proposal _. exec.
  eapply triple_bind; [apply progress_report_spec | | |]; auto.
  intros tb2 [] _. apply triple_ret.
  cbn [MetropolisHastings.accepted_proposals].
  destruct (fltb _ _); lia.
Qed.

(** Whenever [run_chain] returns, the rate is the number of acceptances
    over all [nsamples + burnin] iterations, divided by [nsamples]. *)
Lemma mh_rate_is_count_over_nsamples (verbose : bool) (w w' : world G)
      (kept : list vec) (rate : fval) :
  MetropolisHastings.run_chain self verbose w = Ok (kept, rate) w' ->
  exists k,
    (k <= MetropolisHastings.nsamples self + MetropolisHastings.burnin self)%nat /\
    MetropolisHastings.nsamples self <> O /\
    rate = Fin (INR k / INR (MetropolisHastings.nsamples self)).
Proof.
  intros Hrun.
  set (n := MetropolisHastings.nsamples self) in *.
  set (b := MetropolisHastings.burnin self) in *.
  assert (Ht : triple (MetropolisHastings.run_chain self verbose)
                 (fun _ x =>
                    match x with
                    | Returned (_, r) =>
                        exists k, (k <= n + b)%nat /\ n <> O /\ r = Fin (INR k / INR n)
                    | _ => True
                    end)).
  { unfold MetropolisHastings.run_chain. fold n b. exec.
    set (J := fun (k : nat) (_ : list event) (s : MetropolisHastings.locals) =>
                (MetropolisHastings.accepted_proposals s <= k)%nat).
    eapply triple_bind.
    - apply (triple_for_from (MetropolisHastings.step self verbose) J
                             (fun _ _ => True)) with (tb := []) (i := O).
      + intros k tb s Hk.
        eapply triple_weaken; [apply mh_step_count|].
        intros tb2 [s' | e |]; auto. unfold J in *. lia.
      + unfold J. simpl. lia.
    - intros tb1 s Hs. unfold J in Hs. simpl in Hs.
      unfold py_truediv. destruct (Nat.eqb n 0) eqn:Hn.
      + apply triple_bind
          with (Q1 := fun _ x => match x with Returned _ => False | _ => True end);
          auto.
        * apply triple_raise. exact I.
        * intros tb2 a [].
      + apply Nat.eqb_neq in Hn. exec. apply triple_ret.
        exists (MetropolisHastings.accepted_proposals s). auto.
    - auto.
    - auto. }
  destruct (Ht w) as (tb & _ & Hpost). rewrite Hrun in Hpost. exact Hpost.
Qed.

End SingleStageCount.

Section CoarseBurnInFacts.
Context {G : Type} `{RandomSource G}.
Variable self : MCMCDA.t.
Hypothesis Hflat : forall th th',
    MCMCDA.stage1_prob (MCMCDA.outer_posterior self th)
                       (MCMCDA.outer_posterior self th') = Fin 1.
Hypothesis Hrw : MCMCDA.proposal_type self = random_walk.

Lemma outer_step_flat (samples verbose : bool) (i : nat) (s : MCMCDA.locals) (d : R) :
  report_ok verbose (MCMCDA.iter_mcmc self / 10) ->
  MCMCDA.dt s = Fin d -> 0 < d ->
  triple (MCMCDA.outer_step self samples verbose i s)
         (fun tb x =>
            exists s', x = Returned s' /\
              MCMCDA.inner_mh s' = MCMCDA.inner_mh s /\
              MCMCDA.dt s' = adapt (Fin d) (Fin 1) i).
Proof.
  intros Hrep Hd Hpos.
  unfold MCMCDA.outer_step, MCMCDA.proposal, MCMCDA.log_posterior_outer,
    torch_normal.
  rewrite Hrw, Hd, (fgeb_Fin_true (a:=d) (b:=0)) by lra.
  exec. rewrite Hflat.
  eapply triple_bind; [apply progress_report_spec | | |].
  - intros tb1 [] [-> _]. apply triple_ret.
    eexists. split; [reflexivity|]. split; reflexivity.
  - intros tb1 e [_ [_ Hno]]. contradiction.
  - intros tb1 [_ []].
Qed.

(** Phase A on a flat coarse posterior returns, with a positive step size
    and no trial counted yet. *)
Lemma coarse_burn_in_flat (samples verbose : bool) (d : R) (w : world G) :
  report_ok verbose (MCMCDA.iter_mcmc self / 10) ->
  MCMCDA.self_dt self = Fin d -> 0 < d ->
  exists sa wa,
    MCMCDA.coarse_burn_in self samples verbose w = Ok sa wa /\
    MCMCDA.inner_mh sa = O /\
    exists d', MCMCDA.dt sa = Fin d' /\ 0 < d'.
Proof.
  intros Hrep Hd Hpos.
  set (J := fun (k : nat) (_ : list event) (s : MCMCDA.locals) =>
              MCMCDA.inner_mh s = O /\
              exists d', MCMCDA.dt s = Fin d' /\ 0 < d').
  assert (Ht : triple (MCMCDA.coarse_burn_in self samples verbose)
                      (fun tb x => exists s', x = Returned s' /\ J O tb s')).
  { unfold MCMCDA.coarse_burn_in, MCMCDA.phase_a. exec.
    eapply triple_weaken;
      [apply (triple_for_from (MCMCDA.outer_step self samples verbose) J
                              (fun _ _ => False)) with (tb := [])|].
    - intros k tb s [Hmh (d' & Hd' & Hpos')].
      eapply triple_weaken; [eapply outer_step_flat; eassumption|].
      intros tb2 x (s' & -> & Hmh' & Hdt'). split; [congruence|].
      rewrite Hdt', adapt_Fin. eexists. split; [reflexivity|].
      apply adapt_step_positive; lra.
    - split; [reflexivity | eauto].
    - intros tb [s' | e |]; simpl; try contradiction. eauto. }
  destruct (Ht w) as (tb & _ & sa & Hx & Hmh & Hdt).
  apply exit_of_returned in Hx. destruct Hx as (wa & Hx). eauto.
Qed.

End CoarseBurnInFacts.

(* ================================================================== *)
(** ** Properties of the delayed-acceptance refinement phase *)

(** Helper: a sound stretch of trace gives each proposal the step size and
    each reciprocal the condition. *)
Lemma sound_proposals (d : fval) (ok : fval -> Prop) (tb : list event) :
  Forall (sound d ok) tb ->
  (forall th d', In (EvProposal th d') tb -> d' = d) /\
  (forall a, In (EvRecip a) tb -> ok a).
Proof.
  intros Hs. rewrite Forall_forall in Hs. split.
  - intros th d' Hin. exact (Hs _ Hin).
  - intros a Hin. exact (Hs _ Hin).
Qed.

(** C1 (amended).  Phase B, started with no trial counted, a usable
    proposal and a progress report that cannot divide by zero, never
    raises.  When it returns, exactly [iter_da] trials have passed the
    coarse stage, the fine likelihood has been evaluated exactly
    [2 * iter_da] times (at [theta] and at the proposal of every such
    trial) and the coarse likelihood twice in each of the [k >= iter_da]
    iterations, hence at least [iter_da] times.  The loop is only cut off
    while fewer than [iter_da] trials have passed, after running all the
    iterations it was allowed. *)
Theorem phase_b_trial_count {G} `{RandomSource G} (self : MCMCDA.t)
        (fuel : nat) (samples verbose : bool) (s : MCMCDA.locals) (w : world G) :
  MCMCDA.inner_mh s = O ->
  da_proposal_ok self (MCMCDA.dt s) ->
  report_ok verbose (MCMCDA.iter_da self / 10) ->
  exists tb,
    appended w (MCMCDA.phase_b self fuel samples verbose s w) tb /\
    match exit_of (MCMCDA.phase_b self fuel samples verbose s w) with
    | Returned s' =>
        MCMCDA.inner_mh s' = MCMCDA.iter_da self /\
        second_stages tb = MCMCDA.iter_da self /\
        fine_evaluations tb = (2 * MCMCDA.iter_da self)%nat /\
        (exists k, (MCMCDA.iter_da self <= k <= fuel)%nat /\
                   coarse_evaluations tb = (2 * k)%nat) /\
        (MCMCDA.iter_da self <= coarse_evaluations tb)%nat
    | Raised _ => False
    | Exhausted =>
        coarse_evaluations tb = (2 * fuel)%nat /\
        (second_stages tb < MCMCDA.iter_da self)%nat
    end.
Proof.
  intros Hmh Hprop Hrep.
  destruct (phase_b_spec self (@gate_trivial G _) fuel samples verbose s w)
    as (tb & Htrace & Hpost).
  exists tb. split; [exact Htrace|].
  destruct (exit_of (MCMCDA.phase_b self fuel samples verbose s w)) as [s' | e |].
  - destruct Hpost as (_ & k & j & Hj & Hjk & (Ho & Hi & Hr & _) & _ & Hend & _).
    assert (Hs' : MCMCDA.inner_mh s' = MCMCDA.iter_da self) by (apply Hend; lia).
    assert (Hj' : j = MCMCDA.iter_da self) by lia.
    split; [exact Hs'|]. split; [congruence|]. split; [congruence|].
    split; [exists k; split; [lia | exact Ho] | lia].
  - destruct Hpost as (_ & Hno). apply Hno. auto.
  - destruct Hpost as (j & Hj & (Ho & _ & Hr & _) & Hlt & _).
    split; [exact Ho | lia].
Qed.

Lemma phase_b_trial_count_witness :
  let self := Examples.flat_da 0 2 in
  let o := MCMCDA.phase_b self 3 false false (MCMCDA.initial self [0]) Examples.w0 in
  exists tb,
    appended Examples.w0 o tb /\
    match exit_of o with
    | Returned s' =>
        MCMCDA.inner_mh s' = MCMCDA.iter_da self /\
        second_stages tb = MCMCDA.iter_da self /\
        fine_evaluations tb = (2 * MCMCDA.iter_da self)%nat /\
        (exists k, (MCMCDA.iter_da self <= k <= 3)%nat /\
                   coarse_evaluations tb = (2 * k)%nat) /\
        (MCMCDA.iter_da self <= coarse_evaluations tb)%nat
    | Raised _ => False
    | Exhausted =>
        coarse_evaluations tb = (2 * 3)%nat /\
        (second_stages tb < MCMCDA.iter_da self)%nat
    end.
Proof.
  intros self o.
  apply (@phase_b_trial_count nat Scripted.source self 3 false false
                              (MCMCDA.initial self [0]) Examples.w0).
  - reflexivity.
  - exact tenth_accepted_by_normal.
  - left. reflexivity.
Defined.

(** C1, as stated, fails: with a trial target of one, Phase B returns after
    two evaluations of the fine likelihood, not one. *)
Lemma fine_evaluations_exceed_target :
  let self := Examples.flat_da 0 1 in
  let o := MCMCDA.phase_b self 1 false false (MCMCDA.initial self [0]) Examples.w0 in
  (exists s' w', o = Ok s' w') /\
  fine_evaluations (trace (final_world o)) = 2%nat /\
  fine_evaluations (trace (final_world o)) <> MCMCDA.iter_da self.
Proof.
  intros self o.
  destruct (@phase_b_returns_when_passing nat Scripted.source self 1 false false
              (MCMCDA.initial self [0]) Examples.w0)
    as (s' & w' & tb & Hrun & Htrace & _ & _ & Hfine & _).
  - apply (@flat_da_always_passes nat Scripted.source scripted_laws).
  - exact tenth_accepted_by_normal.
  - left. reflexivity.
  - reflexivity.
  - simpl. lia.
  - subst o. rewrite Hrun. simpl final_world. rewrite Htrace. simpl app.
    rewrite Hfine. simpl. split; [eauto | split; [reflexivity | discriminate]].
Qed.

(** C3.  A draw of [torch.rand] is never below a first-stage probability
    of zero, and every reciprocal [1/a] taken during Phase B, however the
    phase ends, is that of a probability [a] with [0 < a <= 1]. *)
Theorem second_stage_reciprocal_positive {G} `{RandomSourceLaws G} (self : MCMCDA.t)
        (fuel : nat) (samples verbose : bool) (s : MCMCDA.locals) (w : world G) :
  (forall g, fltb (Fin (fst (rand g))) (Fin 0) = false) /\
  exists tb,
    appended w (MCMCDA.phase_b self fuel samples verbose s w) tb /\
    forall a, In (EvRecip a) tb -> positive_prob a.
Proof.
  split.
  - intros g. apply fltb_Fin_false. apply (rand_range g).
  - destruct (phase_b_spec self gate_positive fuel samples verbose s w)
      as (tb & Htrace & Hpost).
    exists tb. split; [exact Htrace|].
    apply (sound_proposals (d := MCMCDA.dt s)).
    destruct (exit_of (MCMCDA.phase_b self fuel samples verbose s w)) as [s' | e |].
    + destruct Hpost as (_ & k & j & _ & _ & Hst & _). eapply stretch_sound; eauto.
    + destruct Hpost as (Hs & _). exact Hs.
    + destruct Hpost as (j & _ & Hst & _). eapply stretch_sound; eauto.
Qed.

Lemma second_stage_reciprocal_positive_witness :
  let self := Examples.flat_da 0 2 in
  (forall g : nat, fltb (Fin (fst (rand g))) (Fin 0) = false) /\
  exists tb,
    appended Examples.w0
             (MCMCDA.phase_b self 3 false false (MCMCDA.initial self [0]) Examples.w0) tb /\
    forall a, In (EvRecip a) tb -> positive_prob a.
Proof.
  intros self.
  exact (@second_stage_reciprocal_positive nat Scripted.source scripted_laws self 3
           false false (MCMCDA.initial self [0]) Examples.w0).
Defined.

(** C5.  Once Phase A has returned its locals [sa], every proposal made in
    the rest of [run_chain] is given the step size [dt sa] that Phase A
    ended with, however many iterations Phase B runs and however it ends,
    and Phase B hands back that same step size. *)
Theorem phase_b_step_size_frozen {G} `{RandomSource G} (self : MCMCDA.t)
        (fuel : nat) (samples verbose : bool) (w wa : world G) (sa : MCMCDA.locals) :
  MCMCDA.coarse_burn_in self samples verbose w = Ok sa wa ->
  (exists tb,
      appended wa (MCMCDA.run_chain self fuel samples verbose w) tb /\
      forall th d, In (EvProposal th d) tb -> d = MCMCDA.dt sa) /\
  (forall sb wb,
      MCMCDA.phase_b self fuel samples verbose sa wa = Ok sb wb ->
      MCMCDA.dt sb = MCMCDA.dt sa).
Proof.
  intros Hburn. split.
  - destruct (refinement_sound self (@gate_trivial G _) fuel samples verbose sa wa)
      as (tb & Htrace & Hs).
    exists tb. split.
    + unfold appended, MCMCDA.run_chain, bind. rewrite Hburn. exact Htrace.
    + apply (sound_proposals Hs).
  - intros sb wb Hrun.
    destruct (phase_b_spec self (@gate_trivial G _) fuel samples verbose sa wa)
      as (tb & _ & Hpost).
    rewrite Hrun in Hpost. simpl in Hpost. apply Hpost.
Qed.

Lemma phase_b_step_size_frozen_witness :
  let self := Examples.flat_da 3 2 in
  exists sa wa,
    MCMCDA.coarse_burn_in self false false Examples.w0 = Ok sa wa /\
    (exists tb,
        appended wa (MCMCDA.run_chain self 5 false false Examples.w0) tb /\
        forall th d, In (EvProposal th d) tb -> d = MCMCDA.dt sa) /\
    (forall sb wb,
        MCMCDA.phase_b self 5 false false sa wa = Ok sb wb ->
        MCMCDA.dt sb = MCMCDA.dt sa).
Proof.
  intros self.
  destruct (@coarse_burn_in_flat nat Scripted.source self
              (flat_da_stage1 3 2) eq_refl false false (/ 10) Examples.w0)
    as (sa & wa & Hburn & _).
  - left. reflexivity.
  - reflexivity.
  - lra.
  - exists sa, wa. split; [exact Hburn|].
    exact (@phase_b_step_size_frozen nat Scripted.source self 5 false false
             Examples.w0 wa sa Hburn).
Defined.

(* ================================================================== *)
(** ** The step-size controller *)

(** C4.  On a positive step size, an acceptance probability in [0, 1] and
    an iteration index [i], the controller returns
    [step + step * (a - 0.234) / (i + 1)], and that value is positive. *)
Theorem adapt_rule_positive (step a : R) (i : nat) :
  0 < step -> 0 <= a <= 1 ->
  adapt (Fin step) (Fin a) i = Fin (step + step * (a - 0.234) / (INR i + 1)) /\
  0 < step + step * (a - 0.234) / (INR i + 1).
Proof.
  intros Hstep Ha. split.
  - apply adapt_Fin.
  - apply adapt_step_positive; assumption.
Qed.

Lemma adapt_rule_positive_witness :
  adapt (Fin (/ 10)) (Fin 0) 4 = Fin (/ 10 + / 10 * (0 - 0.234) / (INR 4 + 1)) /\
  0 < / 10 + / 10 * (0 - 0.234) / (INR 4 + 1).
Proof.
  apply (adapt_rule_positive (step := / 10) (a := 0) 4); lra.
Defined.

(* ================================================================== *)
(** ** Identical coarse and fine models *)

Lemma stage2_cancels (x y : R) :
  MCMCDA.stage2_prob (Fin x) (Fin y) (MCMCDA.stage1_prob (Fin x) (Fin y)) = Fin 1.
Proof.
  unfold MCMCDA.stage2_prob, MCMCDA.stage1_prob. simpl fsub. simpl fexp.
  set (e := exp (y + - x)).
  assert (He : 0 < e) by apply exp_pos.
  simpl clamp_max at 2.
  assert (Hm : 0 < Rmin e 1) by (unfold Rmin; destruct (Rle_dec e 1); lra).
  rewrite (fdiv_Fin 1 Hm). simpl. f_equal.
  unfold Rmin at 2. destruct (Rle_dec e 1) as [Hle | Hgt].
  - replace (e * (1 / e)) with 1 by (field; lra).
    unfold Rmin. destruct (Rle_dec 1 1); lra.
  - replace (e * (1 / 1)) with e by field.
    unfold Rmin. destruct (Rle_dec e 1); lra.
Qed.

(** In exact arithmetic the second-stage probability of identical models
    is one. *)
Lemma identical_models_cancel (self : MCMCDA.t) (th th' : vec) :
  (forall t, MCMCDA.log_likelihood_inner self t = MCMCDA.log_likelihood_outer self t) ->
  finite (MCMCDA.outer_posterior self th) ->
  finite (MCMCDA.outer_posterior self th') ->
  MCMCDA.stage2_prob
    (MCMCDA.inner_posterior self th) (MCMCDA.inner_posterior self th')
    (MCMCDA.stage1_prob (MCMCDA.outer_posterior self th)
                        (MCMCDA.outer_posterior self th')) = Fin 1.
Proof.
  intros Hsame [x Hx] [y Hy].
  assert (Hin : forall t, MCMCDA.inner_posterior self t = MCMCDA.outer_posterior self t).
  { intros t. unfold MCMCDA.inner_posterior, MCMCDA.outer_posterior.
    rewrite Hsame. reflexivity. }
  rewrite !Hin, Hx, Hy. apply stage2_cancels.
Qed.

Section RoundedFacts.
Import SpecFloat.

(** Multiplying a normal number by one is exact. *)
Ltac mul_by_one p :=
  let Hd := fresh "Hd" in
  let Hex := fresh "Hex" in
  intros Hd Hex; unfold SFmul; cbn [xorb];
  rewrite Pos.mul_comm; cbn [Pos.mul];
  unfold binary_round_aux, shr_fexp; cbn [Zdigits2 digits2_pos]; rewrite Hd;
  match goal with
  | |- context [shr _ ?e0 (fexp ?pr ?em ?a - ?e0)%Z] =>
      let k := eval vm_compute in (p - 1)%Z in
      replace (fexp pr em a - e0)%Z with k
        by (unfold fexp, emin; cbn [PosDef.Pos.succ]; lia)
  end;
  cbn [shr iter_pos shr_1 shr_record_of_loc orb shr_m loc_of_shr_record
       round_nearest_even Zdigits2];
  rewrite Hd;
  match goal with
  | |- context [shr _ ?e0 (fexp ?pr ?em ?a - ?e0)%Z] =>
      replace (fexp pr em a - e0)%Z with 0%Z by (unfold fexp, emin; lia)
  end;
  cbn [shr shr_m];
  match goal with
  | |- context [(?e1 <=? ?b)%Z] =>
      replace (e1 <=? b)%Z with true by (symmetry; apply Z.leb_le; lia)
  end;
  f_equal; lia.

Lemma mul_one_32 (m : positive) (ex : Z) :
  digits2_pos m = 24%positive -> (-149 <= ex <= 104)%Z ->
  SFmul 24 128 (S754_finite false m ex) (S754_finite false 8388608 (-23))
  = S754_finite false m ex.
Proof.
  mul_by_one 24%Z.
Qed.

Lemma mul_one_64 (m : positive) (ex : Z) :
  digits2_pos m = 53%positive -> (-1074 <= ex <= 971)%Z ->
  SFmul 53 1024 (S754_finite false m ex) (S754_finite false 4503599627370496 (-52))
  = S754_finite false m ex.
Proof.
  mul_by_one 53%Z.
Qed.

(** What [one <= x] says of a positive finite [x]. *)
Lemma at_least_one_normal (p : positive) (e1 : Z) (m : positive) (ex : Z) :
  SFleb (S754_finite false p e1) (S754_finite false m ex) = true ->
  (e1 <= ex)%Z /\
  (SFltb (S754_finite false p e1) (S754_finite false m ex) = false ->
   S754_finite false m ex = S754_finite false p e1).
Proof.
  unfold SFleb, SFltb, SFcompare.
  destruct (Z.compare e1 ex) eqn:Hc; try discriminate.
  - apply Z.compare_eq in Hc. subst ex. intros Hle. split; [lia|].
    destruct (Pos.compare_cont Eq p m) eqn:Hm; try discriminate.
    intros _. apply Pos.compare_eq in Hm. subst m. reflexivity.
  - intros _. split; [|discriminate].
    pose proof (Z.compare_spec e1 ex) as Hs. rewrite Hc in Hs. inversion Hs. lia.
Qed.

(** In [binary32], a first-stage value of at least one makes the second
    stage exactly one: the reciprocal of one and the product with it are
    exact. *)
Lemma stage2_exact_32 (e : spec_float) :
  valid_binary 24 128 e = true ->
  SFleb (Rounded.one Rounded.binary32) e = true ->
  Rounded.stage2_prob Rounded.binary32 e (Rounded.stage1_prob Rounded.binary32 e)
  = Rounded.one Rounded.binary32.
Proof.
  intros Hv Hle.
  destruct e as [s | s | | s m ex]; try discriminate;
    try (destruct s; [discriminate | reflexivity]).
  destruct s; [discriminate|].
  unfold Rounded.stage2_prob, Rounded.stage1_prob, Rounded.clamp_max_one.
  change (Rounded.one Rounded.binary32) with (S754_finite false 8388608 (-23)) in *.
  cbn [Rounded.prec Rounded.emax Rounded.binary32].
  destruct (at_least_one_normal _ _ _ _ Hle) as [Hex Hsame].
  cbn [valid_binary] in Hv. unfold bounded, canonical_mantissa in Hv.
  apply andb_prop in Hv. destruct Hv as [Hcan Hmax].
  apply Z.eqb_eq in Hcan. apply Z.leb_le in Hmax.
  unfold fexp, emin in Hcan.
  assert (Hd : digits2_pos m = 24%positive) by lia.
  set (e := S754_finite false m ex) in *.
  set (o := S754_finite false 8388608 (-23)) in *.
  assert (Ha : (if SFltb o e then o else e) = o).
  { destruct (SFltb o e); [reflexivity | apply Hsame; reflexivity]. }
  rewrite Ha. change (SFdiv 24 128 o o) with o.
  assert (Hmul : SFmul 24 128 e o = e)
    by (unfold e, o; apply mul_one_32; [exact Hd | lia]).
  rewrite Hmul. unfold e. cbv iota. fold e. exact Ha.
Qed.

(** The same in [binary64]. *)
Lemma stage2_exact_64 (e : spec_float) :
  valid_binary 53 1024 e = true ->
  SFleb (Rounded.one Rounded.binary64) e = true ->
  Rounded.stage2_prob Rounded.binary64 e (Rounded.stage1_prob Rounded.binary64 e)
  = Rounded.one Rounded.binary64.
Proof.
  intros Hv Hle.
  destruct e as [s | s | | s m ex]; try discriminate;
    try (destruct s; [discriminate | reflexivity]).
  destruct s; [discriminate|].
  unfold Rounded.stage2_prob, Rounded.stage1_prob, Rounded.clamp_max_one.
  change (Rounded.one Rounded.binary64)
    with (S754_finite false 4503599627370496 (-52)) in *.
  cbn [Rounded.prec Rounded.emax Rounded.binary64].
  destruct (at_least_one_normal _ _ _ _ Hle) as [Hex Hsame].
  cbn [valid_binary] in Hv. unfold bounded, canonical_mantissa in Hv.
  apply andb_prop in Hv. destruct Hv as [Hcan Hmax].
  apply Z.eqb_eq in Hcan. apply Z.leb_le in Hmax.
  unfold fexp, emin in Hcan.
  assert (Hd : digits2_pos m = 53%positive) by lia.
  set (e := S754_finite false m ex) in *.
  set (o := S754_finite false 4503599627370496 (-52)) in *.
  assert (Ha : (if SFltb o e then o else e) = o).
  { destruct (SFltb o e); [reflexivity | apply Hsame; reflexivity]. }
  rewrite Ha. change (SFdiv 53 1024 o o) with o.
  assert (Hmul : SFmul 53 1024 e o = e)
    by (unfold e, o; apply mul_one_64; [exact Hd | lia]).
  rewrite Hmul. unfold e. cbv iota. fold e. exact Ha.
Qed.

End RoundedFacts.




(* ================================================================== *)
(** ** The langevin proposal of the delayed-acceptance driver *)

(** C8 (failing input).  On an [NVMCMCDA] instance built with
    [proposal_type = langevin], [proposal] records the call and raises
    [AttributeError] for [log_likelihood], whatever the point, the step
    size, the models and the generator: no proposal is returned.  So
    [run_chain] raises at its first proposal, in Phase A when
    [iter_mcmc > 0] and otherwise in Phase B when [iter_da > 0]. *)
Theorem da_langevin_proposal_raises {G} `{RandomSource G}
        (nparameters iter_mcmc iter_da : nat) (step_size : fval)
        (outer inner : vec -> fval) (th : vec) (d : fval) (w : world G) :
  let build := fun n_mcmc n_da =>
                 NavierStokes.NVMCMCDA nparameters n_mcmc n_da langevin
                                       step_size outer inner in
  MCMCDA.proposal (build iter_mcmc iter_da) th d w
  = Raise (AttributeError "log_likelihood")
          {| gen := gen w; trace := trace w ++ [EvProposal th d] |} /\
  (forall fuel samples verbose,
      exit_of (MCMCDA.run_chain (build (S iter_mcmc) iter_da) fuel samples verbose w)
      = Raised (AttributeError "log_likelihood")) /\
  (forall fuel samples verbose,
      exit_of (MCMCDA.run_chain (build O (S iter_da)) (S fuel) samples verbose w)
      = Raised (AttributeError "log_likelihood")).
Proof.
  intros build. split; [reflexivity|].
  split; intros fuel samples verbose;
    unfold MCMCDA.run_chain, MCMCDA.coarse_burn_in, bind, draw;
    destruct (uniform_ _ (gen w)) as [theta0 g']; reflexivity.
Qed.

(** The sibling method of the single-stage driver does return the
    langevin proposal, when its likelihood has a gradient. *)
Lemma mh_langevin_proposal_returns {G} `{RandomSource G}
      (self : MetropolisHastings.t) (th gradient : vec) (d : fval) (w : world G) :
  MetropolisHastings.proposal_type self = langevin ->
  MetropolisHastings.grad_log_likelihood self th = Some gradient ->
  exists z w',
    MetropolisHastings.proposal self th d w = Ok
      (vadd (vadd th (vscale (fmul (Fin 0.5) d) gradient))
            (vscale d (of_reals z))) w' /\
    z = fst (randn (length th) (gen w)).
Proof.
  intros Hl Hgrad. unfold MetropolisHastings.proposal. rewrite Hl.
  unfold bind, emit, MetropolisHastings.call_log_likelihood, bind, emit, ret.
  rewrite Hgrad. unfold bind, draw, ret.
  simpl. destruct (randn (length th) (gen w)) as [z g'] eqn:Hz.
  exists z. eexists. split; reflexivity.
Qed.

(* ================================================================== *)
(** ** The acceptance rate of the single-stage driver *)

Lemma flat_mh_posterior (n_samples n_burnin : nat) :
  flat_posterior (Examples.flat_mh n_samples n_burnin).
Proof.
  intros th th'. unfold MetropolisHastings.posterior. simpl.
  rewrite exp_diff_self. f_equal. unfold Rmin. destruct (Rle_dec 1 1); lra.
Qed.

(** C2 (failing input).  With one sample after a burn-in of two and a flat
    posterior, [run_chain] returns the rate [3]: the three acceptances,
    two of them during burn-in, over [nsamples = 1].  The rate is not in
    [0, 1]. *)
Theorem mh_rate_exceeds_one :
  exists kept rate w',
    MetropolisHastings.run_chain (Examples.flat_mh 1 2) false Examples.w0
    = Ok (kept, Fin rate) w' /\
    rate = 3 /\ ~ (0 <= rate <= 1).
Proof.
  destruct (@mh_flat_rate nat Scripted.source scripted_laws (Examples.flat_mh 1 2)
              (flat_mh_posterior 1 2) eq_refl false (/ 10) Examples.w0)
    as (kept & w' & Hrun).
  - left. reflexivity.
  - reflexivity.
  - lra.
  - simpl. discriminate.
  - exists kept, (INR (1 + 2) / INR 1), w'. split; [exact Hrun|].
    simpl. split; lra.
Qed.

(* ================================================================== *)
(** ** The Moreau-Yosida prior *)

Section PriorFacts.
Import MoreauYosidaPrior.

Lemma regularization_term_Fin (lambda : R) (bs : list nat) (x : R) :
  0 < lambda ->
  regularization_term {| lam := Fin lambda; batch_shape := bs |} (Fin x)
  = Fin (penalty lambda x).
Proof.
  intros Hl. unfold regularization_term. simpl.
  assert (H2 : 0 < 2 * lambda) by lra.
  rewrite (sgn_pos H2). f_equal. unfold penalty, Rminus. simpl pow.
  field. lra.
Qed.

Lemma log_normalizer_Fin (lambda : R) (bs : list nat) :
  0 < lambda ->
  log_normalizer {| lam := Fin lambda; batch_shape := bs |}
  = Fin (log_constant lambda).
Proof.
  intros Hl. unfold log_normalizer. simpl.
  assert (Hp : 0 < 2 * PI * lambda).
  { apply Rmult_lt_0_compat; [|exact Hl]. pose proof PI_RGT_0. lra. }
  rewrite (sgn_pos Hp). simpl.
  assert (Hs : 0 < 2 + sqrt (2 * PI * lambda)).
  { pose proof (sqrt_pos (2 * PI * lambda)). lra. }
  rewrite (sgn_pos Hs). reflexivity.
Qed.

Lemma fsum_of_reals (l : list R) (acc : R) :
  fold_left fadd (of_reals l) (Fin acc) = Fin (acc + fold_right Rplus 0 l).
Proof.
  revert acc. induction l as [|x l IH]; intros acc; simpl.
  - f_equal. lra.
  - rewrite IH. f_equal. lra.
Qed.

Lemma fsum_zeros (l : vec) :
  Forall (fun x => x = Fin 0) l -> fsum l = Fin 0.
Proof.
  unfold fsum. induction 1 as [|x l Hx Hl IH]; simpl.
  - reflexivity.
  - rewrite Hx. simpl. replace (0 + 0) with 0 by lra. exact IH.
Qed.

Lemma normal_log_prob_finite (x : R) : finite (normal_log_prob 0 2 (Fin x)).
Proof.
  unfold normal_log_prob. simpl fsub at 3 4. simpl fmul. simpl fneg.
  assert (Hv : 0 < 2 * (2 * 2)) by lra.
  rewrite (fdiv_Fin _ Hv). simpl. eexists. reflexivity.
Qed.

(** With an infinite smoothing scale every importance weight is zero. *)
Lemma infinite_scale_weights (bs sh : list nat) (xs : list R) :
  Forall (fun x => x = Fin 0)
         (data (importance_weights {| lam := PInf; batch_shape := bs |}
                                   (Tensor sh (of_reals xs)))).
Proof.
  unfold importance_weights, log_prob, tsub, tmap. simpl data.
  induction xs as [|x xs IH]; simpl.
  - constructor.
  - constructor; [|exact IH].
    destruct (normal_log_prob_finite x) as [q Hq]. rewrite Hq.
    unfold regularization_term, log_normalizer. simpl.
    unfold inf_times.
    assert (H2 : 0 < 2) by lra.
    assert (Hp : 0 < 2 * PI) by (pose proof PI_RGT_0; lra).
    rewrite (sgn_pos H2), (sgn_pos Hp). simpl.
    f_equal. unfold Rmax. destruct (Rle_dec 0 0); lra.
Qed.

End PriorFacts.

(** C7 (amended).  For a positive smoothing scale and real entries,
    [log_prob] returns a tensor of the shape of its argument whose entry
    at each coordinate is that coordinate's penalty less the normalising
    constant; the sum of these entries is the value the specification
    describes. *)
Theorem log_prob_elementwise (lambda : R) (bs sh : list nat) (xs : list R) :
  0 < lambda ->
  let self := {| MoreauYosidaPrior.lam := Fin lambda;
                 MoreauYosidaPrior.batch_shape := bs |} in
  let out := MoreauYosidaPrior.log_prob self (MoreauYosidaPrior.Tensor sh (of_reals xs)) in
  out = MoreauYosidaPrior.Tensor sh
          (of_reals (map (fun x => MoreauYosidaPrior.penalty lambda x
                                   - MoreauYosidaPrior.log_constant lambda) xs)) /\
  fsum (MoreauYosidaPrior.data out) = Fin (MoreauYosidaPrior.log_prob_spec lambda xs).
Proof.
  intros Hl self out.
  assert (Hout : out = MoreauYosidaPrior.Tensor sh
            (of_reals (map (fun x => MoreauYosidaPrior.penalty lambda x
                                     - MoreauYosidaPrior.log_constant lambda) xs))).
  { subst out self. unfold MoreauYosidaPrior.log_prob, MoreauYosidaPrior.tmap.
    simpl. f_equal. rewrite (log_normalizer_Fin bs Hl).
    unfold of_reals. rewrite !map_map. apply map_ext. intros x.
    rewrite (regularization_term_Fin bs x Hl). reflexivity. }
  split; [exact Hout|].
  rewrite Hout. simpl. unfold fsum. rewrite fsum_of_reals.
  unfold MoreauYosidaPrior.log_prob_spec. f_equal. lra.
Qed.

Lemma log_prob_elementwise_witness :
  let self := {| MoreauYosidaPrior.lam := Fin 1;
                 MoreauYosidaPrior.batch_shape := [] |} in
  let out := MoreauYosidaPrior.log_prob self
               (MoreauYosidaPrior.Tensor [2%nat] (of_reals [0; 2])) in
  out = MoreauYosidaPrior.Tensor [2%nat]
          (of_reals (map (fun x => MoreauYosidaPrior.penalty 1 x
                                   - MoreauYosidaPrior.log_constant 1) [0; 2])) /\
  fsum (MoreauYosidaPrior.data out) = Fin (MoreauYosidaPrior.log_prob_spec 1 [0; 2]).
Proof.
  apply (@log_prob_elementwise 1 [] [2%nat] [0; 2]). lra.
Defined.

(** C7, as stated, fails: on a vector of two coordinates [log_prob] returns
    a vector of two entries, not the scalar holding their sum. *)
Lemma log_prob_returns_a_vector :
  let self := {| MoreauYosidaPrior.lam := Fin 1;
                 MoreauYosidaPrior.batch_shape := [] |} in
  let out := MoreauYosidaPrior.log_prob self
               (MoreauYosidaPrior.Tensor [2%nat] (of_reals [0; 2])) in
  MoreauYosidaPrior.shape out = [2%nat] /\
  length (MoreauYosidaPrior.data out) = 2%nat /\
  out <> MoreauYosidaPrior.Tensor
           [] [Fin (MoreauYosidaPrior.log_prob_spec 1 [0; 2])].
Proof.
  intros self out. split; [reflexivity|]. split; [reflexivity|].
  intros Heq. apply (f_equal MoreauYosidaPrior.shape) in Heq.
  simpl in Heq. discriminate.
Qed.

(** C9.  When every importance weight of the drawn proposals is zero,
    [sample] returns those proposals as they were drawn: it neither raises
    nor resamples. *)
Theorem sample_falls_back_on_zero_weights {G} `{RandomSource G}
        (self : MoreauYosidaPrior.t) (sample_shape : list nat)
        (w w1 : world G) (proposals : MoreauYosidaPrior.tensor) :
  MoreauYosidaPrior.draw_proposals
    (MoreauYosidaPrior.batch_shape self ++ sample_shape) w = Ok proposals w1 ->
  Forall (fun x => x = Fin 0)
         (MoreauYosidaPrior.data (MoreauYosidaPrior.importance_weights self proposals)) ->
  MoreauYosidaPrior.sample self sample_shape w = Ok proposals w1.
Proof.
  intros Hdraw Hzero. unfold MoreauYosidaPrior.sample, bind. rewrite Hdraw.
  rewrite (fsum_zeros Hzero). rewrite fltb_Fin_false by lra. reflexivity.
Qed.

Lemma sample_falls_back_on_zero_weights_witness :
  let drawn := MoreauYosidaPrior.Tensor [2%nat] (of_reals [0 + 2 * 0; 0 + 2 * 0]) in
  MoreauYosidaPrior.sample Examples.degenerate_prior [2%nat] Examples.w0
  = Ok drawn Examples.w0.
Proof.
  intros drawn.
  apply (@sample_falls_back_on_zero_weights nat Scripted.source
           Examples.degenerate_prior [2%nat] Examples.w0 Examples.w0 drawn).
  - reflexivity.
  - apply infinite_scale_weights.
Defined.

(* ================================================================== *)
(** ** The seeds of [run_chains] *)

Lemma seed_bound_positive : (0 < MetropolisHastings.seed_bound)%nat.
Proof.
  unfold MetropolisHastings.seed_bound. lia.
Qed.

Lemma nth_over_seq {A} (l : list A) (d : A) :
  map (fun i => nth i l d) (seq 0 (length l)) = l.
Proof.
  induction l as [|x l IH]; simpl; [reflexivity|].
  f_equal. rewrite <- seq_shift, map_map. exact IH.
Qed.

Section SeedFacts.
Context {G : Type} `{RandomSource G}.
Variable self : MetropolisHastings.t.

(** [run_chains] draws its seeds first and starts one process on each. *)
Lemma run_chains_unfold (nchains : nat) (w w' : world G) (seeds : list nat) :
  MetropolisHastings.draw_seeds (G:=G) nchains w = Ok seeds w' ->
  length seeds = nchains ->
  exists procs,
    MetropolisHastings.run_chains self nchains w = Ok procs w' /\
    map (@MetropolisHastings.seed G) procs = seeds /\
    Forall (fun p => MetropolisHastings.result p
                     = MetropolisHastings._run_chain self (MetropolisHastings.seed p))
           procs.
Proof.
  intros Hdraw Hlen. unfold MetropolisHastings.run_chains, bind.
  rewrite Hdraw. eexists. split; [reflexivity|]. split.
  - rewrite map_map. simpl. rewrite <- Hlen. apply nth_over_seq.
  - apply Forall_forall. intros p Hp. apply in_map_iff in Hp.
    destruct Hp as (i & <- & _). reflexivity.
Qed.

Lemma draw_seeds_in_range `{!RandomSourceLaws} (nchains : nat) (w : world G) :
  exists seeds w',
    MetropolisHastings.draw_seeds (G:=G) nchains w = Ok seeds w' /\
    length seeds = nchains /\
    Forall (fun sd => (sd < MetropolisHastings.seed_bound)%nat) seeds.
Proof.
  revert w. induction nchains as [|n IH]; intros w; simpl.
  - exists [], w. repeat split. constructor.
  - unfold bind, draw.
    pose proof (randint_range (gen w) seed_bound_positive) as Hr.
    destruct (randint MetropolisHastings.seed_bound (gen w)) as [sd g'].
    simpl in Hr.
    destruct (IH {| gen := g'; trace := trace w |}) as (seeds & w' & Hrun & Hlen & Hall).
    rewrite Hrun. exists (sd :: seeds), w'. simpl.
    repeat split; [congruence | constructor; assumption].
Qed.

End SeedFacts.

Lemma scripted_seeds (nchains : nat) (w : world nat) :
  MetropolisHastings.draw_seeds nchains w
  = Ok (repeat 7%nat nchains) {| gen := (nchains + gen w)%nat; trace := trace w |}.
Proof.
  revert w. induction nchains as [|n IH]; intros [g t].
  - reflexivity.
  - cbn [MetropolisHastings.draw_seeds]. unfold bind at 1. unfold draw.
    cbn [gen trace randint Scripted.source].
    unfold bind. rewrite IH. cbn [gen trace ret repeat]. unfold ret.
    rewrite Nat.mod_small by (unfold MetropolisHastings.seed_bound; lia).
    rewrite Nat.add_succ_r. reflexivity.
Qed.

(** More draws than there are seed values cannot all differ. *)
Lemma bounded_seeds_repeat (bound : nat) (seeds : list nat) :
  Forall (fun sd => (sd < bound)%nat) seeds ->
  (bound < length seeds)%nat -> ~ NoDup seeds.
Proof.
  intros Hall Hlen Hnd.
  assert (Hincl : incl seeds (seq 0 bound)).
  { intros sd Hin. rewrite Forall_forall in Hall. apply in_seq.
    specialize (Hall sd Hin). lia. }
  pose proof (NoDup_incl_length Hnd Hincl) as Hle.
  rewrite length_seq in Hle. lia.
Qed.

(** [draw_seeds] returns the successive draws of [torch.randint] and leaves
    the generator the last of them left. *)
Lemma draw_seeds_successive {G} `{RandomSource G} (nchains : nat) (w : world G) :
  MetropolisHastings.draw_seeds nchains w
  = Ok (map (drawn_seed (gen w)) (seq 0 nchains))
       {| gen := generator_after nchains (gen w); trace := trace w |}.
Proof.
  revert w. induction nchains as [|n IH]; intros [g t].
  - reflexivity.
  - cbn [MetropolisHastings.draw_seeds]. unfold bind at 1. unfold draw.
    cbn [gen trace].
    destruct (randint MetropolisHastings.seed_bound g) as [sd g'] eqn:Hdraw.
    unfold bind. rewrite IH. cbn [gen trace]. unfold ret.
    cbn [seq map generator_after]. rewrite Hdraw. cbn [snd].
    f_equal. f_equal.
    + unfold drawn_seed. cbn [generator_after]. rewrite Hdraw. reflexivity.
    + rewrite <- seq_shift, map_map. apply map_ext. intros i.
      unfold drawn_seed. cbn [generator_after]. rewrite Hdraw. reflexivity.
Qed.

(** C10 (amended).  [run_chains] draws [nchains] seeds, one call of
    [torch.randint] after the other on the generator of the parent, each
    below 100000, and starts the process at position [i] on the seed drawn
    at position [i]; the parent's generator is left where the last draw
    left it.  Nothing makes the seeds distinct, and beyond 100000 chains
    they cannot be. *)
Theorem run_chains_seeds {G} `{RandomSourceLaws G} (self : MetropolisHastings.t)
        (nchains : nat) (w : world G) :
  exists procs,
    MetropolisHastings.run_chains self nchains w
    = Ok procs {| gen := generator_after nchains (gen w); trace := trace w |} /\
    map (@MetropolisHastings.seed G) procs = map (drawn_seed (gen w)) (seq 0 nchains) /\
    length procs = nchains /\
    Forall (fun p => (MetropolisHastings.seed p < MetropolisHastings.seed_bound)%nat /\
                     MetropolisHastings.result p
                     = MetropolisHastings._run_chain self (MetropolisHastings.seed p))
           procs /\
    ((MetropolisHastings.seed_bound < nchains)%nat ->
     ~ NoDup (map (@MetropolisHastings.seed G) procs)).
Proof.
  pose proof (draw_seeds_successive nchains w) as Hdraw.
  set (seeds := map (drawn_seed (gen w)) (seq 0 nchains)) in *.
  assert (Hlen : length seeds = nchains).
  { unfold seeds. rewrite length_map. apply length_seq. }
  assert (Hall : Forall (fun sd => (sd < MetropolisHastings.seed_bound)%nat) seeds).
  { unfold seeds. apply Forall_forall. intros sd Hin. apply in_map_iff in Hin.
    destruct Hin as (i & <- & _). unfold drawn_seed.
    apply randint_range. exact seed_bound_positive. }
  destruct (@run_chains_unfold G _ self nchains w _ seeds Hdraw Hlen)
    as (procs & Hrun & Hseeds & Hres).
  exists procs. split; [exact Hrun|]. split; [exact Hseeds|].
  assert (Hlp : length procs = nchains).
  { rewrite <- Hlen, <- Hseeds. symmetry. apply length_map. }
  split; [exact Hlp|]. split.
  - rewrite <- Hseeds in Hall. rewrite Forall_map in Hall.
    rewrite Forall_forall in *. intros p Hp. split; [apply Hall | apply Hres]; exact Hp.
  - intros Hmany. rewrite Hseeds.
    apply (bounded_seeds_repeat Hall). lia.
Qed.

Lemma run_chains_seeds_witness :
  let self := Examples.flat_mh 1 0 in
  exists procs,
    MetropolisHastings.run_chains self 3 Examples.w0
    = Ok procs {| gen := generator_after 3 (gen Examples.w0);
                  trace := trace Examples.w0 |} /\
    map (@MetropolisHastings.seed nat) procs
    = map (drawn_seed (gen Examples.w0)) (seq 0 3) /\
    length procs = 3%nat /\
    Forall (fun p => (MetropolisHastings.seed p < MetropolisHastings.seed_bound)%nat /\
                     MetropolisHastings.result p
                     = MetropolisHastings._run_chain self (MetropolisHastings.seed p))
           procs /\
    ((MetropolisHastings.seed_bound < 3)%nat ->
     ~ NoDup (map (@MetropolisHastings.seed nat) procs)).
Proof.
  intros self.
  exact (@run_chains_seeds nat Scripted.source scripted_laws self 3 Examples.w0).
Defined.

(** C10, as stated, fails: two chains can be started on the same seed. *)
Lemma run_chains_seeds_collide :
  exists procs w',
    MetropolisHastings.run_chains (Examples.flat_mh 1 0) 2 Examples.w0 = Ok procs w' /\
    map (@MetropolisHastings.seed nat) procs = [7; 7]%nat /\
    ~ NoDup (map (@MetropolisHastings.seed nat) procs).
Proof.
  destruct (@run_chains_unfold nat Scripted.source (Examples.flat_mh 1 0) 2
              Examples.w0 _ _ (scripted_seeds 2 Examples.w0) eq_refl)
    as (procs & Hrun & Hseeds & _).
  exists procs. eexists. split; [exact Hrun|]. split; [exact Hseeds|].
  rewrite Hseeds. intros Hnd. inversion Hnd as [|x l Hin _]; subst.
  apply Hin. left. reflexivity.
Qed.

(* ================================================================== *)
(** ** The single-stage driver in detail *)

Lemma set_row_length {A} (i : nat) (row : A) (m : list A) :
  length (set_row i row m) = length m.
Proof.
  revert i. induction m as [|r m IH]; intros [|i]; simpl; auto.
Qed.

Lemma set_row_Forall {A} (P : A -> Prop) (i : nat) (row : A) (m : list A) :
  P row -> Forall P m -> Forall P (set_row i row m).
Proof.
  intros Hrow Hm. revert i. induction Hm as [|r m Hr Hm IH]; intros [|i]; simpl;
    constructor; auto.
Qed.

Section SingleStageDetail.
Context {G : Type} `{RandomSource G}.
Variable self : MetropolisHastings.t.

Lemma mh_proposal_detail (th : vec) (d : fval) :
  triple (MetropolisHastings.proposal self th d)
         (fun _ x => match x with
                     | Returned _ => True
                     | Raised _ => mh_proposal_fails self d
                     | Exhausted => False
                     end).
Proof.
  unfold MetropolisHastings.proposal, MetropolisHastings.call_log_likelihood,
    mh_proposal_fails.
  apply triple_emit_bind.
  destruct (MetropolisHastings.proposal_type self).
  - eapply triple_bind; [apply torch_normal_spec | | |].
    + intros tb1 noise _. apply triple_ret. exact I.
    + intros tb1 e [_ Hstd]. auto.
    + intros tb1 [_ []].
  - exec. destruct (MetropolisHastings.grad_log_likelihood self th) eqn:Hgrad.
    + exec. apply triple_ret. exact I.
    + apply triple_raise. right. split; [reflexivity|]. exists th. exact Hgrad.
Qed.

(** One iteration of the loop of [run_chain]. *)
Lemma mh_step_detail (verbose : bool) (i : nat) (s : MetropolisHastings.locals) :
  triple (MetropolisHastings.step self verbose i s)
         (fun _ x =>
            match x with
            | Returned s' =>
                report_ok verbose (MetropolisHastings.nsamples self / 10) /\
                mh_moved self i s s'
            | Raised _ =>
                mh_proposal_fails self (MetropolisHastings.dt s) \/
                ~ report_ok verbose (MetropolisHastings.nsamples self / 10)
            | Exhausted => False
            end).
Proof.
  unfold MetropolisHastings.step, MetropolisHastings.log_posterior,
    MetropolisHastings.call_log_likelihood.
  eapply triple_bind; [apply mh_proposal_detail | | |].
  - intros tb1 theta_proposal _. exec.
    eapply triple_bind; [apply progress_report_spec | | |].
    + intros tb2 [] [_ Hok]. apply triple_ret. split; [exact Hok|].
      exists theta_proposal, g. unfold mh_acceptance. simpl.
      repeat split; reflexivity.
    + intros tb2 e [_ [_ Hno]]. right. exact Hno.
    + intros tb2 [_ []].
  - intros tb1 e Hfail. left. exact Hfail.
  - intros tb1 [].
Qed.

(** What holds of any run of [run_chain] that returns. *)
Lemma mh_run_chain_detail (verbose : bool) (w w' : world G)
      (kept : list vec) (rate : fval) :
  MetropolisHastings.run_chain self verbose w = Ok (kept, rate) w' ->
  let n := MetropolisHastings.nsamples self in
  let b := MetropolisHastings.burnin self in
  n <> O /\ report_ok verbose (n / 10) /\ length kept = n /\
  exists k, (k <= n + b)%nat /\ rate = Fin (INR k / INR n).
Proof.
  intros Hrun n b.
  assert (Ht : triple (MetropolisHastings.run_chain self verbose)
                 (fun _ x =>
                    match x with
                    | Returned (smp, r) =>
                        n <> O /\ report_ok verbose (n / 10) /\ length smp = n /\
                        exists k, (k <= n + b)%nat /\ r = Fin (INR k / INR n)
                    | _ => True
                    end)).
  { unfold MetropolisHastings.run_chain. fold n b. exec.
    set (J := fun (k : nat) (_ : list event) (s : MetropolisHastings.locals) =>
                length (MetropolisHastings.samples s) = (n + b)%nat /\
                (MetropolisHastings.accepted_proposals s <= k)%nat /\
                ((0 < k)%nat -> report_ok verbose (n / 10))).
    eapply triple_bind.
    - apply (triple_for_from (MetropolisHastings.step self verbose) J
                             (fun _ _ => True)) with (tb := []) (i := O).
      + intros k tb s (Hlen & Hacc & Hrep).
        eapply triple_weaken; [apply mh_step_detail|].
        intros tb2 [s' | e |]; auto.
        intros (Hok & th' & g0 & Hth & Hsmp & Hcnt & _).
        split; [rewrite Hsmp, set_row_length; exact Hlen|].
        split; [|intros _; exact Hok].
        rewrite Hcnt. destruct (fltb _ _); lia.
      + split; [apply repeat_length|]. split; [simpl; lia | lia].
    - intros tb1 s (Hlen & Hacc & Hrep). simpl in Hacc, Hrep.
      unfold py_truediv. destruct (Nat.eqb n 0) eqn:Hn.
      + apply triple_bind
          with (Q1 := fun _ x => match x with Returned _ => False | _ => True end);
          auto.
        * apply triple_raise. exact I.
        * intros tb2 a [].
      + apply Nat.eqb_neq in Hn. exec. apply triple_ret.
        split; [exact Hn|]. split; [apply Hrep; lia|].
        split; [rewrite length_skipn, Hlen; lia|].
        exists (MetropolisHastings.accepted_proposals s). auto.
    - auto.
    - auto. }
  destruct (Ht w) as (tb & _ & Hpost). rewrite Hrun in Hpost. exact Hpost.
Qed.

End SingleStageDetail.

(** X1.  Whenever [run_chain] returns, the buffer it hands back has exactly
    [nsamples] rows and the rate is [k / nsamples] for a number [k] of
    acceptances between [0] and [nsamples + burnin]: it is never negative
    and never above [1 + burnin / nsamples]. *)
Theorem mh_run_chain_shape {G} `{RandomSource G} (self : MetropolisHastings.t)
        (verbose : bool) (w w' : world G) (kept : list vec) (rate : fval) :
  MetropolisHastings.run_chain self verbose w = Ok (kept, rate) w' ->
  let n := MetropolisHastings.nsamples self in
  let b := MetropolisHastings.burnin self in
  length kept = n /\
  exists k, (k <= n + b)%nat /\ rate = Fin (INR k / INR n) /\
            0 <= INR k / INR n <= 1 + INR b / INR n.
Proof.
  intros Hrun n b.
  destruct (@mh_run_chain_detail G _ self verbose w w' kept rate Hrun)
    as (Hn & _ & Hlen & k & Hk & Hrate).
  fold n b in Hn, Hlen, Hk, Hrate.
  split; [exact Hlen|]. exists k. split; [exact Hk|]. split; [exact Hrate|].
  assert (Hpos : 0 < INR n) by (apply lt_0_INR; lia).
  assert (Hkr : INR k <= INR n + INR b).
  { rewrite <- plus_INR. apply le_INR. exact Hk. }
  pose proof (pos_INR k) as Hk0.
  split.
  - apply Rmult_le_pos; [exact Hk0 | left; apply Rinv_0_lt_compat; exact Hpos].
  - replace (1 + INR b / INR n) with ((INR n + INR b) / INR n) by (field; lra).
    unfold Rdiv. apply Rmult_le_compat_r; [|exact Hkr].
    left. apply Rinv_0_lt_compat. exact Hpos.
Qed.

Lemma mh_run_chain_shape_witness :
  exists kept rate w',
    MetropolisHastings.run_chain (Examples.flat_mh 4 2) false Examples.w0
    = Ok (kept, rate) w' /\
    length kept = 4%nat /\
    exists k, (k <= 4 + 2)%nat /\ rate = Fin (INR k / INR 4) /\
              0 <= INR k / INR 4 <= 1 + INR 2 / INR 4.
Proof.
  destruct (@mh_flat_rate nat Scripted.source scripted_laws (Examples.flat_mh 4 2)
              (flat_mh_posterior 4 2) eq_refl false (/ 10) Examples.w0)
    as (kept & w' & Hrun).
  - left. reflexivity.
  - reflexivity.
  - lra.
  - simpl. discriminate.
  - exists kept. eexists. exists w'. split; [exact Hrun|].
    exact (@mh_run_chain_shape nat Scripted.source (Examples.flat_mh 4 2) false
             Examples.w0 w' kept _ Hrun).
Defined.

(** X2.  [run_chain] returns only when [nsamples] is at least one, and, with
    [verbose] set, at least ten: otherwise the final division or the
    remainder taken by the progress report is by zero. *)
Theorem mh_run_chain_needs {G} `{RandomSource G} (self : MetropolisHastings.t)
        (verbose : bool) (w w' : world G) (kept : list vec) (rate : fval) :
  MetropolisHastings.run_chain self verbose w = Ok (kept, rate) w' ->
  (1 <= MetropolisHastings.nsamples self)%nat /\
  (verbose = true -> (10 <= MetropolisHastings.nsamples self)%nat).
Proof.
  intros Hrun.
  destruct (@mh_run_chain_detail G _ self verbose w w' kept rate Hrun)
    as (Hn & Hrep & _).
  split; [lia|]. intros Hv. destruct Hrep as [Hoff | Hdiv]; [congruence|].
  destruct (Nat.le_gt_cases 10 (MetropolisHastings.nsamples self)) as [Hle | Hlt];
    [exact Hle|].
  exfalso. apply Hdiv. apply Nat.div_small. exact Hlt.
Qed.

Lemma mh_run_chain_needs_witness :
  exists kept rate w',
    MetropolisHastings.run_chain (Examples.flat_mh 10 1) true Examples.w0
    = Ok (kept, rate) w' /\
    (1 <= 10)%nat /\ (true = true -> (10 <= 10)%nat).
Proof.
  destruct (@mh_flat_rate nat Scripted.source scripted_laws (Examples.flat_mh 10 1)
              (flat_mh_posterior 10 1) eq_refl true (/ 10) Examples.w0)
    as (kept & w' & Hrun).
  - right. simpl. discriminate.
  - reflexivity.
  - lra.
  - simpl. discriminate.
  - exists kept. eexists. exists w'. split; [exact Hrun|].
    exact (@mh_run_chain_needs nat Scripted.source (Examples.flat_mh 10 1) true
             Examples.w0 w' kept _ Hrun).
Defined.

(* ================================================================== *)
(** ** The box prior *)

Lemma box_coordinate (x : fval) :
  fgeb x (Fin (-1)) && NavierStokes.fleb x (Fin 1) = true ->
  exists r, x = Fin r /\ -1 <= r <= 1.
Proof.
  unfold NavierStokes.fleb. destruct x as [r | | |]; simpl; try discriminate.
  destruct (Rlt_dec r (-1)); simpl; [discriminate|].
  destruct (Rlt_dec 1 r); simpl; [discriminate|].
  intros _. exists r. split; [reflexivity | lra].
Qed.

(** The prior is [0] on the box and [-inf] everywhere else, NaN and
    infinite coordinates included. *)
Lemma log_prior_support (th : vec) :
  (NavierStokes.log_prior th = Fin 0 /\ in_box th) \/
  (NavierStokes.log_prior th = NInf /\ ~ in_box th).
Proof.
  unfold NavierStokes.log_prior.
  destruct (forallb _ th) eqn:Hall.
  - left. split; [reflexivity|]. rewrite forallb_forall in Hall.
    apply Forall_forall. intros x Hx. apply box_coordinate. auto.
  - right. split; [reflexivity|]. intros Hbox.
    assert (Htrue : forallb (fun x => fgeb x (Fin (-1)) && NavierStokes.fleb x (Fin 1)) th
                    = true).
    { apply forallb_forall. intros x Hx. unfold in_box in Hbox.
      rewrite Forall_forall in Hbox. destruct (Hbox x Hx) as (r & -> & Hr).
      unfold NavierStokes.fleb. rewrite !fgeb_Fin_true by lra. reflexivity. }
    congruence.
Qed.

Lemma in_box_log_prior (th : vec) : in_box th -> NavierStokes.log_prior th = Fin 0.
Proof.
  intros Hbox. destruct (log_prior_support th) as [[Hp _] | [_ Hno]];
    [exact Hp | contradiction].
Qed.

(** A log-posterior whose prior part is [-inf] gives an acceptance
    probability of zero or NaN, which no draw of [torch.rand] is below. *)
Lemma outside_support_rejected (l q : fval) (u : R) :
  0 <= u -> fltb (Fin u) (clamp_max 1 (fexp (fsub (fadd NInf l) q))) = false.
Proof.
  intros Hu.
  assert (Hzero : fltb (Fin u) (Fin (Rmin 0 1)) = false).
  { apply fltb_Fin_false. unfold Rmin. destruct (Rle_dec 0 1); lra. }
  destruct l, q; simpl; try reflexivity; exact Hzero.
Qed.

(** From a finite log-posterior, a proposal whose log-posterior is finite or
    [-inf] has an acceptance probability in [0, 1]. *)
Lemma acceptance_real (x : R) (lpp : fval) :
  finite lpp \/ lpp = NInf ->
  exists r, clamp_max 1 (fexp (fsub lpp (Fin x))) = Fin r /\ 0 <= r <= 1.
Proof.
  intros [[y ->] | ->]; simpl.
  - eexists. split; [reflexivity|].
    pose proof (exp_pos (y + - x)). unfold Rmin.
    destruct (Rle_dec (exp (y + - x)) 1); lra.
  - eexists. split; [reflexivity|]. unfold Rmin. destruct (Rle_dec 0 1); lra.
Qed.

Lemma in_box_zeros (n : nat) : in_box (zeros n).
Proof.
  apply Forall_forall. intros x Hx. apply repeat_spec in Hx. subst x.
  exists 0. split; [reflexivity | lra].
Qed.

Lemma in_box_uniform {G} `{RandomSourceLaws G} (n : nat) (g : G) :
  in_box (of_reals (fst (uniform_ n g))).
Proof.
  pose proof (uniform_range n g) as Hr. unfold in_box, of_reals.
  rewrite Forall_map. eapply Forall_impl; [|exact Hr].
  intros x Hx. exists x. split; [reflexivity | lra].
Qed.

(* ================================================================== *)
(** ** The single-stage sampler of [nv_mcmc.py] *)

Section BoxSampler.
Context {G : Type} `{RandomSourceLaws G}.
Variables (nparameters nsamples burnin : nat) (proposal_type : proposal_kind).
Variables (step_size : fval) (log_likelihood_func : vec -> fval).

Let self : MetropolisHastings.t :=
  NavierStokes.NVMCMC nparameters nsamples burnin proposal_type step_size
                      log_likelihood_func.

(** A move that is accepted lands in the box. *)
Lemma box_move_stays (th th' : vec) (g : G) :
  in_box th ->
  in_box (if fltb (Fin (fst (rand g))) (mh_acceptance self th th') then th' else th).
Proof.
  intros Hth. destruct (fltb _ _) eqn:Hacc; [|exact Hth].
  destruct (log_prior_support th') as [[_ Hbox] | [Hout _]]; [exact Hbox|].
  exfalso. unfold mh_acceptance, MetropolisHastings.posterior in Hacc.
  cbn [self NavierStokes.NVMCMC MetropolisHastings.log_prior
       MetropolisHastings.log_likelihood] in Hacc.
  rewrite Hout in Hacc.
  rewrite outside_support_rejected in Hacc by apply (rand_range g).
  discriminate.
Qed.

(** The chain never leaves the box, and neither do the rows of the
    buffer. *)
Lemma box_chain_invariant (verbose : bool) :
  forall n i s,
    in_box (MetropolisHastings.theta s) ->
    Forall in_box (MetropolisHastings.samples s) ->
    triple (for_from i n (MetropolisHastings.step self verbose) s)
           (fun _ x => match x with
                       | Returned s' => in_box (MetropolisHastings.theta s') /\
                                        Forall in_box (MetropolisHastings.samples s')
                       | _ => True
                       end).
Proof.
  intros n i s Hth Hsmp.
  set (J := fun (_ : nat) (_ : list event) (s : MetropolisHastings.locals) =>
              in_box (MetropolisHastings.theta s) /\
              Forall in_box (MetropolisHastings.samples s)).
  eapply triple_weaken;
    [apply (triple_for_from (MetropolisHastings.step self verbose) J
                            (fun _ _ => True)) with (tb := [])|].
  - intros k tb0 s0 [Hth0 Hsmp0].
    eapply triple_weaken; [apply mh_step_detail|].
    intros tb2 [s' | e |]; auto.
    intros (_ & th' & g & Hmove & Hrows & _).
    assert (Hth' : in_box (MetropolisHastings.theta s')).
    { rewrite Hmove. apply box_move_stays. exact Hth0. }
    split; [exact Hth'|]. rewrite Hrows. apply set_row_Forall; assumption.
  - split; assumption.
  - intros tb2 [s' | e |]; auto.
Qed.

End BoxSampler.

Section BoxSamplerReturns.
Context {G : Type} `{RandomSourceLaws G}.
Variables (nparameters nsamples burnin : nat).
Variable log_likelihood_func : vec -> fval.
Variable d : R.
Hypothesis Hfinite : forall th, finite (log_likelihood_func th).
Hypothesis Hstep : 0 < d.

Let self : MetropolisHastings.t :=
  NavierStokes.NVMCMC nparameters nsamples burnin random_walk (Fin d)
                      log_likelihood_func.

Lemma box_acceptance_real (th th' : vec) :
  in_box th ->
  exists r, mh_acceptance self th th' = Fin r /\ 0 <= r <= 1.
Proof.
  intros Hth. unfold mh_acceptance, MetropolisHastings.posterior.
  cbn [self NavierStokes.NVMCMC MetropolisHastings.log_prior
       MetropolisHastings.log_likelihood].
  rewrite (in_box_log_prior Hth).
  destruct (Hfinite th) as [l ->]. destruct (Hfinite th') as [l' ->].
  simpl fadd at 2. apply acceptance_real.
  destruct (log_prior_support th') as [[-> _] | [-> _]]; simpl.
  - left. eexists. reflexivity.
  - right. reflexivity.
Qed.

(** On a likelihood that is finite everywhere, with a positive initial step
    size, the loop of [run_chain] never raises: the point stays in the box
    and the step size stays a positive real. *)
Lemma box_sampler_returns (verbose : bool) (w : world G) :
  nsamples <> O -> report_ok verbose (nsamples / 10) ->
  exists kept rate w',
    MetropolisHastings.run_chain self verbose w = Ok (kept, Fin rate) w'.
Proof.
  intros Hn Hrep.
  assert (Ht : triple (MetropolisHastings.run_chain self verbose)
                 (fun _ x => exists kept rate, x = Returned (kept, Fin rate))).
  { unfold MetropolisHastings.run_chain. exec.
    set (J := fun (_ : nat) (_ : list event) (s : MetropolisHastings.locals) =>
                in_box (MetropolisHastings.theta s) /\
                exists d', MetropolisHastings.dt s = Fin d' /\ 0 < d').
    eapply triple_bind.
    - apply (triple_for_from (MetropolisHastings.step self verbose) J
                             (fun _ _ => False)) with (tb := []) (i := O).
      + intros k tb s [Hth (d' & Hd' & Hpos')].
        eapply triple_weaken; [apply mh_step_detail|].
        intros tb2 [s' | e |]; auto.
        * intros (_ & th' & g0 & Hmove & _ & _ & Hdt).
          split.
          -- rewrite Hmove.
             apply (box_move_stays nparameters nsamples burnin random_walk
                                   (Fin d) log_likelihood_func th' g0 Hth).
          -- destruct (box_acceptance_real th' Hth) as (r & Hr & Hrange).
             fold self in Hdt. rewrite Hdt, Hd', Hr, adapt_Fin.
             eexists. split; [reflexivity|]. apply adapt_step_positive; assumption.
        * intros [[[_ Hfail] | [Hkind _]] | Hno]; [| discriminate | contradiction].
          rewrite Hd', fgeb_Fin_true in Hfail by lra. discriminate.
      + split; [apply in_box_uniform|]. exists d. split; [reflexivity | exact Hstep].
    - intros tb1 s _. unfold py_truediv.
      apply Nat.eqb_neq in Hn.
      cbn [self NavierStokes.NVMCMC MetropolisHastings.nsamples].
      rewrite Hn. exec. apply triple_ret. eauto.
    - intros tb1 e [].
    - intros tb1 []. }
  destruct (Ht w) as (tb & _ & kept & rate & Hx).
  apply exit_of_returned in Hx. destruct Hx as (w' & Hx). eauto.
Qed.

End BoxSamplerReturns.

(** X3.  The sampler of [nv_mcmc.py] never leaves the box: whatever the
    likelihood returns (infinite and NaN values included) and whichever
    proposal is used, every row [run_chain] hands back has all its
    coordinates in [-1, 1]. *)
Theorem box_sampler_stays_in_box {G} `{RandomSourceLaws G}
        (nparameters nsamples burnin : nat) (proposal_type : proposal_kind)
        (step_size : fval) (log_likelihood_func : vec -> fval)
        (verbose : bool) (w w' : world G) (kept : list vec) (rate : fval) :
  MetropolisHastings.run_chain
    (NavierStokes.NVMCMC nparameters nsamples burnin proposal_type step_size
                         log_likelihood_func) verbose w
  = Ok (kept, rate) w' ->
  Forall in_box kept.
Proof.
  intros Hrun.
  set (self := NavierStokes.NVMCMC nparameters nsamples burnin proposal_type
                                   step_size log_likelihood_func) in *.
  assert (Ht : triple (MetropolisHastings.run_chain self verbose)
                 (fun _ x => match x with
                             | Returned (smp, _) => Forall in_box smp
                             | _ => True
                             end)).
  { unfold MetropolisHastings.run_chain. exec.
    eapply triple_bind.
    - apply (box_chain_invariant nparameters nsamples burnin proposal_type
                                 step_size log_likelihood_func verbose).
      + apply in_box_uniform.
      + apply Forall_forall. intros row Hrow. apply repeat_spec in Hrow.
        subst row. apply in_box_zeros.
    - intros tb1 s [_ Hrows]. unfold py_truediv.
      destruct (Nat.eqb _ 0).
      + apply triple_bind
          with (Q1 := fun _ x => match x with Returned _ => False | _ => True end);
          auto.
        * apply triple_raise. exact I.
        * intros tb2 a [].
      + exec. apply triple_ret.
        rewrite <- (firstn_skipn (MetropolisHastings.burnin self)) in Hrows.
        apply Forall_app in Hrows. apply Hrows.
    - auto.
    - auto. }
  destruct (Ht w) as (tb & _ & Hpost). rewrite Hrun in Hpost. exact Hpost.
Qed.

Lemma box_sampler_stays_in_box_witness :
  exists kept rate w',
    MetropolisHastings.run_chain (MoreExamples.box_mh 3 2) false Examples.w0
    = Ok (kept, rate) w' /\
    Forall in_box kept.
Proof.
  destruct (@box_sampler_returns nat Scripted.source scripted_laws 1 3 2
              Examples.constant_zero (/ 10)
              (fun _ => ex_intro _ 0 eq_refl) ltac:(lra) false Examples.w0)
    as (kept & rate & w' & Hrun).
  - discriminate.
  - left. reflexivity.
  - exists kept, (Fin rate), w'. split; [exact Hrun|].
    exact (@box_sampler_stays_in_box nat Scripted.source scripted_laws 1 3 2
             random_walk (Fin (/ 10)) Examples.constant_zero false
             Examples.w0 w' kept (Fin rate) Hrun).
Defined.

(** X4.  With the random-walk proposal, on a likelihood that is finite
    everywhere, with a positive initial step size, at least one sample and
    a progress report that cannot divide by zero, [run_chain] of the
    sampler of [nv_mcmc.py] always returns: it hands back [nsamples] rows
    and a rate that is a real number between [0] and
    [1 + burnin / nsamples]. *)
Theorem box_sampler_always_returns {G} `{RandomSourceLaws G}
        (nparameters nsamples burnin : nat)
        (d : R) (log_likelihood_func : vec -> fval)
        (verbose : bool) (w : world G) :
  (forall th, finite (log_likelihood_func th)) ->
  0 < d ->
  (1 <= nsamples)%nat ->
  (verbose = false \/ 10 <= nsamples)%nat ->
  exists kept rate w',
    MetropolisHastings.run_chain
      (NavierStokes.NVMCMC nparameters nsamples burnin random_walk (Fin d)
                           log_likelihood_func) verbose w
    = Ok (kept, Fin rate) w' /\
    length kept = nsamples /\
    0 <= rate <= 1 + INR burnin / INR nsamples.
Proof.
  intros Hfinite Hd Hn Hverbose.
  assert (Hrep : report_ok verbose (nsamples / 10)).
  { destruct Hverbose as [Hoff | Hten]; [left; exact Hoff|].
    right. intros Hzero. apply Nat.div_small_iff in Hzero; lia. }
  destruct (@box_sampler_returns G _ _ nparameters nsamples burnin
              log_likelihood_func d Hfinite Hd verbose w)
    as (kept & rate & w' & Hrun); [lia | exact Hrep |].
  exists kept, rate, w'. split; [exact Hrun|].
  destruct (@mh_run_chain_detail G _ _ verbose w w' kept (Fin rate) Hrun)
    as (_ & _ & Hlen & k & Hk & Hrate).
  cbn [NavierStokes.NVMCMC MetropolisHastings.nsamples MetropolisHastings.burnin]
    in Hlen, Hk, Hrate.
  split; [exact Hlen|].
  injection Hrate as ->.
  assert (Hpos : 0 < INR nsamples) by (apply lt_0_INR; lia).
  assert (Hkr : INR k <= INR nsamples + INR burnin).
  { rewrite <- plus_INR. apply le_INR. exact Hk. }
  pose proof (pos_INR k) as Hk0. split.
  - apply Rmult_le_pos; [exact Hk0 | left; apply Rinv_0_lt_compat; exact Hpos].
  - replace (1 + INR burnin / INR nsamples)
      with ((INR nsamples + INR burnin) / INR nsamples) by (field; lra).
    unfold Rdiv. apply Rmult_le_compat_r; [|exact Hkr].
    left. apply Rinv_0_lt_compat. exact Hpos.
Qed.

Lemma box_sampler_always_returns_witness :
  exists kept rate w',
    MetropolisHastings.run_chain (MoreExamples.box_mh 10 3) true Examples.w0
    = Ok (kept, Fin rate) w' /\
    length kept = 10%nat /\
    0 <= rate <= 1 + INR 3 / INR 10.
Proof.
  apply (@box_sampler_always_returns nat Scripted.source scripted_laws 1 10 3
           (/ 10) Examples.constant_zero true Examples.w0).
  - intros th. exists 0. reflexivity.
  - lra.
  - lia.
  - right. lia.
Defined.


(* ================================================================== *)
(** ** The delayed-acceptance driver in detail *)

Lemma no_counted_event (p : event -> bool) (tb : list event) (ev : event) :
  count p tb = O -> In ev tb -> p ev = false.
Proof.
  unfold count. induction tb as [|e tb IH]; simpl; [contradiction|].
  destruct (p e) eqn:He; simpl; [discriminate|].
  intros Hc [-> | Hin]; auto.
Qed.

Lemma no_fine_event (tb : list event) (t : vec) :
  fine_evaluations tb = O -> ~ In (EvInner t) tb.
Proof.
  intros Hc Hin. pose proof (no_counted_event is_inner tb (EvInner t) Hc Hin).
  discriminate.
Qed.

Section DelayedAcceptanceDetail.
Context {G : Type} `{RandomSource G}.
Variable self : MCMCDA.t.

Lemma da_proposal_quiet (th : vec) (d : fval) :
  triple (MCMCDA.proposal self th d)
         (fun tb x => coarse_evaluations tb = O /\ fine_evaluations tb = O /\
                      second_stages tb = O /\
                      match x with Exhausted => False | _ => True end).
Proof.
  eapply triple_weaken; [apply (@da_proposal_spec G _ self (fun _ => True) th d)|].
  intros tb x [(Ho & Hi & Hr & _) Hx].
  repeat split; auto. destruct x; auto.
Qed.

(** The second stage, as it changes the locals. *)
Lemma second_stage_detail (theta_proposal : vec) (a : fval) (s : MCMCDA.locals) :
  triple (MCMCDA.second_stage self theta_proposal a s)
         (fun tb x =>
            tb = [EvInner (MCMCDA.theta s); EvInner theta_proposal; EvRecip a] /\
            exists s', x = Returned s' /\
              MCMCDA.dt s' = MCMCDA.dt s /\
              MCMCDA.samples_outer s' = MCMCDA.samples_outer s /\
              MCMCDA.outer_mh s' = MCMCDA.outer_mh s /\
              MCMCDA.samples_inner s' = MCMCDA.samples_inner s /\
              MCMCDA.inner_mh s' = S (MCMCDA.inner_mh s) /\
              ((MCMCDA.theta s' = MCMCDA.theta s /\
                MCMCDA.inner_accepted s' = MCMCDA.inner_accepted s /\
                MCMCDA.acceptance_list s' = MCMCDA.acceptance_list s) \/
               (MCMCDA.theta s' = theta_proposal /\
                MCMCDA.inner_accepted s' = S (MCMCDA.inner_accepted s) /\
                MCMCDA.acceptance_list s'
                = MCMCDA.incr_at (MCMCDA.inner_mh s) (MCMCDA.acceptance_list s)))).
Proof.
  unfold MCMCDA.second_stage.
  do 2 apply log_posterior_inner_bind. apply triple_emit_bind.
  apply triple_draw_bind. intros g. apply triple_ret.
  split; [reflexivity|]. eexists. split; [reflexivity|].
  cbn [MCMCDA.dt MCMCDA.samples_outer MCMCDA.outer_mh MCMCDA.samples_inner
       MCMCDA.inner_mh MCMCDA.theta MCMCDA.inner_accepted MCMCDA.acceptance_list].
  rewrite Nat.sub_1_r. cbn [Nat.pred].
  do 5 (split; [reflexivity|]).
  destruct (fltb _ _); [right | left]; repeat split; reflexivity.
Qed.

(** One iteration of the Phase B loop, as it changes the locals. *)
Lemma inner_step_detail (samples verbose : bool) (s : MCMCDA.locals) :
  triple (MCMCDA.inner_step self samples verbose s)
         (fun tb x =>
            fine_only_near self (MCMCDA.theta s) tb /\
            match x with
            | Returned s' =>
                report_ok verbose (MCMCDA.iter_da self / 10) /\
                coarse_evaluations tb = 2%nat /\
                da_trial self samples s s'
            | Raised _ => True
            | Exhausted => False
            end).
Proof.
  unfold MCMCDA.inner_step.
  eapply triple_bind; [apply da_proposal_quiet | | |].
  - intros tb1 theta_proposal (Hcoarse1 & Hfine1 & _).
    assert (Hcount : forall rest, coarse_evaluations rest = O ->
              coarse_evaluations
                (tb1 ++ EvOuter (MCMCDA.theta s) :: EvOuter theta_proposal :: rest)
              = 2%nat).
    { intros rest Hrest. unfold coarse_evaluations in *.
      rewrite count_app, Hcoarse1. unfold count in *. simpl. rewrite Hrest.
      reflexivity. }
    do 2 apply log_posterior_outer_bind. apply triple_draw_bind. intros g.
    destruct (fltb (Fin (fst (rand g))) _) eqn:Hpass.
    + assert (Hpasses : da_passes self (MCMCDA.theta s) theta_proposal)
        by (exists g; exact Hpass).
      eapply triple_bind; [apply second_stage_detail | | |].
      * intros tb2 s1 (-> & s1' & Heq & Hdt & Hso & Hom & Hsi & Hmh & Hcase).
        injection Heq as <-.
        assert (Hnear : fine_only_near self (MCMCDA.theta s)
                  (tb1 ++ EvOuter (MCMCDA.theta s) :: EvOuter theta_proposal ::
                       [EvInner (MCMCDA.theta s); EvInner theta_proposal;
                        EvRecip (MCMCDA.stage1_prob
                                   (MCMCDA.outer_posterior self (MCMCDA.theta s))
                                   (MCMCDA.outer_posterior self theta_proposal))])).
        { intros t Hin. apply in_app_or in Hin. destruct Hin as [Hin | Hin].
          - exfalso. exact (no_fine_event tb1 t Hfine1 Hin).
          - simpl in Hin.
            destruct Hin as [Hin | [Hin | [Hin | [Hin | [Hin | []]]]]];
              try discriminate; injection Hin as <-; auto. }
        eapply triple_bind; [apply progress_report_spec | | |].
        -- intros tb3 [] [-> Hok]. apply triple_ret. rewrite !app_nil_r.
           split; [exact Hnear|]. split; [exact Hok|].
           split; [apply Hcount; reflexivity|].
           unfold da_trial.
           destruct samples;
             cbn [MCMCDA.append_inner MCMCDA.dt MCMCDA.samples_outer MCMCDA.outer_mh
                  MCMCDA.samples_inner MCMCDA.inner_mh MCMCDA.theta
                  MCMCDA.inner_accepted MCMCDA.acceptance_list];
             rewrite ?app_nil_r;
             (split; [exact Hdt|]); (split; [exact Hso|]); (split; [exact Hom|]);
             (split; [congruence|]); right;
             (destruct Hcase as [(Hth & Hacc & Hlist) | (Hth & Hacc & Hlist)];
              [left | right]; repeat split; try assumption; rewrite Hth; exact Hpasses).
        -- intros tb3 e [-> _]. rewrite !app_nil_r. split; [exact Hnear | exact I].
        -- intros tb3 [_ []].
      * intros tb2 e (_ & s1' & Heq & _). discriminate.
      * intros tb2 (_ & s1' & Heq & _). discriminate.
    + apply triple_ret_bind.
      assert (Hnear : fine_only_near self (MCMCDA.theta s)
                (tb1 ++ [EvOuter (MCMCDA.theta s); EvOuter theta_proposal])).
      { intros t Hin. apply in_app_or in Hin. destruct Hin as [Hin | Hin].
        - exfalso. exact (no_fine_event tb1 t Hfine1 Hin).
        - simpl in Hin. destruct Hin as [Hin | [Hin | []]]; discriminate. }
      eapply triple_bind; [apply progress_report_spec | | |].
      * intros tb3 [] [-> Hok]. apply triple_ret. cbv beta. simpl app.
        split; [exact Hnear|]. split; [exact Hok|].
        split; [apply Hcount; reflexivity|].
        unfold da_trial.
        destruct samples;
          cbn [MCMCDA.append_inner MCMCDA.dt MCMCDA.samples_outer MCMCDA.outer_mh
               MCMCDA.samples_inner MCMCDA.inner_mh MCMCDA.theta
               MCMCDA.inner_accepted MCMCDA.acceptance_list];
          rewrite ?app_nil_r; repeat (split; [reflexivity|]); left; repeat split.
      * intros tb3 e [-> _]. cbv beta. simpl app. split; [exact Hnear | exact I].
      * intros tb3 [_ []].
  - intros tb1 e (_ & Hfine1 & _). split; [|exact I].
    intros t Hin. exfalso. exact (no_fine_event tb1 t Hfine1 Hin).
  - intros tb1 (_ & _ & _ & []).
Qed.

(** One iteration of the Phase A loop. *)
Lemma outer_step_detail (samples verbose : bool) (i : nat) (s : MCMCDA.locals) :
  triple (MCMCDA.outer_step self samples verbose i s)
         (fun tb x =>
            fine_evaluations tb = O /\ second_stages tb = O /\
            match x with
            | Returned s' =>
                report_ok verbose (MCMCDA.iter_mcmc self / 10) /\
                da_burn self s s' /\ coarse_evaluations tb = 2%nat
            | Raised _ => True
            | Exhausted => False
            end).
Proof.
  unfold MCMCDA.outer_step.
  eapply triple_bind; [apply da_proposal_quiet | | |].
  - intros tb1 theta_proposal (Hc1 & Hf1 & Hr1 & _).
    do 2 apply log_posterior_outer_bind. apply triple_draw_bind. intros g.
    assert (Hcounts :
              coarse_evaluations
                (tb1 ++ [EvOuter (MCMCDA.theta s); EvOuter theta_proposal]) = 2%nat /\
              fine_evaluations
                (tb1 ++ [EvOuter (MCMCDA.theta s); EvOuter theta_proposal]) = O /\
              second_stages
                (tb1 ++ [EvOuter (MCMCDA.theta s); EvOuter theta_proposal]) = O).
    { unfold coarse_evaluations, fine_evaluations, second_stages in *.
      rewrite !count_app, Hc1, Hf1, Hr1. repeat split. }
    destruct Hcounts as (Hc & Hf & Hr).
    eapply triple_bind; [apply progress_report_spec | | |].
    + intros tb3 [] [-> Hok]. apply triple_ret. cbv beta. simpl app.
      split; [exact Hf|]. split; [exact Hr|]. split; [exact Hok|].
      split; [|exact Hc]. unfold da_burn.
      cbn [MCMCDA.inner_mh MCMCDA.inner_accepted MCMCDA.acceptance_list
           MCMCDA.samples_inner MCMCDA.theta].
      do 4 (split; [reflexivity|]).
      destruct (fltb (Fin (fst (rand g))) _) eqn:Hpass;
        [right; exists g; exact Hpass | left; reflexivity].
    + intros tb3 e [-> _]. cbv beta. simpl app. auto.
    + intros tb3 [_ []].
  - intros tb1 e (_ & Hf1 & Hr1 & _). auto.
  - intros tb1 (_ & _ & _ & []).
Qed.

End DelayedAcceptanceDetail.

Lemma sum_snoc (rs : list R) (x : R) :
  fold_right Rplus 0 (rs ++ [x]) = fold_right Rplus 0 rs + x.
Proof.
  induction rs as [|r rs IH]; simpl; [lra | rewrite IH; lra].
Qed.

Lemma nth_after_prefix {A} (l1 l2 : list A) (x d : A) :
  nth (length l1) (l1 ++ x :: l2) d = x.
Proof.
  induction l1 as [|a l1 IH]; simpl; auto.
Qed.

Lemma set_row_after_prefix {A} (l1 l2 : list A) (x y : A) :
  set_row (length l1) y (l1 ++ x :: l2) = l1 ++ y :: l2.
Proof.
  induction l1 as [|a l1 IH]; simpl; [reflexivity | rewrite IH; reflexivity].
Qed.

(** Recording an acceptance at the position of the trial turns the first of
    the entries not yet used into a one. *)
Lemma incr_at_next (rs : list R) (m : nat) :
  MCMCDA.incr_at (length rs) (of_reals (rs ++ repeat 0 (S m)))
  = of_reals ((rs ++ [0 + 1]) ++ repeat 0 m).
Proof.
  unfold MCMCDA.incr_at, of_reals. rewrite <- app_assoc. simpl.
  rewrite !map_app. simpl.
  replace (length rs) with (length (map Fin rs)) by apply length_map.
  rewrite nth_after_prefix, set_row_after_prefix. reflexivity.
Qed.

Lemma triple_raise_bind {G A B} (e : exn) (k : A -> M G B)
      (Q : list event -> exit B -> Prop) :
  Q [] (Raised e) -> triple (bind (raise e) k) Q.
Proof.
  intros HQ w. exists []. unfold bind, raise. simpl. rewrite app_nil_r. auto.
Qed.

Section PhaseDetail.
Context {G : Type} `{RandomSource G}.
Variable self : MCMCDA.t.
Variable Inv : vec -> Prop.
Hypothesis Hmove : forall th th', Inv th -> da_passes self th th' -> Inv th'.

(** Phase A: [iter_mcmc] iterations of two coarse evaluations each, nothing
    of the fine model, nothing changed in the variables of Phase B. *)
Lemma phase_a_detail (samples verbose : bool) (s : MCMCDA.locals) :
  Inv (MCMCDA.theta s) ->
  triple (MCMCDA.phase_a self samples verbose s)
         (fun tb x =>
            fine_evaluations tb = O /\ second_stages tb = O /\
            match x with
            | Returned s' =>
                coarse_evaluations tb = (2 * MCMCDA.iter_mcmc self)%nat /\
                ((0 < MCMCDA.iter_mcmc self)%nat ->
                 report_ok verbose (MCMCDA.iter_mcmc self / 10)) /\
                Inv (MCMCDA.theta s') /\
                MCMCDA.inner_mh s' = MCMCDA.inner_mh s /\
                MCMCDA.inner_accepted s' = MCMCDA.inner_accepted s /\
                MCMCDA.acceptance_list s' = MCMCDA.acceptance_list s /\
                MCMCDA.samples_inner s' = MCMCDA.samples_inner s
            | Raised _ => True
            | Exhausted => False
            end).
Proof.
  intros Hinv.
  set (J := fun (k : nat) (tb : list event) (s' : MCMCDA.locals) =>
              fine_evaluations tb = O /\ second_stages tb = O /\
              coarse_evaluations tb = (2 * k)%nat /\
              ((0 < k)%nat -> report_ok verbose (MCMCDA.iter_mcmc self / 10)) /\
              Inv (MCMCDA.theta s') /\
              MCMCDA.inner_mh s' = MCMCDA.inner_mh s /\
              MCMCDA.inner_accepted s' = MCMCDA.inner_accepted s /\
              MCMCDA.acceptance_list s' = MCMCDA.acceptance_list s /\
              MCMCDA.samples_inner s' = MCMCDA.samples_inner s).
  set (E := fun (tb : list event) (x : exit MCMCDA.locals) =>
              fine_evaluations tb = O /\ second_stages tb = O /\
              match x with Exhausted => False | _ => True end).
  unfold MCMCDA.phase_a, for_range.
  eapply triple_weaken;
    [apply (triple_for_from (MCMCDA.outer_step self samples verbose) J E)
       with (tb := []) (i := O)|].
  - intros k tb s0 (Hf & Hr & Hc & Hrep & Hi & Hmh & Hacc & Hlist & Hsi).
    eapply triple_weaken; [apply outer_step_detail|].
    unfold fine_evaluations, second_stages, coarse_evaluations in *.
    intros tb2 [s' | e |]; rewrite ?count_app, ?Hf, ?Hr, ?Hc.
    + intros (Hf2 & Hr2 & Hok & (Hmh' & Hacc' & Hlist' & Hsi' & Hth) & Hc2).
      unfold J, fine_evaluations, second_stages, coarse_evaluations.
      rewrite !count_app, Hf, Hr, Hc, Hf2, Hr2, Hc2.
      split; [reflexivity|]. split; [reflexivity|]. split; [lia|].
      split; [intros _; exact Hok|].
      split; [destruct Hth as [-> | Hp]; [exact Hi | exact (Hmove Hi Hp)]|].
      repeat split; congruence.
    + intros (Hf2 & Hr2 & _). unfold E, fine_evaluations, second_stages.
      rewrite !count_app, Hf, Hr, Hf2, Hr2. repeat split.
    + intros (_ & _ & []).
  - unfold J. repeat split; auto. lia.
  - intros tb [s' | e |]; simpl; unfold J, E.
    + intros (Hf & Hr & Hc & Hrep & Hrest). repeat split; tauto.
    + tauto.
    + tauto.
Qed.

(** Phase B from the locals [run_chain] gives it: where the fine model is
    evaluated and what the outcome bits look like on return. *)
Lemma phase_b_detail (fuel : nat) (samples verbose : bool) (s : MCMCDA.locals) :
  Inv (MCMCDA.theta s) ->
  fresh_for_phase_b self s ->
  triple (MCMCDA.phase_b self fuel samples verbose s)
         (fun tb x =>
            (forall t, In (EvInner t) tb -> Inv t) /\
            match x with
            | Returned s' =>
                MCMCDA.inner_mh s' = MCMCDA.iter_da self /\
                ((0 < MCMCDA.iter_da self)%nat ->
                 report_ok verbose (MCMCDA.iter_da self / 10)) /\
                Inv (MCMCDA.theta s') /\
                length (MCMCDA.acceptance_list s') = MCMCDA.iter_da self /\
                Forall is_bit (MCMCDA.acceptance_list s') /\
                fsum (MCMCDA.acceptance_list s') = Fin (INR (MCMCDA.inner_accepted s')) /\
                (MCMCDA.inner_accepted s' <= MCMCDA.iter_da self)%nat /\
                exists k, (MCMCDA.iter_da self <= k <= fuel)%nat /\
                          coarse_evaluations tb = (2 * k)%nat /\
                          length (MCMCDA.samples_inner s') = (if samples then k else O)
            | _ => True
            end).
Proof.
  intros Hinv (Hmh0 & Hacc0 & Hlist0 & Hsi0).
  set (n := MCMCDA.iter_da self).
  set (J := fun (k : nat) (tb : list event) (s' : MCMCDA.locals) =>
              (forall t, In (EvInner t) tb -> Inv t) /\
              Inv (MCMCDA.theta s') /\
              ((0 < k)%nat -> report_ok verbose (n / 10)) /\
              (MCMCDA.inner_mh s' <= k)%nat /\
              coarse_evaluations tb = (2 * k)%nat /\
              length (MCMCDA.samples_inner s') = (if samples then k else O) /\
              exists rs,
                MCMCDA.acceptance_list s'
                = of_reals (rs ++ repeat 0 (n - MCMCDA.inner_mh s')) /\
                length rs = MCMCDA.inner_mh s' /\
                Forall (fun r => r = 0 \/ r = 1) rs /\
                fold_right Rplus 0 rs = INR (MCMCDA.inner_accepted s') /\
                (MCMCDA.inner_accepted s' <= MCMCDA.inner_mh s' <= n)%nat).
  set (E := fun (tb : list event) (_ : exn) => forall t, In (EvInner t) tb -> Inv t).
  assert (Hbody : forall k tb s0, J k tb s0 ->
            (MCMCDA.inner_mh s0 <? n)%nat = true ->
            triple (MCMCDA.inner_step self samples verbose s0)
                   (fun tb2 x => match x with
                                 | Returned s' => J (S k) (tb ++ tb2) s'
                                 | Raised e => E (tb ++ tb2) e
                                 | Exhausted => False
                                 end)).
  { intros k tb s0
           (Htr & Hi & Hrep & Hmk & Hco & Hlen & rs & Hlist & Hrs & Hbits & Hsum & Hle)
           Hcond.
    apply Nat.ltb_lt in Hcond.
    assert (Hnear : forall tb2, fine_only_near self (MCMCDA.theta s0) tb2 ->
                                forall t, In (EvInner t) (tb ++ tb2) -> Inv t).
    { intros tb2 Hn t Hin. apply in_app_or in Hin. destruct Hin as [Hin | Hin].
      - exact (Htr t Hin).
      - destruct (Hn t Hin) as [-> | Hp]; [exact Hi | exact (Hmove Hi Hp)]. }
    eapply triple_weaken; [apply inner_step_detail|].
    intros tb2 [s' | e |].
    - intros (Hn2 & Hok & Hco2 & Hdt & Hso & Hom & Hsi & Hcase).
      split; [exact (Hnear tb2 Hn2)|].
      assert (Hco' : coarse_evaluations (tb ++ tb2) = (2 * S k)%nat).
      { unfold coarse_evaluations in *. rewrite count_app, Hco, Hco2. lia. }
      assert (Hlen' : length (MCMCDA.samples_inner s') = (if samples then S k else O)).
      { rewrite Hsi, length_app, Hlen. destruct samples; simpl; lia. }
      destruct Hcase as [(Hth & Hmh & Hacc & Hl) | [(Hth & Hmh & Hacc & Hl) |
                                                    (Hp & Hmh & Hacc & Hl)]].
      + split; [rewrite Hth; exact Hi|]. split; [intros _; exact Hok|].
        split; [lia|]. split; [exact Hco'|]. split; [exact Hlen'|].
        exists rs. rewrite Hl, Hmh, Hacc. repeat split; auto; lia.
      + split; [rewrite Hth; exact Hi|]. split; [intros _; exact Hok|].
        split; [lia|]. split; [exact Hco'|]. split; [exact Hlen'|].
        exists (rs ++ [0]). rewrite Hl, Hmh, Hacc.
        split.
        { rewrite Hlist. f_equal. rewrite <- app_assoc. f_equal.
          replace (n - MCMCDA.inner_mh s0)%nat with (S (n - S (MCMCDA.inner_mh s0)))
            by lia. reflexivity. }
        split; [rewrite length_app; simpl; lia|].
        split; [apply Forall_app; split;
                [exact Hbits | constructor; [left; reflexivity | constructor]]|].
        split; [rewrite sum_snoc, Hsum; lra | lia].
      + split; [exact (Hmove Hi Hp)|]. split; [intros _; exact Hok|].
        split; [lia|]. split; [exact Hco'|]. split; [exact Hlen'|].
        exists (rs ++ [0 + 1]). rewrite Hl, Hmh, Hacc.
        split.
        { rewrite Hlist. rewrite <- Hrs.
          replace (n - length rs)%nat with (S (n - S (length rs))) by lia.
          apply incr_at_next. }
        split; [rewrite length_app; simpl; lia|].
        split; [apply Forall_app; split;
                [exact Hbits | constructor; [right; lra | constructor]]|].
        split; [rewrite sum_snoc, Hsum, S_INR; lra | lia].
    - intros (Hn2 & _). exact (Hnear tb2 Hn2).
    - intros (_ & []). }
  assert (HJ0 : J O [] s).
  { split; [intros t []|]. split; [exact Hinv|]. split; [intros Hk; lia|].
    split; [lia|]. split; [reflexivity|].
    split; [rewrite Hsi0; destruct samples; reflexivity|].
    exists []. rewrite Hlist0, Hmh0, Hacc0, Nat.sub_0_r. simpl.
    split; [unfold zeros, of_reals; rewrite map_repeat; reflexivity|].
    split; [reflexivity|]. split; [constructor|]. split; [reflexivity | lia]. }
  unfold MCMCDA.phase_b.
  eapply triple_weaken; [apply (triple_while _ _ J E Hbody fuel O [] s HJ0)|].
  intros tb [s' | e |]; simpl.
  - intros (k & Hk &
            (Htr & Hi & Hrep & Hmk & Hco & Hlen & rs & Hlist & Hrs & Hbits & Hsum & Hle)
            & Hcond).
    apply Nat.ltb_ge in Hcond. fold n in Hcond.
    assert (Hmh : MCMCDA.inner_mh s' = n) by lia.
    split; [exact Htr|]. split; [exact Hmh|].
    split; [intros Hpos; apply Hrep; lia|]. split; [exact Hi|].
    rewrite Hmh, Nat.sub_diag, app_nil_r in Hlist.
    rewrite Hlist. unfold of_reals at 1. rewrite length_map.
    split; [lia|].
    split.
    { unfold of_reals. rewrite Forall_map. eapply Forall_impl; [|exact Hbits].
      intros r [-> | ->]; [left | right]; reflexivity. }
    split.
    { unfold fsum. rewrite fsum_of_reals, Hsum. f_equal. lra. }
    split; [lia|]. exists k. split; [lia|]. split; [exact Hco | exact Hlen].
  - intros Htr. split; [exact Htr | exact I].
  - intros (s' & (Htr & _) & _). split; [exact Htr | exact I].
Qed.

End PhaseDetail.

Section RunDetail.
Context {G : Type} `{RandomSource G}.
Variable self : MCMCDA.t.
Variable Inv : vec -> Prop.
Hypothesis Hmove : forall th th', Inv th -> da_passes self th th' -> Inv th'.
Hypothesis Hstart : forall g, Inv (of_reals (fst (uniform_ (MCMCDA.nparameters self) g))).

(** [run_chain] as a whole: where the fine model is evaluated, and what a
    run that returns shows about the settings and hands back. *)
Lemma da_run_chain_detail (fuel : nat) (samples verbose : bool) :
  triple (MCMCDA.run_chain self fuel samples verbose)
         (fun tb x =>
            (forall t, In (EvInner t) tb -> Inv t) /\
            match x with
            | Returned r =>
                (verbose = true ->
                 MCMCDA.iter_da self <> O /\
                 report_ok true (MCMCDA.iter_da self / 10) /\
                 ((0 < MCMCDA.iter_mcmc self)%nat ->
                  report_ok true (MCMCDA.iter_mcmc self / 10))) /\
                (samples = false ->
                 exists bits k,
                   r = MCMCDA.AcceptanceList bits /\
                   length bits = MCMCDA.iter_da self /\
                   Forall is_bit bits /\
                   (k <= MCMCDA.iter_da self)%nat /\ fsum bits = Fin (INR k))
            | _ => True
            end).
Proof.
  unfold MCMCDA.run_chain, MCMCDA.coarse_burn_in. exec.
  eapply triple_bind;
    [apply (@phase_a_detail G _ self Inv Hmove samples verbose
                           (MCMCDA.initial self (fst (uniform_ (MCMCDA.nparameters self) g))));
     apply Hstart | | |].
  - intros tb1 sa (Hf1 & _ & _ & Hrep_a & Hinv_a & Hmh & Hacc & Hlist & Hsi).
    cbn [MCMCDA.initial MCMCDA.inner_mh MCMCDA.inner_accepted MCMCDA.acceptance_list
         MCMCDA.samples_inner] in Hmh, Hacc, Hlist, Hsi.
    assert (Hfresh : fresh_for_phase_b self sa) by (repeat split; assumption).
    assert (Hquiet : forall tb2, (forall t, In (EvInner t) tb2 -> Inv t) ->
                                 forall t, In (EvInner t) (tb1 ++ tb2) -> Inv t).
    { intros tb2 H2 t Hin. apply in_app_or in Hin. destruct Hin as [Hin | Hin].
      - exfalso. exact (no_fine_event tb1 t Hf1 Hin).
      - exact (H2 t Hin). }
    unfold MCMCDA.refinement.
    eapply triple_bind;
      [apply (@phase_b_detail G _ self Inv Hmove fuel samples verbose sa Hinv_a Hfresh)
      | | |].
    + intros tb2 sb (Htr & Hmh_b & Hrep_b & _ & Hlen & Hbits & Hsum & Hle & _).
      assert (Hdone : forall r,
                (verbose = true -> MCMCDA.inner_mh sb <> O) ->
                (samples = false -> r = MCMCDA.AcceptanceList (MCMCDA.acceptance_list sb)) ->
                (forall t, In (EvInner t) (tb1 ++ tb2 ++ []) -> Inv t) /\
                (verbose = true ->
                 MCMCDA.iter_da self <> O /\
                 report_ok true (MCMCDA.iter_da self / 10) /\
                 ((0 < MCMCDA.iter_mcmc self)%nat ->
                  report_ok true (MCMCDA.iter_mcmc self / 10))) /\
                (samples = false ->
                 exists bits k,
                   r = MCMCDA.AcceptanceList bits /\
                   length bits = MCMCDA.iter_da self /\
                   Forall is_bit bits /\
                   (k <= MCMCDA.iter_da self)%nat /\ fsum bits = Fin (INR k))).
      { intros r Hv Hs. rewrite app_nil_r. split; [exact (Hquiet tb2 Htr)|]. split.
        - intros ->. specialize (Hv eq_refl). rewrite Hmh_b in Hv.
          split; [exact Hv|]. split; [apply Hrep_b; lia | exact Hrep_a].
        - intros Hoff. exists (MCMCDA.acceptance_list sb), (MCMCDA.inner_accepted sb).
          split; [exact (Hs Hoff)|]. auto. }
      assert (Htail : forall v : fval,
                (verbose = true -> MCMCDA.inner_mh sb <> O) ->
                triple (G:=G)
                  (if samples
                   then bind (MCMCDA.tensor_of_rows (MCMCDA.samples_inner sb))
                             (fun inner => ret (MCMCDA.Trajectories inner
                                                  (MCMCDA.samples_outer sb)))
                   else ret (MCMCDA.AcceptanceList (MCMCDA.acceptance_list sb)))
                  (fun tb3 x =>
                     (forall t, In (EvInner t) (tb1 ++ tb2 ++ tb3) -> Inv t) /\
                     match x with
                     | Returned r =>
                         (verbose = true ->
                          MCMCDA.iter_da self <> O /\
                          report_ok true (MCMCDA.iter_da self / 10) /\
                          ((0 < MCMCDA.iter_mcmc self)%nat ->
                           report_ok true (MCMCDA.iter_mcmc self / 10))) /\
                         (samples = false ->
                          exists bits k,
                            r = MCMCDA.AcceptanceList bits /\
                            length bits = MCMCDA.iter_da self /\
                            Forall is_bit bits /\
                            (k <= MCMCDA.iter_da self)%nat /\ fsum bits = Fin (INR k))
                     | _ => True
                     end)).
      { intros _ Hv. destruct samples eqn:Hsamples.
        - unfold MCMCDA.tensor_of_rows. destruct (forallb _ _).
          + exec. apply triple_ret. apply Hdone; [exact Hv | discriminate].
          + apply triple_raise_bind. rewrite app_nil_r.
            split; [exact (Hquiet tb2 Htr) | exact I].
        - apply triple_ret. apply Hdone; [exact Hv | reflexivity]. }
      destruct verbose eqn:Hverbose.
      * unfold py_truediv. destruct (Nat.eqb (MCMCDA.inner_mh sb) 0) eqn:Hzero.
        -- apply triple_raise_bind. rewrite app_nil_r.
           split; [exact (Hquiet tb2 Htr) | exact I].
        -- apply Nat.eqb_neq in Hzero. apply triple_ret_bind.
           apply (Htail (Fin 0)). intros _. exact Hzero.
      * apply triple_ret_bind. apply (Htail (Fin 0)). discriminate.
    + intros tb2 e (Htr & _). split; [exact (Hquiet tb2 Htr) | exact I].
    + intros tb2 (Htr & _). split; [exact (Hquiet tb2 Htr) | exact I].
  - intros tb1 e (Hf1 & _). split; [|exact I].
    intros t Hin. exfalso. exact (no_fine_event tb1 t Hf1 Hin).
  - intros tb1 (_ & _ & []).
Qed.

End RunDetail.

Lemma period_at_least_ten (n : nat) : report_ok true (n / 10) -> (10 <= n)%nat.
Proof.
  intros [Hoff | Hdiv]; [discriminate|].
  destruct (Nat.le_gt_cases 10 n) as [Hle | Hlt]; [exact Hle|].
  exfalso. apply Hdiv. apply Nat.div_small. exact Hlt.
Qed.

(** The flat sampler without burn-in returns once each of its [n_da]
    iterations has been a trial. *)
Lemma flat_da_run_returns (n_da fuel : nat) (samples verbose : bool) :
  (n_da <= fuel)%nat -> report_ok verbose (n_da / 10) ->
  (verbose = true -> n_da <> O) -> samples = false ->
  exists r w',
    MCMCDA.run_chain (Examples.flat_da 0 n_da) fuel samples verbose Examples.w0
    = Ok r w'.
Proof.
  intros Hfuel Hrep Hv ->.
  assert (Hburn : MCMCDA.coarse_burn_in (Examples.flat_da 0 n_da) false verbose Examples.w0
                  = Ok (MCMCDA.initial (Examples.flat_da 0 n_da) [0]) Examples.w0)
    by reflexivity.
  destruct (@phase_b_returns_when_passing nat Scripted.source (Examples.flat_da 0 n_da)
              fuel false verbose (MCMCDA.initial (Examples.flat_da 0 n_da) [0])
              Examples.w0)
    as (s' & w' & tb & Hrun & _ & Hmh & _).
  - apply (@flat_da_always_passes nat Scripted.source scripted_laws).
  - exact tenth_accepted_by_normal.
  - exact Hrep.
  - reflexivity.
  - exact Hfuel.
  - unfold MCMCDA.run_chain. unfold bind at 1. rewrite Hburn.
    unfold MCMCDA.refinement. unfold bind at 1. rewrite Hrun.
    destruct verbose.
    + unfold py_truediv. rewrite Hmh. cbn [Examples.flat_da MCMCDA.iter_da].
      destruct n_da as [|m]; [exfalso; apply Hv; reflexivity|].
      eexists. eexists. reflexivity.
    + eexists. eexists. reflexivity.
Qed.

(** X5.  With [verbose] set, [run_chain] of the delayed-acceptance driver
    returns only when the trial target [iter_da] is at least ten and the
    burn-in length [iter_mcmc] is zero or at least ten: below that a
    progress report takes a remainder modulo zero, and with [iter_da = 0]
    the closing report divides by the zero trial count. *)
Theorem da_verbose_run_needs {G} `{RandomSource G} (self : MCMCDA.t)
        (fuel : nat) (samples : bool) (w w' : world G) (r : MCMCDA.returned) :
  MCMCDA.run_chain self fuel samples true w = Ok r w' ->
  (10 <= MCMCDA.iter_da self)%nat /\
  (MCMCDA.iter_mcmc self = O \/ 10 <= MCMCDA.iter_mcmc self)%nat.
Proof.
  intros Hrun.
  destruct (@da_run_chain_detail G _ self (fun _ => True) (fun _ _ _ _ => I)
              (fun _ => I) fuel samples true w) as (tb & _ & _ & Hpost).
  rewrite Hrun in Hpost. simpl in Hpost.
  destruct Hpost as [Hv _]. destruct (Hv eq_refl) as (Hnz & Hda & Hmcmc).
  split; [apply period_at_least_ten; exact Hda|].
  destruct (MCMCDA.iter_mcmc self) as [|m] eqn:Hm; [left; reflexivity|].
  right. apply period_at_least_ten. apply Hmcmc. lia.
Qed.

Lemma da_verbose_run_needs_witness :
  exists r w',
    MCMCDA.run_chain (Examples.flat_da 0%nat 10%nat) 10%nat false true Examples.w0 = Ok r w' /\
    (10 <= 10)%nat /\ (O = O \/ 10 <= 0)%nat.
Proof.
  destruct (@flat_da_run_returns 10%nat 10%nat false true) as (r & w' & Hrun).
  - lia.
  - right. simpl. discriminate.
  - discriminate.
  - reflexivity.
  - exists r, w'. split; [exact Hrun|].
    exact (@da_verbose_run_needs nat Scripted.source (Examples.flat_da 0%nat 10%nat) 10%nat false
             Examples.w0 w' r Hrun).
Defined.

(** X6.  With a trial target of zero Phase B does not run at all: once
    Phase A has returned, [run_chain] evaluates nothing more and returns the
    empty list of outcome bits (or the empty inner trajectory), unless
    [verbose] is set, in which case the closing report divides by the zero
    trial count and raises. *)
Theorem da_zero_target {G} `{RandomSource G} (self : MCMCDA.t)
        (fuel : nat) (samples verbose : bool) (w wa : world G) (sa : MCMCDA.locals) :
  MCMCDA.iter_da self = O ->
  MCMCDA.coarse_burn_in self samples verbose w = Ok sa wa ->
  MCMCDA.run_chain self fuel samples verbose w
  = if verbose then Raise ZeroDivisionError wa
    else if samples then Ok (MCMCDA.Trajectories [] (MCMCDA.samples_outer sa)) wa
         else Ok (MCMCDA.AcceptanceList []) wa.
Proof.
  intros Hzero Hburn.
  assert (Hfresh : fresh_for_phase_b self sa).
  { assert (Ht : triple (MCMCDA.coarse_burn_in self samples verbose)
                   (fun _ x => match x with
                               | Returned s' => fresh_for_phase_b self s'
                               | _ => True
                               end)).
    { unfold MCMCDA.coarse_burn_in. exec.
      eapply triple_weaken;
        [apply (@phase_a_detail G _ self (fun _ => True) (fun _ _ _ _ => I)
                                samples verbose); exact I|].
      intros tb [s' | e |]; auto.
      intros (_ & _ & _ & _ & _ & Hmh & Hacc & Hlist & Hsi).
      repeat split; assumption. }
    destruct (Ht w) as (tb & _ & Hpost). rewrite Hburn in Hpost. exact Hpost. }
  destruct Hfresh as (Hmh & Hacc & Hlist & Hsi).
  unfold MCMCDA.run_chain. unfold bind at 1. rewrite Hburn.
  unfold MCMCDA.refinement, MCMCDA.phase_b.
  assert (Hloop : while fuel (fun s => (MCMCDA.inner_mh s <? MCMCDA.iter_da self)%nat)
                        (MCMCDA.inner_step self samples verbose) sa wa
                  = Ok sa wa).
  { destruct fuel; simpl; rewrite Hmh, Hzero; reflexivity. }
  unfold bind at 1. rewrite Hloop.
  destruct verbose.
  - unfold py_truediv. rewrite Hmh. reflexivity.
  - destruct samples.
    + unfold MCMCDA.tensor_of_rows. rewrite Hsi. reflexivity.
    + unfold bind, ret. rewrite Hlist, Hzero. reflexivity.
Qed.

Lemma da_zero_target_witness :
  exists sa wa,
    MCMCDA.coarse_burn_in (Examples.flat_da 3%nat 0%nat) false false Examples.w0 = Ok sa wa /\
    MCMCDA.run_chain (Examples.flat_da 3%nat 0%nat) 0%nat false false Examples.w0
    = Ok (MCMCDA.AcceptanceList []) wa.
Proof.
  destruct (@coarse_burn_in_flat nat Scripted.source (Examples.flat_da 3%nat 0%nat)
              (flat_da_stage1 3%nat 0%nat) eq_refl false false (/ 10) Examples.w0)
    as (sa & wa & Hburn & _).
  - left. reflexivity.
  - reflexivity.
  - lra.
  - exists sa, wa. split; [exact Hburn|].
    exact (@da_zero_target nat Scripted.source (Examples.flat_da 3%nat 0%nat) 0%nat false false
             Examples.w0 wa sa eq_refl Hburn).
Defined.

(** The locals Phase A hands over are as Phase B expects them. *)
Lemma coarse_burn_in_fresh {G} `{RandomSource G} (self : MCMCDA.t)
      (samples verbose : bool) (w wa : world G) (sa : MCMCDA.locals) :
  MCMCDA.coarse_burn_in self samples verbose w = Ok sa wa ->
  fresh_for_phase_b self sa.
Proof.
  intros Hburn.
  assert (Ht : triple (MCMCDA.coarse_burn_in self samples verbose)
                 (fun _ x => match x with
                             | Returned s' => fresh_for_phase_b self s'
                             | _ => True
                             end)).
  { unfold MCMCDA.coarse_burn_in. exec.
    eapply triple_weaken;
      [apply (@phase_a_detail G _ self (fun _ => True) (fun _ _ _ _ => I)
                              samples verbose); exact I|].
    intros tb [s' | e |]; auto.
    intros (_ & _ & _ & _ & _ & Hmh & Hacc & Hlist & Hsi).
    repeat split; assumption. }
  destruct (Ht w) as (tb & _ & Hpost). rewrite Hburn in Hpost. exact Hpost.
Qed.

(** X7.  Without sample retention, what [run_chain] returns is the list
    [acceptance_list] as the delayed-acceptance loop left it: exactly
    [iter_da] entries, one per trial, each of them [0] or [1], and their sum
    is the counter [inner_accepted] of the trials the fine stage accepted,
    which is at most the number [inner_mh = iter_da] of trials. *)
Theorem da_outcome_bits {G} `{RandomSource G} (self : MCMCDA.t)
        (fuel : nat) (verbose : bool) (w w' : world G) (r : MCMCDA.returned) :
  MCMCDA.run_chain self fuel false verbose w = Ok r w' ->
  exists sa wa sb,
    MCMCDA.coarse_burn_in self false verbose w = Ok sa wa /\
    MCMCDA.phase_b self fuel false verbose sa wa = Ok sb w' /\
    r = MCMCDA.AcceptanceList (MCMCDA.acceptance_list sb) /\
    length (MCMCDA.acceptance_list sb) = MCMCDA.iter_da self /\
    Forall is_bit (MCMCDA.acceptance_list sb) /\
    MCMCDA.inner_mh sb = MCMCDA.iter_da self /\
    (MCMCDA.inner_accepted sb <= MCMCDA.iter_da self)%nat /\
    fsum (MCMCDA.acceptance_list sb) = Fin (INR (MCMCDA.inner_accepted sb)).
Proof.
  intros Hrun. unfold MCMCDA.run_chain in Hrun. unfold bind at 1 in Hrun.
  destruct (MCMCDA.coarse_burn_in self false verbose w) as [sa wa | e wa | wa] eqn:Hburn;
    try discriminate.
  unfold MCMCDA.refinement in Hrun. unfold bind at 1 in Hrun.
  destruct (MCMCDA.phase_b self fuel false verbose sa wa) as [sb wb | e wb | wb] eqn:Hb;
    try discriminate.
  assert (Hend : r = MCMCDA.AcceptanceList (MCMCDA.acceptance_list sb) /\ w' = wb).
  { destruct verbose.
    - unfold py_truediv, bind in Hrun.
      destruct (Nat.eqb (MCMCDA.inner_mh sb) 0); [discriminate|].
      unfold ret in Hrun. injection Hrun as <- <-. split; reflexivity.
    - unfold bind, ret in Hrun. injection Hrun as <- <-. split; reflexivity. }
  destruct Hend as [-> ->].
  pose proof (coarse_burn_in_fresh self false verbose w Hburn) as Hfresh.
  destruct (@phase_b_detail G _ self (fun _ => True) (fun _ _ _ _ => I)
              fuel false verbose sa I Hfresh wa) as (tb & _ & _ & Hpost).
  rewrite Hb in Hpost. simpl in Hpost.
  destruct Hpost as (Hmh & _ & _ & Hlen & Hbits & Hsum & Hle & _).
  exists sa, wa, sb. auto 10.
Qed.

Lemma da_outcome_bits_witness :
  let self := Examples.flat_da 0%nat 2%nat in
  exists r w' sa wa sb,
    MCMCDA.run_chain self 3%nat false false Examples.w0 = Ok r w' /\
    MCMCDA.coarse_burn_in self false false Examples.w0 = Ok sa wa /\
    MCMCDA.phase_b self 3%nat false false sa wa = Ok sb w' /\
    r = MCMCDA.AcceptanceList (MCMCDA.acceptance_list sb) /\
    length (MCMCDA.acceptance_list sb) = 2%nat /\
    Forall is_bit (MCMCDA.acceptance_list sb) /\
    MCMCDA.inner_mh sb = 2%nat /\
    (MCMCDA.inner_accepted sb <= 2)%nat /\
    fsum (MCMCDA.acceptance_list sb) = Fin (INR (MCMCDA.inner_accepted sb)).
Proof.
  intros self.
  destruct (@flat_da_run_returns 2%nat 3%nat false false) as (r & w' & Hrun).
  - lia.
  - left. reflexivity.
  - discriminate.
  - reflexivity.
  - destruct (@da_outcome_bits nat Scripted.source self 3%nat false
                Examples.w0 w' r Hrun) as (sa & wa & sb & Hfacts).
    exists r, w', sa, wa, sb. split; [exact Hrun | exact Hfacts].
Defined.

(** A move the coarse stage lets through lands in the box. *)
Lemma box_da_move {G} `{RandomSourceLaws G}
      (nparameters iter_mcmc iter_da : nat) (proposal_type : proposal_kind)
      (step_size : fval) (outer inner : vec -> fval) (th th' : vec) :
  da_passes (NavierStokes.NVMCMCDA nparameters iter_mcmc iter_da proposal_type
                                   step_size outer inner) th th' ->
  in_box th'.
Proof.
  intros (g & Hpass).
  destruct (log_prior_support th') as [[_ Hbox] | [Hout _]]; [exact Hbox|].
  exfalso. unfold MCMCDA.stage1_prob, MCMCDA.outer_posterior in Hpass.
  cbn [NavierStokes.NVMCMCDA MCMCDA.log_prior MCMCDA.log_likelihood_outer] in Hpass.
  rewrite Hout in Hpass.
  rewrite outside_support_rejected in Hpass by apply (rand_range g).
  discriminate.
Qed.

(** X8.  The delayed-acceptance sampler of [nv_mcmc.py] never evaluates the
    fine model outside the box: in any run of [run_chain], however it ends
    and whatever the two models return, every point handed to
    [log_likelihood_inner] has all its coordinates in [-1, 1]. *)
Theorem box_da_fine_model_in_box {G} `{RandomSourceLaws G}
        (nparameters iter_mcmc iter_da : nat) (proposal_type : proposal_kind)
        (step_size : fval) (outer inner : vec -> fval)
        (fuel : nat) (samples verbose : bool) (w : world G) :
  exists tb,
    appended w
      (MCMCDA.run_chain
         (NavierStokes.NVMCMCDA nparameters iter_mcmc iter_da proposal_type
                                step_size outer inner) fuel samples verbose w) tb /\
    forall t, In (EvInner t) tb -> in_box t.
Proof.
  set (self := NavierStokes.NVMCMCDA nparameters iter_mcmc iter_da proposal_type
                                     step_size outer inner).
  destruct (@da_run_chain_detail G _ self in_box
              (fun th th' _ Hp => box_da_move Hp)
              (fun g => in_box_uniform _ g) fuel samples verbose w)
    as (tb & Htrace & Hfine & _).
  exists tb. split; [exact Htrace | exact Hfine].
Qed.

Lemma box_da_fine_model_in_box_witness :
  exists tb,
    appended Examples.w0
      (MCMCDA.run_chain (MoreExamples.box_da 2%nat 2%nat) 5%nat false false Examples.w0) tb /\
    forall t, In (EvInner t) tb -> in_box t.
Proof.
  exact (@box_da_fine_model_in_box nat Scripted.source scripted_laws 1%nat 2%nat 2%nat random_walk
           (Fin (/ 10)) Examples.constant_zero Examples.constant_zero 5%nat false false
           Examples.w0).
Defined.

(** X9.  Phase A costs two evaluations of the coarse model per iteration and
    none of the fine model, however it ends; when it returns it has made
    exactly [2 * iter_mcmc] coarse evaluations and left the trial counter,
    the accepted counter and the outcome bits as they were. *)
Theorem phase_a_cost {G} `{RandomSource G} (self : MCMCDA.t)
        (samples verbose : bool) (s : MCMCDA.locals) (w : world G) :
  exists tb,
    appended w (MCMCDA.phase_a self samples verbose s w) tb /\
    fine_evaluations tb = O /\ second_stages tb = O /\
    forall s' w',
      MCMCDA.phase_a self samples verbose s w = Ok s' w' ->
      coarse_evaluations tb = (2 * MCMCDA.iter_mcmc self)%nat /\
      MCMCDA.inner_mh s' = MCMCDA.inner_mh s /\
      MCMCDA.inner_accepted s' = MCMCDA.inner_accepted s /\
      MCMCDA.acceptance_list s' = MCMCDA.acceptance_list s.
Proof.
  destruct (@phase_a_detail G _ self (fun _ => True) (fun _ _ _ _ => I)
              samples verbose s I w) as (tb & Htrace & Hf & Hr & Hpost).
  exists tb. split; [exact Htrace|]. split; [exact Hf|]. split; [exact Hr|].
  intros s' w' Hrun. rewrite Hrun in Hpost. simpl in Hpost.
  destruct Hpost as (Hc & _ & _ & Hmh & Hacc & Hlist & _). auto.
Qed.

(** X10.  With sample retention, Phase B appends the current point to the
    inner trajectory once in every iteration of its loop, coarse rejections
    included: on return the trajectory has as many entries as there were
    iterations, half the number of coarse evaluations, and at least
    [iter_da]. *)
Theorem inner_trajectory_length {G} `{RandomSource G} (self : MCMCDA.t)
        (fuel : nat) (verbose : bool) (s s' : MCMCDA.locals) (w w' : world G) :
  fresh_for_phase_b self s ->
  MCMCDA.phase_b self fuel true verbose s w = Ok s' w' ->
  exists tb k,
    trace w' = trace w ++ tb /\
    coarse_evaluations tb = (2 * k)%nat /\
    (MCMCDA.iter_da self <= k <= fuel)%nat /\
    length (MCMCDA.samples_inner s') = k.
Proof.
  intros Hfresh Hrun.
  destruct (@phase_b_detail G _ self (fun _ => True) (fun _ _ _ _ => I)
              fuel true verbose s I Hfresh w) as (tb & Htrace & _ & Hpost).
  rewrite Hrun in Htrace, Hpost. simpl in Htrace, Hpost.
  destruct Hpost as (_ & _ & _ & _ & _ & _ & _ & k & Hk & Hco & Hlen).
  exists tb, k. auto.
Qed.

Lemma inner_trajectory_length_witness :
  let self := Examples.flat_da 0%nat 2%nat in
  exists s' w' tb k,
    MCMCDA.phase_b self 3%nat true false (MCMCDA.initial self [0]) Examples.w0 = Ok s' w' /\
    trace w' = trace Examples.w0 ++ tb /\
    coarse_evaluations tb = (2 * k)%nat /\
    (MCMCDA.iter_da self <= k <= 3)%nat /\
    length (MCMCDA.samples_inner s') = k.
Proof.
  intros self.
  destruct (@phase_b_returns_when_passing nat Scripted.source self 3%nat true false
              (MCMCDA.initial self [0]) Examples.w0)
    as (s' & w' & tb0 & Hrun & _).
  - apply (@flat_da_always_passes nat Scripted.source scripted_laws).
  - exact tenth_accepted_by_normal.
  - left. reflexivity.
  - reflexivity.
  - simpl. lia.
  - destruct (@inner_trajectory_length nat Scripted.source self 3%nat false
                (MCMCDA.initial self [0]) s' Examples.w0 w'
                (conj eq_refl (conj eq_refl (conj eq_refl eq_refl))) Hrun)
      as (tb & k & Hfacts).
    exists s', w', tb, k. split; [exact Hrun | exact Hfacts].
Defined.

(* ================================================================== *)
(** ** The Moreau-Yosida prior *)

Section PriorSampler.
Import MoreauYosidaPrior.

Lemma importance_weights_entries (self : t) (sh : list nat) (xs : list R) :
  data (importance_weights self (Tensor sh (of_reals xs))) = map (weight_of self) xs.
Proof.
  unfold importance_weights, log_prob, tsub, tmap, of_reals. cbn [data shape].
  induction xs as [|x xs IH]; cbn [map vadd]; [reflexivity|].
  f_equal. exact IH.
Qed.

Lemma weight_of_positive (self : t) (x : R) :
  positive_real (lam self) -> positive_real (weight_of self x).
Proof.
  intros (lambda & Hlam & Hpos). destruct self as [l bs]. cbn [lam] in Hlam. subst l.
  unfold weight_of.
  rewrite (regularization_term_Fin bs x Hpos), (log_normalizer_Fin bs Hpos).
  destruct (normal_log_prob_finite x) as [q Hq]. rewrite Hq.
  cbn [fsub fadd fneg fexp clamp_min].
  eexists. split; [reflexivity|].
  match goal with |- 0 < Rmax ?e 0 => pose proof (exp_pos
    (penalty lambda x + - log_constant lambda + - q)) as He end.
  unfold Rmax. destruct (Rle_dec _ _); lra.
Qed.

Lemma weight_of_dead (self : t) (x : R) :
  ~ positive_real (lam self) -> dead_weight (weight_of self x).
Proof.
  intros Hbad. destruct self as [l bs]. cbn [lam] in Hbad.
  destruct (normal_log_prob_finite x) as [q Hq].
  assert (H2 : 0 < 2) by lra.
  assert (Hp : 0 < 2 * PI) by (pose proof PI_RGT_0; lra).
  unfold weight_of. rewrite Hq. unfold regularization_term, log_normalizer.
  cbn [lam]. destruct l as [lambda | | |].
  - destruct (Rtotal_order lambda 0) as [Hneg | [Hzero | Hpos]].
    + left. cbn [fmul fsqrt].
      assert (Hn : 2 * PI * lambda < 0).
      { replace (2 * PI * lambda) with (- ((2 * PI) * (- lambda))) by ring.
        assert (0 < (2 * PI) * (- lambda)) by (apply Rmult_lt_0_compat; lra). lra. }
      rewrite (sgn_neg Hn). cbn [fadd flog fsub fneg].
      destruct (fdiv _ _); reflexivity.
    + subst lambda. cbn [fabs fsub fneg fadd clamp_min fmul fsqrt].
      replace (2 * PI * 0) with 0 by ring. replace (2 * 0) with 0 by ring.
      rewrite sgn_zero. cbn [fadd flog].
      assert (Hs : 0 < 2 + sqrt 0) by (rewrite sqrt_0; lra).
      rewrite (sgn_pos Hs).
      set (c := Rmax (Rabs x + - (1)) 0).
      assert (Hc : 0 <= c) by (unfold c; apply Rmax_r).
      unfold fdiv. rewrite sgn_zero.
      destruct (Rle_lt_or_eq_dec 0 c Hc) as [Hcpos | Hc0].
      * right. assert (Hcc : - (c * c) < 0).
        { assert (0 < c * c) by (apply Rmult_lt_0_compat; assumption). lra. }
        rewrite (sgn_neg Hcc). cbn [fsub fneg fadd fexp clamp_min].
        f_equal. unfold Rmax. destruct (Rle_dec 0 0); lra.
      * left. rewrite <- Hc0. replace (- (0 * 0)) with 0 by ring.
        rewrite sgn_zero. reflexivity.
    + exfalso. apply Hbad. exists lambda. split; [reflexivity | exact Hpos].
  - right.
    pose proof (@infinite_scale_weights bs [] [x]) as Hw.
    rewrite importance_weights_entries in Hw. inversion Hw as [|? ? Hx _].
    unfold weight_of, regularization_term, log_normalizer in Hx.
    cbn [lam] in Hx. rewrite Hq in Hx. exact Hx.
  - left. cbn [fmul]. unfold inf_times. rewrite (sgn_pos Hp). cbn [inf negb fsqrt].
    cbn [fadd flog fsub fneg]. destruct (fdiv _ _); reflexivity.
  - left. cbn [fmul fdiv]. destruct (fneg _); reflexivity.
Qed.

Lemma fold_positive (l : vec) (acc : R) :
  Forall positive_real l -> 0 <= acc ->
  exists s, fold_left fadd l (Fin acc) = Fin s /\ acc <= s /\ (l <> [] -> acc < s).
Proof.
  intros Hl. revert acc. induction Hl as [|x l (q & -> & Hq) _ IH]; intros acc Hacc.
  - exists acc. split; [reflexivity|]. split; [lra|]. intros Hne. contradiction.
  - cbn [fold_left fadd]. destruct (IH (acc + q)) as (s & Hs & Hle & _); [lra|].
    exists s. split; [exact Hs|]. split; [lra|]. intros _. lra.
Qed.

Lemma fold_dead (l : vec) (acc : fval) :
  Forall dead_weight l -> dead_weight acc -> dead_weight (fold_left fadd l acc).
Proof.
  intros Hl. revert acc. induction Hl as [|x l Hx _ IH]; intros acc Hacc.
  - exact Hacc.
  - cbn [fold_left]. apply IH.
    destruct Hacc as [-> | ->], Hx as [-> | ->]; cbn [fadd];
      [left; reflexivity | left; reflexivity | left; reflexivity|].
    right. f_equal. lra.
Qed.

Lemma dead_sum_not_positive (l : vec) :
  Forall dead_weight l -> fltb (Fin 0) (fsum l) = false.
Proof.
  intros Hl.
  destruct (@fold_dead l (Fin 0) Hl (or_intror eq_refl)) as [Hs | Hs];
    unfold fsum; rewrite Hs; [reflexivity|].
  apply fltb_Fin_false. lra.
Qed.

Lemma normalised_positive (l : vec) (s : R) :
  0 < s -> Forall positive_real l ->
  Forall positive_real (map (fun w => fdiv w (Fin s)) l).
Proof.
  intros Hs Hl. induction Hl as [|x l (q & -> & Hq) _ IH]; cbn [map]; constructor.
  - rewrite (fdiv_Fin q Hs). eexists. split; [reflexivity|].
    apply Rdiv_lt_0_compat; assumption.
  - exact IH.
Qed.

Lemma nonneg_reals_positive (l : vec) :
  Forall positive_real l ->
  exists p, nonneg_reals l = Some p /\ length p = length l.
Proof.
  induction 1 as [|x l (q & -> & Hq) _ (p & Hp & Hlen)].
  - exists []. split; reflexivity.
  - cbn [nonneg_reals]. destruct (Rle_dec 0 q) as [_ | Hn]; [|lra].
    rewrite Hp. exists (q :: p). split; [reflexivity|]. cbn [length]. lia.
Qed.

Lemma valid_probs_positive (l : vec) :
  Forall positive_real l -> l <> [] ->
  exists p, valid_probs l = Some p /\ length p = length l.
Proof.
  intros Hl Hne. unfold valid_probs, fsum.
  destruct (@fold_positive l 0 Hl (Rle_refl 0)) as (s & -> & _ & Hs).
  rewrite fltb_Fin_true by (apply Hs; exact Hne).
  apply nonneg_reals_positive. exact Hl.
Qed.

Lemma chunks_singletons {A} (l : list A) :
  chunks 1 (length l) l = map (fun x => [x]) l.
Proof.
  induction l as [|x l IH]; cbn [length chunks map]; [reflexivity|].
  cbn [firstn skipn]. f_equal. exact IH.
Qed.

Lemma index_rows_in_range {G} `{RandomSource G} (l : vec) (idx : list nat)
      (w : world G) :
  Forall (fun i => (i < length l)%nat) idx ->
  exists picked,
    index_rows (map (fun x => [x]) l) idx w = Ok picked w /\
    length (concat picked) = length idx /\
    Forall (fun v => In v l) (concat picked).
Proof.
  induction 1 as [|i idx Hi _ (picked & Hrun & Hlen & Hin)].
  - exists []. split; [reflexivity|]. split; [reflexivity | constructor].
  - cbn [index_rows].
    destruct (nth_error l i) as [v|] eqn:Hv;
      [|apply nth_error_None in Hv; lia].
    rewrite nth_error_map, Hv. cbn [option_map].
    unfold bind. rewrite Hrun. exists ([v] :: picked).
    split; [reflexivity|]. cbn [concat app length].
    split; [lia|]. constructor; [|exact Hin].
    eapply nth_error_In. exact Hv.
Qed.

End PriorSampler.

Section PriorSample.
Import MoreauYosidaPrior.
Context {G : Type} `{RandomSource G}.

(** [sample] after its draw: the test on the sum of the weights decides
    between resampling and returning the proposals. *)
Lemma sample_after_draw (self : t) (sample_shape : list nat) (w : world G) :
  let total := batch_shape self ++ sample_shape in
  let z := randn (numel total) (gen w) in
  let w1 := {| gen := snd z; trace := trace w |} in
  let xs := map (fun zi => 0 + 2 * zi) (fst z) in
  let ws := map (weight_of self) xs in
  draw_proposals total w = Ok (Tensor total (of_reals xs)) w1 /\
  sample self sample_shape w
  = if fltb (Fin 0) (fsum ws)
    then resample total (map (fun v => fdiv v (fsum ws)) ws) (of_reals xs) w1
    else Ok (Tensor total (of_reals xs)) w1.
Proof.
  intros total z w1 xs ws.
  assert (Hdraw : draw_proposals total w = Ok (Tensor total (of_reals xs)) w1).
  { unfold draw_proposals, bind, draw, ret. subst w1 xs z.
    destruct (randn (numel total) (gen w)) as [zs g']. cbn [fst snd].
    unfold of_reals. rewrite map_map. reflexivity. }
  split; [exact Hdraw|].
  unfold sample. fold total. unfold bind at 1. rewrite Hdraw.
  unfold tmap. cbn [data]. rewrite !importance_weights_entries. fold ws.
  destruct (fltb (Fin 0) (fsum ws)); reflexivity.
Qed.

Lemma sample_resamples_vector `{!RandomSourceLaws} (self : t)
      (sample_shape : list nat) (n : nat) (w : world G) :
  positive_real (lam self) ->
  batch_shape self ++ sample_shape = [n] ->
  exists out w',
    sample self sample_shape w = Ok out w' /\
    shape out = [n] /\ length (data out) = n /\
    Forall (fun v => In v (map (fun zi => Fin (0 + 2 * zi)) (fst (randn n (gen w)))))
           (data out).
Proof.
  intros Hlam Hshape.
  destruct (sample_after_draw self sample_shape w) as [_ Hrun].
  rewrite Hshape in Hrun. cbn [numel fold_right] in Hrun.
  rewrite Nat.mul_1_r in Hrun.
  pose proof (randn_length n (gen w)) as Hlen.
  set (z := randn n (gen w)) in *.
  set (xs := map (fun zi => 0 + 2 * zi) (fst z)) in *.
  set (ws := map (weight_of self) xs) in *.
  assert (Hprops : map (fun zi => Fin (0 + 2 * zi)) (fst z) = of_reals xs).
  { unfold xs, of_reals. rewrite map_map. reflexivity. }
  assert (Hxs : length (of_reals xs) = n).
  { unfold of_reals, xs. rewrite !length_map. exact Hlen. }
  assert (Hws : Forall positive_real ws).
  { unfold ws. apply Forall_forall. intros v Hv. apply in_map_iff in Hv.
    destruct Hv as (x & <- & _). apply weight_of_positive. exact Hlam. }
  rewrite Hprops.
  destruct n as [|m].
  - (* nothing was drawn: the sum is zero and the empty tensor comes back *)
    assert (Hnil : xs = []).
    { unfold xs. destruct (fst z); [reflexivity | discriminate]. }
    unfold ws in Hrun. rewrite Hnil in Hrun. cbn [map of_reals] in Hrun.
    unfold fsum in Hrun. cbn [fold_left] in Hrun.
    rewrite fltb_Fin_false in Hrun by lra.
    eexists. eexists. split; [exact Hrun|]. rewrite Hnil.
    split; [reflexivity|]. split; [reflexivity | constructor].
  - assert (Hne : ws <> []).
    { intros Heq. apply (f_equal (@length fval)) in Heq. unfold ws in Heq.
      rewrite length_map in Heq. unfold of_reals in Hxs.
      rewrite length_map in Hxs. rewrite Hxs in Heq. discriminate. }
    destruct (@fold_positive ws 0 Hws (Rle_refl 0)) as (s & Hsum & _ & Hs).
    specialize (Hs Hne). fold (fsum ws) in Hsum. rewrite Hsum in Hrun.
    rewrite fltb_Fin_true in Hrun by exact Hs.
    pose proof (normalised_positive Hs Hws) as Hnorm.
    set (nws := map (fun v => fdiv v (Fin s)) ws) in *.
    assert (Hnne : nws <> []).
    { intros Heq. apply Hne. unfold nws in Heq. destruct ws; [reflexivity | discriminate]. }
    destruct (valid_probs_positive Hnorm Hnne) as (p & Hp & Hplen).
    assert (Hpn : length p = S m).
    { rewrite Hplen. unfold nws, ws. rewrite !length_map.
      unfold of_reals in Hxs. rewrite length_map in Hxs. exact Hxs. }
    assert (Hpne : p <> []) by (intros ->; discriminate).
    unfold resample in Hrun. cbn [multinomial_rows] in Hrun.
    rewrite Hp in Hrun. unfold bind at 1 2 in Hrun. unfold draw in Hrun.
    cbn [gen] in Hrun.
    pose proof (multinomial_length p (S m) (snd z)) as Hilen.
    pose proof (multinomial_range (S m) (snd z) Hpne) as Hirange.
    destruct (multinomial p (S m) (snd z)) as [idx g'']. cbn [fst] in Hilen, Hirange.
    unfold bind at 1 in Hrun. unfold ret at 1 in Hrun. unfold ret at 1 in Hrun.
    cbn [concat] in Hrun. rewrite app_nil_r in Hrun.
    cbn [trace] in Hrun.
    replace (chunks 1 (S m) (of_reals xs)) with (map (fun x => [x]) (of_reals xs))
      in Hrun by (rewrite <- Hxs; symmetry; apply chunks_singletons).
    assert (Hidx : Forall (fun i => (i < length (of_reals xs))%nat) idx).
    { rewrite Hxs, <- Hpn. exact Hirange. }
    destruct (index_rows_in_range (of_reals xs)
                {| gen := g''; trace := trace w |} Hidx)
      as (picked & Hpick & Hplen' & Hpin).
    unfold bind in Hrun. rewrite Hpick in Hrun. unfold ret in Hrun.
    eexists. eexists. split; [exact Hrun|]. cbn [shape data].
    split; [reflexivity|]. split; [congruence | exact Hpin].
Qed.

End PriorSample.

Lemma positive_after_zero (x : fval) :
  fltb (Fin 0) (fadd (Fin 0) x) = fltb (Fin 0) x.
Proof.
  destruct x as [r | | |]; try reflexivity.
  cbn [fadd]. replace (0 + r) with r by lra. reflexivity.
Qed.

(** X11.  With the default shapes ([batch_shape] and [sample_shape] both
    empty) [sample] cannot resample.  It draws one proposal; when the
    importance weight of that proposal is positive, the resampling is
    entered and raises [IndexError] on [total_shape[0]] of the empty shape;
    otherwise (a weight that is zero or NaN) the proposal is returned as it
    was drawn. *)
Theorem sample_scalar_shape_cannot_resample {G} `{RandomSourceLaws G}
        (self : MoreauYosidaPrior.t) (sample_shape : list nat) (w : world G) :
  MoreauYosidaPrior.batch_shape self ++ sample_shape = [] ->
  exists x w1,
    MoreauYosidaPrior.draw_proposals [] w
    = Ok (MoreauYosidaPrior.Tensor [] [Fin x]) w1 /\
    MoreauYosidaPrior.sample self sample_shape w
    = if fltb (Fin 0) (weight_of self x)
      then Raise IndexError w1
      else Ok (MoreauYosidaPrior.Tensor [] [Fin x]) w1.
Proof.
  intros Hshape.
  destruct (sample_after_draw self sample_shape w) as [Hdraw Hrun].
  rewrite Hshape in Hdraw, Hrun.
  cbn [MoreauYosidaPrior.numel fold_right] in Hdraw, Hrun.
  pose proof (randn_length 1 (gen w)) as Hlen.
  destruct (fst (randn 1 (gen w))) as [|z0 [|z1 zs]]; try discriminate.
  cbn [map of_reals] in Hdraw, Hrun.
  unfold fsum in Hrun. cbn [fold_left] in Hrun.
  rewrite positive_after_zero in Hrun.
  exists (0 + 2 * z0). eexists. split; [exact Hdraw|].
  rewrite Hrun. destruct (fltb (Fin 0) (weight_of self (0 + 2 * z0))); reflexivity.
Qed.

Lemma sample_scalar_shape_cannot_resample_witness :
  let self := {| MoreauYosidaPrior.lam := Fin 1; MoreauYosidaPrior.batch_shape := [] |} in
  exists x w1,
    MoreauYosidaPrior.draw_proposals [] Examples.w0
    = Ok (MoreauYosidaPrior.Tensor [] [Fin x]) w1 /\
    MoreauYosidaPrior.sample self [] Examples.w0
    = if fltb (Fin 0) (weight_of self x)
      then Raise IndexError w1
      else Ok (MoreauYosidaPrior.Tensor [] [Fin x]) w1.
Proof.
  intros self.
  apply (@sample_scalar_shape_cannot_resample nat Scripted.source scripted_laws self []
           Examples.w0).
  reflexivity.
Defined.

(** X12.  With a one-dimensional total shape [[n]] and a positive smoothing
    scale, [sample] returns: the result has shape [[n]] and [n] entries,
    and every entry is one of the [n] proposals that were drawn. *)
Theorem sample_vector_resamples {G} `{RandomSourceLaws G}
        (self : MoreauYosidaPrior.t) (sample_shape : list nat) (n : nat)
        (w : world G) :
  positive_real (MoreauYosidaPrior.lam self) ->
  MoreauYosidaPrior.batch_shape self ++ sample_shape = [n] ->
  exists out w',
    MoreauYosidaPrior.sample self sample_shape w = Ok out w' /\
    MoreauYosidaPrior.shape out = [n] /\
    length (MoreauYosidaPrior.data out) = n /\
    Forall (fun v => In v (map (fun zi => Fin (0 + 2 * zi)) (fst (randn n (gen w)))))
           (MoreauYosidaPrior.data out).
Proof.
  intros Hlam Hshape. exact (sample_resamples_vector self sample_shape w Hlam Hshape).
Qed.

Lemma sample_vector_resamples_witness :
  exists out w',
    MoreauYosidaPrior.sample
      {| MoreauYosidaPrior.lam := Fin 1; MoreauYosidaPrior.batch_shape := [] |}
      [3%nat] Examples.w0 = Ok out w' /\
    MoreauYosidaPrior.shape out = [3%nat] /\
    length (MoreauYosidaPrior.data out) = 3%nat /\
    Forall (fun v => In v (map (fun zi => Fin (0 + 2 * zi))
                               (fst (randn 3 (gen Examples.w0)))))
           (MoreauYosidaPrior.data out).
Proof.
  apply (@sample_vector_resamples nat Scripted.source scripted_laws
           {| MoreauYosidaPrior.lam := Fin 1; MoreauYosidaPrior.batch_shape := [] |}
           [3%nat] 3%nat Examples.w0).
  - exists 1. split; [reflexivity | lra].
  - reflexivity.
Defined.



Lemma log_prob_entries (self : MoreauYosidaPrior.t) (sh : list nat) (x : vec) :
  MoreauYosidaPrior.data (MoreauYosidaPrior.log_prob self (MoreauYosidaPrior.Tensor sh x))
  = map (fun v => fsub (MoreauYosidaPrior.regularization_term self v)
                       (MoreauYosidaPrior.log_normalizer self)) x.
Proof.
  unfold MoreauYosidaPrior.log_prob, MoreauYosidaPrior.tmap.
  cbn [MoreauYosidaPrior.data]. apply map_map.
Qed.

Lemma penalty_monotone (lambda x y : R) :
  0 < lambda -> Rabs x <= Rabs y ->
  MoreauYosidaPrior.penalty lambda y <= MoreauYosidaPrior.penalty lambda x.
Proof.
  intros Hl Hxy. unfold MoreauYosidaPrior.penalty.
  set (cx := Rmax (Rabs x - 1) 0). set (cy := Rmax (Rabs y - 1) 0).
  assert (Hcx : 0 <= cx) by (unfold cx; apply Rmax_r).
  assert (Hle : cx <= cy).
  { unfold cx, cy. apply Rmax_case; [|apply Rmax_r].
    eapply Rle_trans; [|apply Rmax_l]. lra. }
  assert (Hsq : cx * cx <= cy * cy) by (apply Rmult_le_compat; assumption).
  assert (Hinv : 0 < / (2 * lambda)) by (apply Rinv_0_lt_compat; lra).
  unfold Rdiv. simpl pow. rewrite !Rmult_1_r.
  assert (Hm : cx * cx * / (2 * lambda) <= cy * cy * / (2 * lambda))
    by (apply Rmult_le_compat_r; [lra | exact Hsq]).
  lra.
Qed.

Lemma penalty_on_box (lambda x : R) :
  Rabs x <= 1 -> MoreauYosidaPrior.penalty lambda x = 0.
Proof.
  intros Hx. unfold MoreauYosidaPrior.penalty.
  assert (Hc : Rmax (Rabs x - 1) 0 = 0)
    by (unfold Rmax; destruct (Rle_dec (Rabs x - 1) 0); lra).
  rewrite Hc. unfold Rdiv. simpl pow. ring.
Qed.

(** X14.  For a positive smoothing scale the log density depends on a real
    coordinate only through its absolute value and never increases with
    it, and it is constant on the box: of two coordinates [x] and [y] with
    [|x| <= |y|] the entry [log_prob] returns for [y] is at most the one
    for [x], and the two entries are equal when both lie in [-1, 1]. *)
Theorem log_prob_flat_on_box (lambda : R) (bs sh : list nat) (xs : list R)
        (i j : nat) (x y : R) :
  0 < lambda ->
  nth_error xs i = Some x ->
  nth_error xs j = Some y ->
  let out := MoreauYosidaPrior.data
               (MoreauYosidaPrior.log_prob
                  {| MoreauYosidaPrior.lam := Fin lambda;
                     MoreauYosidaPrior.batch_shape := bs |}
                  (MoreauYosidaPrior.Tensor sh (of_reals xs))) in
  exists vx vy,
    nth_error out i = Some (Fin vx) /\
    nth_error out j = Some (Fin vy) /\
    (Rabs x <= Rabs y -> vy <= vx) /\
    (Rabs x <= 1 -> Rabs y <= 1 -> vx = vy).
Proof.
  intros Hl Hx Hy out. unfold out. rewrite log_prob_entries.
  unfold of_reals. rewrite map_map.
  rewrite !nth_error_map, Hx, Hy. cbn [option_map].
  rewrite !(regularization_term_Fin bs _ Hl), (log_normalizer_Fin bs Hl).
  cbn [fsub fneg fadd]. eexists. eexists.
  split; [reflexivity|]. split; [reflexivity|]. split.
  - intros Hxy. pose proof (@penalty_monotone lambda x y Hl Hxy). lra.
  - intros Hbx Hby.
    rewrite (@penalty_on_box lambda x Hbx), (@penalty_on_box lambda y Hby).
    reflexivity.
Qed.

Lemma log_prob_flat_on_box_witness :
  let out := MoreauYosidaPrior.data
               (MoreauYosidaPrior.log_prob
                  {| MoreauYosidaPrior.lam := Fin 1; MoreauYosidaPrior.batch_shape := [] |}
                  (MoreauYosidaPrior.Tensor [2%nat] (of_reals [0; 3]))) in
  exists vx vy,
    nth_error out 0 = Some (Fin vx) /\
    nth_error out 1 = Some (Fin vy) /\
    (Rabs 0 <= Rabs 3 -> vy <= vx) /\
    (Rabs 0 <= 1 -> Rabs 3 <= 1 -> vx = vy).
Proof.
  apply (@log_prob_flat_on_box 1 [] [2%nat] [0; 3] 0%nat 1%nat 0 3).
  - lra.
  - reflexivity.
  - reflexivity.
Defined.

(* ================================================================== *)
(** ** Batch statistics *)

Section BatchStatistics.
Import Utilities.

Lemma np_mean_empty : np_mean [] = NaN.
Proof.
  unfold np_mean, fsum. cbn [fold_left length INR fdiv]. rewrite sgn_zero.
  reflexivity.
Qed.

(** The batches [stat_ar] cuts are the consecutive blocks of the array. *)
Lemma chunks_blocks {A} (k m : nat) (l : list A) :
  MoreauYosidaPrior.chunks k m l
  = map (fun j => firstn k (skipn (j * k) l)) (seq 0 m).
Proof.
  revert l. induction m as [|m IH]; intros l; [reflexivity|].
  cbn [MoreauYosidaPrior.chunks seq map]. f_equal.
  rewrite IH, <- seq_shift, map_map. apply map_ext. intros j.
  rewrite skipn_skipn. cbn [Nat.mul]. f_equal. f_equal. lia.
Qed.

(** A block that ends inside the prefix is a block of the array. *)
Lemma block_of_prefix {A} (k n j : nat) (l : list A) :
  (j * k + k <= n)%nat ->
  firstn k (skipn (j * k) (firstn n l)) = firstn k (skipn (j * k) l).
Proof.
  intros Hle. rewrite skipn_firstn_comm, firstn_firstn.
  f_equal. lia.
Qed.

Lemma stat_ar_blocks {G} (x : vec) (every : nat) (w : world G) :
  every <> O ->
  let means := map (fun j => np_mean (firstn every (skipn (j * every) x)))
                   (seq 0 (length x / every)) in
  stat_ar x every w = Ok (np_mean means, np_std means, means) w.
Proof.
  intros Hne means. unfold stat_ar, py_floordiv.
  destruct (Nat.eqb_neq every 0) as [_ Hneq]. rewrite (Hneq Hne).
  unfold bind, ret.
  assert (Hm : map np_mean
                 (MoreauYosidaPrior.chunks every (length x / every)
                    (firstn (length x / every * every) x)) = means).
  { rewrite chunks_blocks, map_map. unfold means. apply map_ext_in.
    intros j Hj. apply in_seq in Hj. f_equal. apply block_of_prefix.
    replace (j * every + every)%nat with (S j * every)%nat by (cbn [Nat.mul]; lia).
    apply Nat.mul_le_mono_r. lia. }
  rewrite Hm. reflexivity.
Qed.

Lemma stat_ar_tail {G} (x tail : vec) (every : nat) (w : world G) :
  every <> O ->
  (length x mod every + length tail < every)%nat ->
  stat_ar (x ++ tail) every w = stat_ar x every w.
Proof.
  intros Hne Hshort. unfold stat_ar, py_floordiv.
  destruct (Nat.eqb_neq every 0) as [_ Hneq]. rewrite (Hneq Hne).
  unfold bind, ret.
  assert (Hdiv : (length (x ++ tail) / every = length x / every)%nat).
  { rewrite length_app. symmetry.
    apply (Nat.div_unique _ _ _ (length x mod every + length tail)); [exact Hshort|].
    pose proof (Nat.div_mod_eq (length x) every). lia. }
  rewrite Hdiv.
  assert (Hle : (length x / every * every <= length x)%nat).
  { rewrite Nat.mul_comm. apply Nat.Div0.mul_div_le. }
  rewrite firstn_app.
  replace (length x / every * every - length x)%nat with O by lia.
  cbn [firstn]. rewrite app_nil_r. reflexivity.
Qed.

End BatchStatistics.

(** X16.  For a batch length other than zero, [stat_ar] returns one mean
    per full batch: [len(x) // every] of them, the one at position [j]
    being the mean of the entries [j * every] to [j * every + every - 1];
    the mean and the standard deviation it reports are those of these
    batch means.  The entries of an incomplete last batch are never read:
    appending fewer entries than complete the next batch changes nothing of
    what is returned. *)
Theorem stat_ar_mean_of_batches {G} (x tail : vec) (every : nat) (w : world G) :
  every <> O ->
  let means := map (fun j => Utilities.np_mean (firstn every (skipn (j * every) x)))
                   (seq 0 (length x / every)) in
  Utilities.stat_ar x every w
  = Ok (Utilities.np_mean means, Utilities.np_std means, means) w /\
  ((length x mod every + length tail < every)%nat ->
   Utilities.stat_ar (x ++ tail) every w = Utilities.stat_ar x every w).
Proof.
  intros Hne means. split.
  - exact (stat_ar_blocks x w Hne).
  - intros Hshort. exact (stat_ar_tail x tail w Hne Hshort).
Qed.

Lemma stat_ar_mean_of_batches_witness :
  let x := of_reals [1; 3; 5; 7] in
  let tail := of_reals [100] in
  let means := map (fun j => Utilities.np_mean (firstn 2 (skipn (j * 2) x)))
                   (seq 0 (length x / 2)) in
  Utilities.stat_ar x 2 Examples.w0
  = Ok (Utilities.np_mean means, Utilities.np_std means, means) Examples.w0 /\
  ((length x mod 2 + length tail < 2)%nat ->
   Utilities.stat_ar (x ++ tail) 2 Examples.w0 = Utilities.stat_ar x 2 Examples.w0).
Proof.
  intros x tail.
  apply (@stat_ar_mean_of_batches nat x tail 2%nat Examples.w0).
  discriminate.
Defined.

(** X17.  The degenerate batch lengths of [stat_ar]: [every = 0] raises
    [ZeroDivisionError]; an array shorter than one batch gives no batch
    mean at all, and both the mean and the standard deviation reported are
    NaN. *)
Theorem stat_ar_degenerate {G} (x : vec) (every : nat) (w : world G) :
  (every = O -> Utilities.stat_ar x every w = Raise ZeroDivisionError w) /\
  ((length x < every)%nat -> Utilities.stat_ar x every w = Ok (NaN, NaN, []) w).
Proof.
  split.
  - intros ->. reflexivity.
  - intros Hlt. unfold Utilities.stat_ar, Utilities.py_floordiv.
    destruct (Nat.eqb_neq every 0) as [_ Hneq]. rewrite Hneq by lia.
    unfold bind, ret. rewrite (Nat.div_small _ _ Hlt).
    cbn [MoreauYosidaPrior.chunks map].
    unfold Utilities.np_std. cbn [map]. rewrite np_mean_empty. reflexivity.
Qed.
